(** * scil_compute_pca.py: masking and PCA-input assembly, verified

    A shallow embedding of the array pipeline of
    [scripts/scil_compute_pca.py]: loading one connectivity matrix per
    (subject, metric), extracting the common-connection masks, applying
    them, flattening to the PCA input table, and unpacking the component
    scores back into per-subject matrices.

    - NumPy arrays are a shape together with the row-major (C order)
      buffer; views are read and written through their base array.
    - Array entries are integers and [np_add], [np_multiply] are exact: this
      is NumPy on a dtype that represents every value that occurs.  The one
      place where the dtype decides the result, the running sum of
      [extracting_common_cnx], is also given with the dtype as a parameter
      ([extracting_common_cnx_as]): there the sum wraps, saturates or rounds
      as the dtype does.  Non-finite floats are outside the model.
    - Array objects live in an explicit store, so that in-place assignment
      and copying are distinguished; Python lists and dictionaries are
      passed as values, a function that mutates one returns the new value.
    - Exceptions are results; the store is kept when one is raised.
    - [main] is modelled from its first line: it reads [args.input], which
      the parser does not define, and stops there.  The statements of [main]
      after that line are given as blocks with the values they use as
      arguments ([load_all], [first_shape], [common_block], [main_input] for
      lines 177-202, [unpack_components], [save_components]): what a block
      does is what these lines do when they are reached with those values.
      The scaler, the decomposition and the plots (scikit-learn, matplotlib)
      are not modelled. *)

From stdpp Require Import base list strings numbers pretty.
From Stdlib Require Import ZArith QArith Lia.

Local Open Scope Z_scope.
Local Open Scope nat_scope.

(** ** Exceptions and results *)

Inductive exn :=
  | IndexError
  | ValueError
  | AxisError
  | KeyError
  | AttributeError
  | DanglingReference            (* a reference outside the store: unreachable from Python *)
  | MissingMatrixError (path : string)
  | ParserError (msg : string).  (* [parser.error(msg)]: message and exit *)

Inductive result (A : Type) :=
  | Ok (a : A)
  | Raise (e : exn).
Arguments Ok {A} a.
Arguments Raise {A} e.

#[global] Instance exn_eq_dec : EqDecision exn.
Proof. solve_decision. Defined.

Definition rbind {A B} (r : result A) (f : A → result B) : result B :=
  match r with
  | Ok a => f a
  | Raise e => Raise e
  end.

#[global] Instance result_ret : MRet result := λ A a, Ok a.
#[global] Instance result_bind : MBind result := λ A B f r, rbind r f.

Fixpoint rmapM {A B} (f : A → result B) (l : list A) : result (list B) :=
  match l with
  | [] => Ok []
  | x :: l' => y ← f x; ys ← rmapM f l'; Ok (y :: ys)
  end.

(** ** NumPy arrays *)

(** An array: its shape and its buffer in row-major order.  The entries are
    the values as integers; the dtype is not a field of the array.  Where it
    decides a result it is an argument of the operation ([np_add_as]). *)
Record ndarray := NdArray { shape : list nat; data : list Z }.

#[global] Instance ndarray_eq_dec : EqDecision ndarray.
Proof. solve_decision. Defined.

(** [np.prod] of a shape. *)
Definition size_of (sh : list nat) : nat := foldr Nat.mul 1 sh.

(** The buffer has as many entries as the shape says. *)
Definition wf_array (a : ndarray) : Prop := length (data a) = size_of (shape a).

(** [len(a)] *)
Definition np_len (a : ndarray) : nat := hd 0 (shape a).

(** [a[i]] for a natural index [i]: the [i]-th sub-array along axis 0. *)
Definition np_getitem (a : ndarray) (i : nat) : result ndarray :=
  match shape a with
  | [] => Raise IndexError
  | n :: sh =>
      if decide (i < n)
      then Ok (NdArray sh (take (size_of sh) (drop (i * size_of sh) (data a))))
      else Raise IndexError
  end.

(** Writing the buffer [v] over the [i]-th sub-array of [a] (what an
    assignment through the view [a[i]] does to [a]). *)
Definition np_setitem (a : ndarray) (i : nat) (v : list Z) : ndarray :=
  let sz := size_of (tl (shape a)) in
  NdArray (shape a) (take (i * sz) (data a) ++ v ++ drop ((i + 1) * sz) (data a)).

(** [a[cond(a)] = v]: boolean-mask assignment of a scalar. *)
Definition assign_where (cond : Z → bool) (v : Z) (buf : list Z) : list Z :=
  (λ x, if cond x then v else x) <$> buf.

(** [np.array(l)] / [np.copy(l)] for a Python list [l] of arrays: stacks them
    along a new leading axis; arrays of different shapes are refused. *)
Definition np_array (l : list ndarray) : result ndarray :=
  match l with
  | [] => Ok (NdArray [0] [])
  | a :: _ =>
      if forallb (λ b, bool_decide (shape b = shape a)) l
      then Ok (NdArray (length l :: shape a) (concat (data <$> l)))
      else Raise ValueError
  end.

(** *** Broadcasting of binary ufuncs *)

(** Left-pads a shape with 1s up to [n] dimensions. *)
Definition pad_shape (n : nat) (sh : list nat) : list nat :=
  replicate (n - length sh) 1 ++ sh.

Fixpoint broadcast_shapes (s1 s2 : list nat) : result (list nat) :=
  match s1, s2 with
  | x :: s1', y :: s2' =>
      d ← (if decide (x = y) then Ok x
           else if decide (x = 1) then Ok y
           else if decide (y = 1) then Ok x
           else Raise ValueError);
      r ← broadcast_shapes s1' s2';
      Ok (d :: r)
  | _, _ => Ok []
  end.

(** The buffer of an array of shape [sh] viewed at shape [out]
    (same number of dimensions, each dimension equal or 1 in [sh]). *)
Fixpoint broadcast_data (sh out : list nat) (buf : list Z) : list Z :=
  match sh, out with
  | n :: sh', m :: out' =>
      let sz := size_of sh' in
      if decide (n = m)
      then i ← seq 0 n; broadcast_data sh' out' (take sz (drop (i * sz) buf))
      else concat (replicate m (broadcast_data sh' out' buf))
  | _, _ => buf
  end.

Definition np_binop (op : Z → Z → Z) (a b : ndarray) : result ndarray :=
  let n := length (shape a) `max` length (shape b) in
  let sa := pad_shape n (shape a) in
  let sb := pad_shape n (shape b) in
  out ← broadcast_shapes sa sb;
  Ok (NdArray out (zip_with op (broadcast_data sa out (data a))
                               (broadcast_data sb out (data b)))).

Definition np_add : ndarray → ndarray → result ndarray := np_binop Z.add.
Definition np_multiply : ndarray → ndarray → result ndarray := np_binop Z.mul.

(** [np.sum(a)] *)
Definition np_sum (a : ndarray) : Z := foldr Z.add 0%Z (data a).

(** ** The store of array objects *)

Definition loc := nat.
Definition heap := list ndarray.

(** Computations that read and write the store and may raise. *)
Definition py (A : Type) : Type := heap → result A * heap.

Definition py_ret {A} (a : A) : py A := λ h, (Ok a, h).
Definition py_bind {A B} (m : py A) (f : A → py B) : py B :=
  λ h, match m h with
       | (Ok a, h') => f a h'
       | (Raise e, h') => (Raise e, h')
       end.

#[global] Instance py_mret : MRet py := @py_ret.
#[global] Instance py_mbind : MBind py := λ A B f m, py_bind m f.

Definition lift {A} (r : result A) : py A := λ h, (r, h).
Definition raise {A} (e : exn) : py A := lift (Raise e).

(** A new array object. *)
Definition alloc (a : ndarray) : py loc := λ h, (Ok (length h), h ++ [a]).

Definition deref (l : loc) : py ndarray :=
  λ h, match h !! l with
       | Some a => (Ok a, h)
       | None => (Raise DanglingReference, h)
       end.

Definition store (l : loc) (a : ndarray) : py unit :=
  λ h, if decide (l < length h) then (Ok (), <[l:=a]> h)
       else (Raise DanglingReference, h).

Fixpoint py_mapM {A B} (f : A → py B) (l : list A) : py (list B) :=
  match l with
  | [] => mret []
  | x :: l' => y ← f x; ys ← py_mapM f l'; mret (y :: ys)
  end.

(** [for x in l: body(x)] *)
Fixpoint for_each {A} (l : list A) (body : A → py unit) : py unit :=
  match l with
  | [] => mret ()
  | x :: l' => body x;; for_each l' body
  end.

(** A [for] loop that rebinds local variables, carried as [s]. *)
Fixpoint for_fold {A S} (l : list A) (s : S) (body : S → A → py S) : py S :=
  match l with
  | [] => mret s
  | x :: l' => s' ← body s x; for_fold l' s' body
  end.

(** ** Python dictionaries and lists *)

(** A [dict] with string keys, in insertion order. *)
Definition pydict (V : Type) : Type := list (string * V).

Definition dict_keys {V} (d : pydict V) : list string := d.*1.

Fixpoint dict_get {V} (d : pydict V) (k : string) : result V :=
  match d with
  | [] => Raise KeyError
  | (k', v) :: d' => if decide (k' = k) then Ok v else dict_get d' k
  end.

(** [d[k] = v]: rebinds an existing key in place, or appends a new one. *)
Fixpoint dict_set {V} (d : pydict V) (k : string) (v : V) : pydict V :=
  match d with
  | [] => [(k, v)]
  | (k', v') :: d' =>
      if decide (k' = k) then (k, v) :: d' else (k', v') :: dict_set d' k v
  end.

(** [l[i]] for a Python list. *)
Definition list_get {A} (l : list A) (i : nat) : result A :=
  match l !! i with
  | Some x => Ok x
  | None => Raise IndexError
  end.

(** A metric dictionary: metric name to the list of per-subject arrays. *)
Definition metric_dict : Type := pydict (list loc).

(** ** [extracting_common_cnx] *)

Definition extracting_common_cnx (d : metric_dict) (ind : nat) : py loc :=
  let keys := dict_keys d in
  k ← lift (list_get keys ind);
  refs ← lift (dict_get d k);
  (* met = np.copy(d[keys[ind]]) *)
  arrs ← py_mapM deref refs;
  stacked ← lift (np_array arrs);
  met ← alloc stacked;
  a ← deref met;
  let n := np_len a in
  (* Replacing all non-zero values by 1. *)
  for_each (seq 0 n) (λ i,
    a ← deref met;
    v ← lift (np_getitem a i);
    store met (np_setitem a i (assign_where (λ x, bool_decide (x ≠ 0%Z)) 1%Z (data v))));;
  (* Adding all matrices together. *)
  a ← deref met;
  m0 ← lift (np_getitem a 0);
  orig ← alloc m0;
  '(orig, mask) ← for_fold (seq 1 (n - 1)) (orig, [orig]) (λ '(orig, mask) i,
    o ← deref orig;
    a ← deref met;
    v ← lift (np_getitem a i);
    s ← lift (np_add o v);
    orig' ← alloc s;
    mret (orig', mask ++ [orig']));
  (* Converting resulting values to 0 and 1. *)
  mask_f ← lift (list_get mask (n - 1));
  f ← deref mask_f;
  store mask_f (NdArray (shape f)
    (assign_where (λ x, bool_decide (x ≠ Z.of_nat n)) 0%Z (data f)));;
  f ← deref mask_f;
  store mask_f (NdArray (shape f)
    (assign_where (λ x, bool_decide (x = Z.of_nat n)) 1%Z (data f)));;
  mret mask_f.

(** ** [extracting_common_cnx] on a given dtype *)

(** The element types of the stored matrices. *)
Inductive dtype :=
  | np_bool
  | np_uint (bits : nat)
  | np_int (bits : nat)
  | np_float64.

(** The float64 nearest to an integer: 53 significant bits, ties to even
    (integers beyond the range of float64 are outside the model). *)
Definition round_float64 (x : Z) : Z :=
  if decide (Z.abs x ≤ 2 ^ 53)%Z then x
  else
    let e := (Z.log2 (Z.abs x) - 52)%Z in
    let q := (x / 2 ^ e)%Z in
    let r := (x mod 2 ^ e)%Z in
    let half := (2 ^ (e - 1))%Z in
    if decide (r < half)%Z then (q * 2 ^ e)%Z
    else if decide (half < r)%Z then ((q + 1) * 2 ^ e)%Z
    else if Z.even q then (q * 2 ^ e)%Z
    else ((q + 1) * 2 ^ e)%Z.

(** What a ufunc stores for the exact result [x]: bool saturates (its sum is
    the logical or), fixed-width integers wrap, float64 rounds. *)
Definition cast (dt : dtype) (x : Z) : Z :=
  match dt with
  | np_bool => if decide (x = 0%Z) then 0%Z else 1%Z
  | np_uint b => (x mod 2 ^ Z.of_nat b)%Z
  | np_int b =>
      ((x + 2 ^ (Z.of_nat b - 1)) mod 2 ^ Z.of_nat b - 2 ^ (Z.of_nat b - 1))%Z
  | np_float64 => round_float64 x
  end.

(** A Python int compared with an array: as it is against a bool or integer
    array, converted to float64 against a float64 array. *)
Definition weak (dt : dtype) (n : Z) : Z :=
  match dt with
  | np_float64 => round_float64 n
  | _ => n
  end.

(** [np.add] on two arrays of dtype [dt]: the result keeps the dtype. *)
Definition np_add_as (dt : dtype) : ndarray → ndarray → result ndarray :=
  np_binop (λ x y, cast dt (x + y)%Z).

(** [extracting_common_cnx] when the matrices of the chosen metric have dtype
    [dt]: [np.copy] and [np.add] keep it. *)
Definition extracting_common_cnx_as (dt : dtype) (d : metric_dict) (ind : nat) : py loc :=
  let keys := dict_keys d in
  k ← lift (list_get keys ind);
  refs ← lift (dict_get d k);
  (* met = np.copy(d[keys[ind]]) *)
  arrs ← py_mapM deref refs;
  stacked ← lift (np_array arrs);
  met ← alloc stacked;
  a ← deref met;
  let n := np_len a in
  (* Replacing all non-zero values by 1. *)
  for_each (seq 0 n) (λ i,
    a ← deref met;
    v ← lift (np_getitem a i);
    store met (np_setitem a i (assign_where (λ x, bool_decide (x ≠ 0%Z)) 1%Z (data v))));;
  (* Adding all matrices together. *)
  a ← deref met;
  m0 ← lift (np_getitem a 0);
  orig ← alloc m0;
  '(orig, mask) ← for_fold (seq 1 (n - 1)) (orig, [orig]) (λ '(orig, mask) i,
    o ← deref orig;
    a ← deref met;
    v ← lift (np_getitem a i);
    s ← lift (np_add_as dt o v);
    orig' ← alloc s;
    mret (orig', mask ++ [orig']));
  (* Converting resulting values to 0 and 1. *)
  mask_f ← lift (list_get mask (n - 1));
  f ← deref mask_f;
  store mask_f (NdArray (shape f)
    (assign_where (λ x, bool_decide (x ≠ weak dt (Z.of_nat n))) 0%Z (data f)));;
  f ← deref mask_f;
  store mask_f (NdArray (shape f)
    (assign_where (λ x, bool_decide (x = weak dt (Z.of_nat n))) 1%Z (data f)));;
  mret mask_f.

(** ** [apply_binary_mask] *)

Definition apply_binary_mask (d : metric_dict) (mask : loc) : py metric_dict :=
  for_fold (dict_keys d) d (λ d a,
    l ← lift (dict_get d a);
    for_fold (seq 0 (length l)) d (λ d i,
      l ← lift (dict_get d a);
      x ← lift (list_get l i);
      xa ← deref x;
      m ← deref mask;
      y ← lift (np_multiply xa m);
      y' ← alloc y;
      mret (dict_set d a (<[i:=y']> l)))).

(** ** Axis permutations, reshaping and stacking *)

(** All multi-indices of a shape, in row-major order. *)
Fixpoint indices (sh : list nat) : list (list nat) :=
  match sh with
  | [] => [[]]
  | n :: sh' => i ← seq 0 n; (cons i) <$> indices sh'
  end.

(** Position in the row-major buffer of a multi-index. *)
Fixpoint ravel (sh idx : list nat) : nat :=
  match sh, idx with
  | _ :: sh', i :: idx' => i * size_of sh' + ravel sh' idx'
  | _, _ => 0
  end.

(** The index into the source array of an index [idx] into
    [a.transpose(axes)]: source axis [axes[k]] carries [idx[k]]. *)
Definition source_index (axes idx : list nat) : list nat :=
  foldr (λ '(ax, i) acc, <[ax:=i]> acc) (replicate (length axes) 0) (zip axes idx).

(** [a.transpose(axes)], materialised in row-major order. *)
Definition np_transpose (axes : list nat) (a : ndarray) : ndarray :=
  let sh := (λ ax, nth ax (shape a) 0) <$> axes in
  NdArray sh
    ((λ idx, nth (ravel (shape a) (source_index axes idx)) (data a) 0%Z) <$> indices sh).

(** [np.rollaxis(a, axis, start)] *)
Definition np_rollaxis (a : ndarray) (axis start : nat) : result ndarray :=
  let n := length (shape a) in
  if decide (n ≤ axis) then Raise AxisError
  else if decide (n + 1 ≤ start) then Raise AxisError
  else
    let start := if decide (axis < start) then start - 1 else start in
    if decide (axis = start) then Ok a
    else
      let axes := seq 0 n in
      let axes := delete axis axes in
      let axes := take start axes ++ axis :: drop start axes in
      Ok (np_transpose axes a).

(** [a.swapaxes(i, j)] *)
Definition np_swapaxes (a : ndarray) (i j : nat) : result ndarray :=
  let n := length (shape a) in
  if decide (n ≤ i) then Raise AxisError
  else if decide (n ≤ j) then Raise AxisError
  else Ok (np_transpose (<[i:=j]> (<[j:=i]> (seq 0 n))) a).

(** [a.reshape(sh)] *)
Definition np_reshape (a : ndarray) (sh : list nat) : result ndarray :=
  if decide (size_of sh = size_of (shape a)) then Ok (NdArray sh (data a))
  else Raise ValueError.

(** [np.hstack(l)]: concatenation along axis 1 (axis 0 for arrays of fewer
    than two dimensions). *)
Definition np_hstack (l : list ndarray) : result ndarray :=
  match l with
  | [] => Raise ValueError
  | a :: _ =>
      match shape a with
      | r :: _ :: rest =>
          if forallb (λ b, bool_decide (length (shape b) = length (shape a)
                                        ∧ delete 1 (shape b) = delete 1 (shape a))) l
          then Ok (NdArray (r :: sum_list ((λ b, nth 1 (shape b) 0) <$> l) :: rest)
                     (i ← seq 0 r; b ← l;
                      let sz := size_of (tl (shape b)) in
                      take sz (drop (i * sz) (data b))))
          else Raise ValueError
      | _ =>
          if forallb (λ b, bool_decide (length (shape b) ≤ 1)) l
          then Ok (NdArray [sum_list ((λ b, length (data b)) <$> l)] (concat (data <$> l)))
          else Raise ValueError
      end
  end.

(** ** [creating_pca_input] *)

(** The loop rebinds every key of [d] to its flattened column; the dictionary
    of the rebound keys is returned next to the table. *)
Definition creating_pca_input (d : metric_dict) : py (pydict loc * loc) :=
  cols ← for_fold (dict_keys d) ([] : pydict loc) (λ cols a,
    refs ← lift (dict_get d a);
    arrs ← py_mapM deref refs;
    stacked ← lift (np_array arrs);
    mat ← lift (np_rollaxis stacked 1 3);
    let matrix_shape := take 2 (drop 1 (shape mat)) in
    n_group ← lift (list_get (shape mat) 0);
    mat ← lift (np_reshape mat [size_of matrix_shape * n_group; 1]);
    mat ← alloc mat;
    mret (dict_set cols a mat));
  columns ← py_mapM (λ i, c ← lift (dict_get cols i); deref c) (dict_keys d);
  out ← lift (np_hstack columns);
  out ← alloc out;
  mret (cols, out).

(** ** [restore_zero_values] *)

Definition restore_zero_values (orig new : ndarray) : result ndarray :=
  let mask := orig in
  let mask := NdArray (shape mask)
                (assign_where (λ x, bool_decide (x ≠ 0%Z)) 1%Z (data mask)) in
  np_multiply new mask.

(** ** [main] *)

Definition newline : string := String (Ascii.ascii_of_nat 10) EmptyString.

Definition shape_msg : string :=
  "Extracted binary mask doesn't match the shape of individual input matrix.".
Definition mask_msg : string :=
  "Different binary mask have been generated from 2 different metrics, "
  +:+ newline +:+ " please validate input data.".

Definition matrix_path (in_folder a m : string) : string :=
  in_folder +:+ "/" +:+ a +:+ "/Compute_Connectivity/" +:+ m +:+ ".npy".

Section Main.
(** Modelled from the spec: the matrix store behind
    [load_matrix_in_any_format] (scilpy.io.utils), an opaque key-value
    array store keyed by path; a pair with no stored matrix has no entry. *)
Variable matrix_store : string → option ndarray.

(** Modelled from the spec: [load_matrix_in_any_format], which fails with
    [MissingMatrixError] when the store has no matrix for the path. *)
Definition load_matrix_in_any_format (path : string) : py loc :=
  match matrix_store path with
  | Some a => alloc a
  | None => raise (MissingMatrixError path)
  end.

(** Loading all matrix. *)
Definition load_all (in_folder : string) (subjects metrics : list string)
  : py metric_dict :=
  for_fold metrics ([] : metric_dict) (λ d m,
    l ← py_mapM (λ a, load_matrix_in_any_format (matrix_path in_folder a m)) subjects;
    mret (dict_set d m l)).

(** Setting individual matrix shape. *)
Definition first_shape (d : metric_dict) (metrics : list string) : py (list nat) :=
  m0 ← lift (list_get metrics 0);
  l ← lift (dict_get d m0);
  x ← lift (list_get l 0);
  xa ← deref x;
  mret (shape xa).

(** The [if args.common == 'true'] block. *)
Definition common_block (d : metric_dict) (mat_shape : list nat) : py metric_dict :=
  m1 ← extracting_common_cnx d 0;
  m2 ← extracting_common_cnx d 1;
  a1 ← deref m1;
  (if decide (shape a1 ≠ mat_shape) then raise (ParserError shape_msg) else mret ());;
  a2 ← deref m2;
  (if decide (np_sum a1 ≠ np_sum a2) then raise (ParserError mask_msg) else mret ());;
  apply_binary_mask d m1.

(** Lines 177-202 of [main] as a block, with the values the lines use as
    arguments: the input folder, the subject ids, the metric names and
    whether [args.common] is 'true'.  The lines before them are not part of
    the block (see [main]). *)
Definition main_input (in_folder : string) (subjects metrics : list string)
    (common : bool) : py (list nat * loc) :=
  d ← load_all in_folder subjects metrics;
  mat_shape ← first_shape d metrics;
  d ← (if common then common_block d mat_shape else mret d);
  '(_, df) ← creating_pca_input d;
  mret (mat_shape, df).
End Main.

(** Extract the derived newly computed measures from the PCA analysis:
    restoring the zeros and reshaping the component scores back to
    (component, subject, row, column). *)
Definition unpack_components (x out : ndarray) (n_metrics n_subjects : nat)
    (mat_shape : list nat) : result ndarray :=
  out ← restore_zero_values x out;
  out ← np_swapaxes out 0 1;
  r ← list_get mat_shape 0;
  c ← list_get mat_shape 1;
  np_reshape out [n_metrics; n_subjects; r; c].

Definition pc_path (in_folder a : string) (i : nat) : string :=
  in_folder +:+ "/" +:+ a +:+ "/Compute_Connectivity/PC" +:+ pretty (i + 1) +:+ ".npy".

(** [a[i, s, :, :]] *)
Definition np_getitem_2 (a : ndarray) (i s : nat) : result ndarray :=
  if decide (length (shape a) < 4) then Raise IndexError
  else oi ← np_getitem a i; np_getitem oi s.

(** Save matrix for significant components: the files written, in order. *)
Definition save_components (in_folder : string) (subjects : list string)
    (eigenvalues : list Q) (out : ndarray) : result (list (string * ndarray)) :=
  let nb_pc := filter (λ e, Qle_bool 1 e = true) eigenvalues in
  files ← rmapM (λ i,
    rmapM (λ s,
      a ← list_get subjects s;
      ois ← np_getitem_2 out i s;
      Ok (pc_path in_folder a i, ois)) (seq 0 (length subjects)))
    (seq 0 (length nb_pc));
  Ok (concat files).

(** *** [main] from its first line *)

(** What the parsed arguments hold. *)
Inductive pyvalue :=
  | PyStr (s : string)
  | PyList (l : list string)
  | PyBool (b : bool)
  | PyNone.

(** The namespace [parser.parse_args()] returns: attribute names and values. *)
Definition namespace : Type := pydict pyvalue.

(** [args.name] *)
Definition getattr (args : namespace) (name : string) : result pyvalue :=
  match dict_get args name with
  | Ok v => Ok v
  | Raise _ => Raise AttributeError
  end.

(** The attributes of the namespace the parser of [_build_arg_parser] fills:
    argparse names the attribute of a positional after the positional and
    that of an option after its long flag.  [add_verbose_arg] and
    [add_overwrite_arg] (scilpy.io.utils) add arguments of their own, whose
    attributes are taken as parameters. *)
Definition _build_arg_parser (verbose_arg overwrite_arg : list string) : list string :=
  ["in_folder"; "output"; "metrics"; "ids"; "common"]%string
    ++ verbose_arg ++ overwrite_arg.

Section Script.
(** [main] from the call of [assert_inputs_exist] on (lines 172-277): it goes
    through scilpy.io.utils, the file system, scikit-learn and matplotlib,
    and is a parameter here; it is given the namespace and the value of
    [args.input]. *)
Variable rest_of_main : namespace → pyvalue → py (list (string * ndarray)).

(** [main], with the parsed namespace as argument; the result is the list of
    the component files written. *)
Definition main (args : namespace) : py (list (string * ndarray)) :=
  (* if args.verbose: logging.basicConfig(level=logging.DEBUG) *)
  verbose ← lift (getattr args "verbose");
  (* assert_inputs_exist(parser, args.input): the argument is evaluated first *)
  input ← lift (getattr args "input");
  rest_of_main args input.
End Script.

(** * Definitions for the statements *)

(** ** The common-connection mask *)

(** What the first loop of [extracting_common_cnx] does to one buffer. *)
Definition binarize (buf : list Z) : list Z :=
  assign_where (λ x, bool_decide (x ≠ 0%Z)) 1%Z buf.

(** What the second loop accumulates: the elementwise sum of the buffers. *)
Definition sum_buffers (bufs : list (list Z)) : list Z :=
  match bufs with
  | [] => []
  | b :: bs => foldl (zip_with Z.add) b bs
  end.

(** The two threshold assignments that end [extracting_common_cnx]. *)
Definition keep_full (n : nat) (buf : list Z) : list Z :=
  assign_where (λ x, bool_decide (x = Z.of_nat n)) 1%Z
    (assign_where (λ x, bool_decide (x ≠ Z.of_nat n)) 0%Z buf).

(** The mask in the words of the specification: binarize every subject's
    matrix (non-zero to 1), *)
Definition spec_binarize (buf : list Z) : list Z :=
  (λ x, if bool_decide (x = 0%Z) then 0%Z else 1%Z) <$> buf.

(** sum the binarized matrices across all subjects elementwise, *)
Definition spec_sum (sz : nat) (bufs : list (list Z)) : list Z :=
  foldr (zip_with Z.add) (replicate sz 0%Z) bufs.

(** and retain (set to 1) a cell only if its sum equals the subject count,
    else 0. *)
Definition spec_retain (count : nat) (buf : list Z) : list Z :=
  (λ c, if bool_decide (c = Z.of_nat count) then 1%Z else 0%Z) <$> buf.

Definition spec_common_mask (sh : list nat) (arrs : list ndarray) : ndarray :=
  NdArray sh (spec_retain (length arrs)
                (spec_sum (size_of sh) (spec_binarize <$> (data <$> arrs)))).

(** The entries at position [j] of a list of buffers. *)
Definition column (j : nat) (bufs : list (list Z)) : list Z :=
  (λ b, nth j b 0%Z) <$> bufs.

Definition zsum (l : list Z) : Z := foldr Z.add 0%Z l.

(** The dtype represents every count from 0 to [n] as itself: sums of at
    most [n] ones are exact in it. *)
Definition counts_to (dt : dtype) (n : nat) : Prop :=
  ∀ k : Z, (0 ≤ k ≤ Z.of_nat n)%Z → cast dt k = k.

(** ** Valid sets *)

(** The arrays behind a list of references. *)
Definition holds (h : heap) (refs : list loc) (arrs : list ndarray) : Prop :=
  Forall2 (λ l a, h !! l = Some a) refs arrs.

(** Arrays of one shape, each with a buffer of that size. *)
Definition same_shape (sh : list nat) (arrs : list ndarray) : Prop :=
  Forall (λ a, shape a = sh ∧ wf_array a) arrs.

(** The arrays of every metric of [d], metric by metric, in subject order. *)
Definition set_values (h : heap) (d : metric_dict) (vals : list (list ndarray)) : Prop :=
  Forall2 (λ e arrs, holds h e.2 arrs) d vals.

(** A MetricMatrixSet: distinct metric names, and for every metric one
    array of shape [sh] per subject. *)
Definition valid_set (h : heap) (d : metric_dict) (sh : list nat) (n_subjects : nat)
    (vals : list (list ndarray)) : Prop :=
  NoDup (dict_keys d) ∧ set_values h d vals
  ∧ Forall (λ arrs, length arrs = n_subjects ∧ same_shape sh arrs) vals.

(** The product of an array with a mask of the same shape. *)
Definition masked (m a : ndarray) : ndarray :=
  NdArray (shape a) (zip_with Z.mul (data a) (data m)).

(** Number of retained (1-valued) cells of a mask. *)
Definition count_ones (m : ndarray) : nat :=
  length (filter (λ x, x = 1%Z) (data m)).

(** ** Loading *)

Section Loaded.
Context (matrix_store : string → option ndarray) (in_folder : string)
  (subjects : list string).

(** The references [refs] hold, subject by subject, the stored arrays of
    metric [m]. *)
Definition loaded (h : heap) (m : string) (refs : list loc) : Prop :=
  Forall2 (λ l a, ∃ arr, h !! l = Some arr
                         ∧ matrix_store (matrix_path in_folder a m) = Some arr)
    refs subjects.

(** The exception names a (subject, metric) pair with no stored matrix. *)
Definition missing (e : exn) (metrics : list string) : Prop :=
  ∃ a m, a ∈ subjects ∧ m ∈ metrics
         ∧ matrix_store (matrix_path in_folder a m) = None
         ∧ e = MissingMatrixError (matrix_path in_folder a m).
End Loaded.

(** ** The PCA input table *)

(** The column [creating_pca_input] makes of one metric. *)
Definition pca_column (S R C : nat) (arrs : list ndarray) : ndarray :=
  NdArray [size_of [C; R] * S; 1]
    (data (np_transpose [0; 2; 1] (NdArray [S; R; C] (concat (data <$> arrs))))).

(** The table [creating_pca_input] builds: the columns of all metrics side
    by side. *)
Definition pca_table (S R C : nat) (vals : list (list ndarray)) : ndarray :=
  NdArray [size_of [C; R] * S; length vals]
    (i ← seq 0 (size_of [C; R] * S); b ← pca_column S R C <$> vals;
     take 1 (drop (i * 1) (data b))).

(** The table of [creating_pca_input] taken as both the standardized data
    and the scores (the decomposition replaced by the identity), unpacked as
    [main] unpacks the scores. *)
Definition round_trip (d : metric_dict) (n_subjects : nat) (mat_shape : list nat)
    : py ndarray :=
  '(_, df) ← creating_pca_input d;
  x ← deref df;
  lift (unpack_components x x (length d) n_subjects mat_shape).

(** ** Significant components *)

(** Eigenvalues as the decomposition returns them: in non-increasing order. *)
Definition non_increasing (l : list Q) : Prop :=
  ∀ i j x y, i ≤ j → l !! i = Some x → l !! j = Some y → (y <= x)%Q.

(** [len(nb_pc)] *)
Definition retained (eigenvalues : list Q) : nat :=
  length (filter (λ e, Qle_bool 1 e = true) eigenvalues).

(** The matrix of component [i] and subject [s] in the unpacked scores. *)
Definition component (out : ndarray) (i s : nat) : ndarray :=
  let sz1 := size_of (drop 1 (shape out)) in
  let sz2 := size_of (drop 2 (shape out)) in
  NdArray (drop 2 (shape out))
    (take sz2 (drop (s * sz2) (take sz1 (drop (i * sz1) (data out))))).

(** ** A program logic for the store *)

(** [h] is the store [h0] with new objects appended: every object of [h0]
    is still there, unchanged. *)
Definition extends (h0 h : heap) : Prop := ∃ k, h = h0 ++ k.

(** Run from an extension of [h0] satisfying [P], the computation leaves an
    extension of [h0], whether it returns or raises, and a returned value
    satisfies [Q] in the final store. *)
Definition triple (h0 : heap) {A} (P : heap → Prop) (m : py A)
    (Q : A → heap → Prop) : Prop :=
  ∀ h, extends h0 h → P h →
    extends h0 (m h).2 ∧ ∀ a, (m h).1 = Ok a → Q a (m h).2.

Definition anyheap : heap → Prop := λ _, True.

(** ** Masked sets, symmetric matrices, stored matrices *)

(** The values of a set after masking. *)
Definition masked_values (m : ndarray) (vals : list (list ndarray)) : list (list ndarray) :=
  (λ arrs : list ndarray, masked m <$> arrs) <$> vals.

(** Entries 0 or 1 only. *)
Definition binary (m : ndarray) : Prop := Forall (λ x, x = 0%Z ∨ x = 1%Z) (data m).

(** A square matrix equal to its transpose. *)
Definition symmetric (N : nat) (a : ndarray) : Prop :=
  ∀ i j, i < N → j < N → nth (i * N + j) (data a) 0%Z = nth (j * N + i) (data a) 0%Z.

(** [vals] are the stored matrices of every metric, metric by metric, in
    subject order. *)
Definition stored (matrix_store : string → option ndarray) (in_folder : string)
    (subjects metrics : list string) (vals : list (list ndarray)) : Prop :=
  Forall2 (λ m arrs,
    Forall2 (λ a arr, matrix_store (matrix_path in_folder a m) = Some arr) subjects arrs)
    metrics vals.

(** * Concrete inputs *)

(** The running example of the specification: subjects A and B, metrics
    "fa" and "md". *)
Module Scenario.
Definition m22 (a b c d : Z) : ndarray := NdArray [2; 2] [a; b; c; d].

(* the store: fa of A, fa of B, md of A, md of B *)
Definition h0 : heap :=
  [ m22 1 0 2 3; m22 5 0 6 0; m22 1 0 0 4; m22 1 0 7 0 ]%Z.
Definition d0 : metric_dict := [ ("fa", [0; 1]); ("md", [2; 3]) ]%string.
End Scenario.

(** One subject; "md" is all zero, "fa" is not. *)
Module ZeroSubject.
Definition h : heap := [NdArray [1; 1] [1%Z]; NdArray [1; 1] [0%Z]].
Definition d : metric_dict := [("fa", [0]); ("md", [1])]%string.
End ZeroSubject.

(** One subject, two metrics whose masks retain one cell each, at different
    positions. *)
Module EqualCounts.
Definition h : heap := [NdArray [2; 2] [4; 0; 0; 0]%Z; NdArray [2; 2] [0; 7; 0; 0]%Z].
Definition d : metric_dict := [("fa", [0]); ("md", [1])]%string.
Definition vals : list (list ndarray) :=
  [[NdArray [2; 2] [4; 0; 0; 0]%Z]; [NdArray [2; 2] [0; 7; 0; 0]%Z]].
End EqualCounts.

(** Scores of two components for one subject and 1 x 1 matrices. *)
Module Eigen.
Definition out : ndarray := NdArray [2; 1; 1; 1] [10; 20]%Z.
End Eigen.

(** One subject whose two metrics are stored with shapes (2,3) and (3,2). *)
Module Mismatch.
Definition store (p : string) : option ndarray :=
  if decide (p = "in/A/Compute_Connectivity/fa.npy"%string)
  then Some (NdArray [2; 3] [1; 2; 3; 4; 5; 6]%Z)
  else if decide (p = "in/A/Compute_Connectivity/md.npy"%string)
  then Some (NdArray [3; 2] [1; 2; 3; 4; 5; 6]%Z)
  else None.
End Mismatch.

(** Two subjects, two metrics, 2 x 3 matrices. *)
Module Table.
Definition a1 : ndarray := NdArray [2; 3] [1; 2; 3; 4; 5; 6]%Z.
Definition a2 : ndarray := NdArray [2; 3] [7; 8; 9; 10; 11; 12]%Z.
Definition b1 : ndarray := NdArray [2; 3] [21; 22; 23; 24; 25; 26]%Z.
Definition b2 : ndarray := NdArray [2; 3] [27; 28; 29; 30; 31; 32]%Z.
Definition h : heap := [a1; a2; b1; b2].
Definition d : metric_dict := [("fa", [0; 1]); ("md", [2; 3])]%string.
Definition vals : list (list ndarray) := [[a1; a2]; [b1; b2]].
End Table.

(** One subject, one metric, a matrix that is not symmetric. *)
Module Asymmetric.
Definition h : heap := [NdArray [2; 2] [1; 2; 3; 4]%Z].
Definition d : metric_dict := [("fa", [0])]%string.
End Asymmetric.

(** The matrices of [Table] as stored files: subjects A and B, metrics "fa"
    and "md". *)
Module Files.
Definition store (p : string) : option ndarray :=
  if decide (p = "in/A/Compute_Connectivity/fa.npy"%string) then Some Table.a1
  else if decide (p = "in/B/Compute_Connectivity/fa.npy"%string) then Some Table.a2
  else if decide (p = "in/A/Compute_Connectivity/md.npy"%string) then Some Table.b1
  else if decide (p = "in/B/Compute_Connectivity/md.npy"%string) then Some Table.b2
  else None.
End Files.

(** Matrices of a narrow dtype: two boolean 1 x 1 matrices, and 256 one-byte
    1 x 1 matrices, every cell non-zero. *)
Module Narrow.
Definition one : ndarray := NdArray [1; 1] [1%Z].
Definition two_subjects : heap := [one; one].
Definition d2 : metric_dict := [("fa"%string, [0; 1])].
Definition many_subjects : heap := replicate 256 one.
Definition d256 : metric_dict := [("fa"%string, seq 0 256)].
End Narrow.

(** A namespace as the parser fills it for
    [in out --metrics fa md --ids ids.txt]. *)
Module Parsed.
Definition args : namespace :=
  [("in_folder", PyStr "in"); ("output", PyStr "out");
   ("metrics", PyList ["fa"; "md"]); ("ids", PyStr "ids.txt");
   ("common", PyStr "true"); ("verbose", PyBool false);
   ("overwrite", PyBool false)]%string.
End Parsed.

(** * Properties *)

(** ** Running monadic code *)

Lemma run_bind {A B} (m : py A) (f : A → py B) h :
  (m ≫= f) h = match m h with
               | (Ok a, h') => f a h'
               | (Raise e, h') => (Raise e, h')
               end.
Proof. reflexivity. Qed.

Lemma run_bind_ok {A B} (m : py A) (f : A → py B) h a h' :
  m h = (Ok a, h') → (m ≫= f) h = f a h'.
Proof. intros E. rewrite run_bind, E. reflexivity. Qed.

Lemma run_bind_raise {A B} (m : py A) (f : A → py B) h e h' :
  m h = (Raise e, h') → (m ≫= f) h = (Raise e, h').
Proof. intros E. rewrite run_bind, E. reflexivity. Qed.

Lemma run_ret {A} (a : A) h : (mret a : py A) h = (Ok a, h).
Proof. reflexivity. Qed.

Lemma run_lift {A} (r : result A) h : lift r h = (r, h).
Proof. reflexivity. Qed.

Lemma run_deref l h a : h !! l = Some a → deref l h = (Ok a, h).
Proof. intros E. unfold deref. rewrite E. reflexivity. Qed.

Lemma run_store l a h :
  l < length h → store l a h = (Ok (), <[l:=a]> h).
Proof. intros E. unfold store. rewrite decide_True by done. reflexivity. Qed.

Lemma run_mapM_deref refs arrs h :
  Forall2 (λ l a, h !! l = Some a) refs arrs →
  py_mapM deref refs h = (Ok arrs, h).
Proof.
  induction 1 as [|l a refs arrs Hl _ IH]; [reflexivity|].
  cbn [py_mapM]. rewrite (run_bind_ok _ _ _ _ _ (run_deref _ _ _ Hl)).
  rewrite (run_bind_ok _ _ _ _ _ IH). reflexivity.
Qed.

(** ** Shapes and buffers *)

Lemma size_of_cons n sh : size_of (n :: sh) = n * size_of sh.
Proof. reflexivity. Qed.

Lemma length_concat_uniform (bufs : list (list Z)) sz :
  Forall (λ b, length b = sz) bufs → length (concat bufs) = length bufs * sz.
Proof. induction 1; simpl; rewrite ?length_app; lia. Qed.

Section Chunks.
Context (pre rest : list (list Z)) (r : list Z) (sz : nat).
Hypothesis Hpre : Forall (λ b, length b = sz) pre.
Hypothesis Hr : length r = sz.

Lemma take_chunk_middle :
  take sz (drop (length pre * sz) (concat (pre ++ r :: rest))) = r.
Proof.
  rewrite concat_app, drop_app_length' by (by rewrite (length_concat_uniform _ sz)).
  simpl. by rewrite take_app_length'.
Qed.

Lemma take_concat_middle :
  take (length pre * sz) (concat (pre ++ r :: rest)) = concat pre.
Proof.
  rewrite concat_app, take_app_length' by (by rewrite (length_concat_uniform _ sz)).
  done.
Qed.

Lemma drop_concat_middle :
  drop ((length pre + 1) * sz) (concat (pre ++ r :: rest)) = concat rest.
Proof.
  replace (pre ++ r :: rest) with ((pre ++ [r]) ++ rest) by (by rewrite <- app_assoc).
  rewrite concat_app, drop_app_length'; [done|].
  rewrite (length_concat_uniform _ sz), length_app; [simpl; lia|].
  apply Forall_app; split; [exact Hpre|]. by constructor.
Qed.
End Chunks.

Lemma chunks_concat (n sz : nat) (buf : list Z) :
  length buf = n * sz →
  (i ← seq 0 n; take sz (drop (i * sz) buf)) = buf.
Proof.
  revert buf. induction n as [|n IH]; intros buf Hlen.
  - destruct buf; [done|simpl in Hlen; lia].
  - etrans; [|apply (take_drop sz buf)].
    cbn [seq]. rewrite bind_cons. f_equal.
    rewrite <- fmap_S_seq, list_fmap_bind.
    etrans; [|apply (IH (drop sz buf)); rewrite length_drop; lia].
    apply list_bind_ext; [|done]. intros i. simpl.
    by rewrite drop_drop.
Qed.

Lemma list_bind_ext_in {A B} (f g : A → list B) (l : list A) :
  (∀ x, x ∈ l → f x = g x) → l ≫= f = l ≫= g.
Proof.
  induction l as [|x l IH]; intros H; [done|].
  rewrite !bind_cons, H, IH; [done| |left]. intros y Hy. apply H. by right.
Qed.

(** ** Binary ufuncs on arrays of one shape *)

Lemma pad_shape_id sh : pad_shape (length sh) sh = sh.
Proof. unfold pad_shape. by rewrite Nat.sub_diag. Qed.

Lemma broadcast_shapes_same sh : broadcast_shapes sh sh = Ok sh.
Proof.
  induction sh as [|n sh IH]; [done|]. cbn [broadcast_shapes].
  rewrite decide_True by done. cbn. rewrite IH. done.
Qed.

Lemma broadcast_data_same sh buf :
  length buf = size_of sh → broadcast_data sh sh buf = buf.
Proof.
  revert buf. induction sh as [|n sh IH]; intros buf Hlen; [done|].
  cbn [broadcast_data]. rewrite decide_True by done.
  etrans; [|apply (chunks_concat n (size_of sh) buf Hlen)].
  apply list_bind_ext_in. intros i Hi%elem_of_seq. apply IH.
  rewrite length_take, length_drop. rewrite size_of_cons in Hlen. nia.
Qed.

Lemma np_binop_same op a b sh :
  shape a = sh → shape b = sh → wf_array a → wf_array b →
  np_binop op a b = Ok (NdArray sh (zip_with op (data a) (data b))).
Proof.
  unfold wf_array, np_binop. intros -> Hb Ha Hwb. rewrite Hb in *.
  rewrite Nat.max_id, pad_shape_id, broadcast_shapes_same. cbn.
  by rewrite !broadcast_data_same.
Qed.

(** ** The masks of [extracting_common_cnx] *)

Lemma insert_middle {A} (h h2 : list A) a b :
  <[length h:=b]> (h ++ a :: h2) = h ++ b :: h2.
Proof. rewrite insert_app_r_alt by lia. by rewrite Nat.sub_diag. Qed.

Section Stack.
Context (n : nat) (sh : list nat) (pre rest : list (list Z)) (r : list Z).
Hypothesis Hn : length pre < n.
Hypothesis Hpre : Forall (λ b, length b = size_of sh) pre.
Hypothesis Hr : length r = size_of sh.

Lemma np_getitem_stack :
  np_getitem (NdArray (n :: sh) (concat (pre ++ r :: rest))) (length pre)
  = Ok (NdArray sh r).
Proof.
  unfold np_getitem. cbn [shape data].
  rewrite decide_True by done. by rewrite take_chunk_middle.
Qed.

Lemma np_setitem_stack v :
  np_setitem (NdArray (n :: sh) (concat (pre ++ r :: rest))) (length pre) v
  = NdArray (n :: sh) (concat (pre ++ v :: rest)).
Proof.
  unfold np_setitem. cbn [shape data tl].
  rewrite take_concat_middle, drop_concat_middle by done.
  by rewrite concat_app.
Qed.
End Stack.

Lemma binarize_loop h h2 n sh (pre rest : list (list Z)) :
  n = length pre + length rest →
  Forall (λ b, length b = size_of sh) pre →
  Forall (λ b, length b = size_of sh) rest →
  for_each (seq (length pre) (length rest)) (λ i,
      a ← deref (length h); v ← lift (np_getitem a i);
      store (length h) (np_setitem a i (assign_where (λ x, bool_decide (x ≠ 0%Z)) 1%Z (data v))))
    (h ++ NdArray (n :: sh) (concat (pre ++ rest)) :: h2)
  = (Ok (), h ++ NdArray (n :: sh) (concat (pre ++ (binarize <$> rest))) :: h2).
Proof.
  intros Hn Hpre Hrest. revert pre n Hn Hpre.
  induction Hrest as [|r rest Hr Hrest IH]; intros pre n Hn Hpre; [done|].
  cbn [for_each seq length].
  rewrite run_bind.
  rewrite (run_bind_ok _ _ _ _ _ (run_deref _ _ _ (list_lookup_middle _ _ _ _ eq_refl))).
  rewrite np_getitem_stack by (done || simpl in Hn; lia).
  rewrite run_bind, run_lift. cbn [data].
  rewrite run_store by (rewrite length_app; simpl; lia).
  rewrite insert_middle.
  rewrite np_setitem_stack by (done || simpl in Hn; lia).
  fold (binarize r).
  specialize (IH (pre ++ [binarize r]) n).
  rewrite length_app in IH. cbn [length] in IH.
  replace (length pre + 1) with (S (length pre)) in IH by lia.
  rewrite <- !app_assoc in IH. cbn [app] in IH.
  rewrite IH; [done|simpl in Hn; lia|].
  apply Forall_app. split; [done|]. constructor; [|done].
  unfold binarize, assign_where. by rewrite length_fmap.
Qed.

Lemma length_binarize buf : length (binarize buf) = length buf.
Proof. unfold binarize, assign_where. by rewrite length_fmap. Qed.

Lemma sum_loop h n sh (rest : list (list Z)) :
  Forall (λ b, length b = size_of sh) rest →
  ∀ (pre : list (list Z)) os acc (orig : loc) (mask : list loc),
  n = length pre + length rest →
  Forall (λ b, length b = size_of sh) pre →
  length acc = size_of sh →
  (h ++ NdArray (n :: sh) (concat (pre ++ rest)) :: os) !! orig = Some (NdArray sh acc) →
  length h < orig →
  length mask = length pre →
  mask !! (length pre - 1) = Some orig →
  ∃ l mask' hnew,
    for_fold (seq (length pre) (length rest)) (orig, mask) (λ '(orig, mask) i,
        o ← deref orig;
        a ← deref (length h);
        v ← lift (np_getitem a i);
        s ← lift (np_add o v);
        orig' ← alloc s;
        mret (orig', mask ++ [orig']))
      (h ++ NdArray (n :: sh) (concat (pre ++ rest)) :: os)
    = (Ok (l, mask'), (h ++ NdArray (n :: sh) (concat (pre ++ rest)) :: os) ++ hnew)
    ∧ mask' !! (n - 1) = Some l
    ∧ ((h ++ NdArray (n :: sh) (concat (pre ++ rest)) :: os) ++ hnew) !! l
      = Some (NdArray sh (foldl (zip_with Z.add) acc rest))
    ∧ length h < l.
Proof.
  induction 1 as [|r rest Hr Hrest IH]; intros pre os acc orig mask Hn Hpre Hacc Horig Hlt Hmask Hlast.
  - exists orig, mask, []. rewrite !app_nil_r in *. simpl in *.
    replace (n - 1) with (length pre - 1) by lia. done.
  - set (new := NdArray sh (zip_with Z.add acc r)).
    set (H := h ++ NdArray (n :: sh) (concat (pre ++ r :: rest)) :: os).
    assert (HH : H ++ [new] = h ++ NdArray (n :: sh) (concat ((pre ++ [r]) ++ rest)) :: (os ++ [new])).
    { subst H. by rewrite <- !app_assoc. }
    destruct (IH (pre ++ [r]) (os ++ [new]) (zip_with Z.add acc r) (length H) (mask ++ [length H]))
      as (l & mask' & hnew & Hrun & Hm & Hl & Hlt').
    + rewrite length_app. simpl in *. lia.
    + apply Forall_app. split; [done|]. by constructor.
    + rewrite length_zip_with. lia.
    + rewrite <- HH. by apply list_lookup_middle.
    + subst H. rewrite length_app. simpl. lia.
    + rewrite !length_app. simpl. lia.
    + rewrite length_app. simpl. replace (length pre + 1 - 1) with (length mask) by lia.
      by apply list_lookup_middle.
    + rewrite length_app in Hrun. cbn [length] in Hrun.
      replace (length pre + 1) with (S (length pre)) in Hrun by lia.
      rewrite <- HH in Hrun, Hl.
      exists l, mask', (new :: hnew).
      replace (H ++ new :: hnew) with ((H ++ [new]) ++ hnew) by (by rewrite <- app_assoc).
      split; [|done].
      cbn [for_fold seq length]. cbv beta iota. rewrite run_bind at 1. subst H.
      rewrite (run_bind_ok _ _ _ _ _ (run_deref _ _ _ Horig)).
      rewrite (run_bind_ok _ _ _ _ _ (run_deref _ _ _ (list_lookup_middle _ _ _ _ eq_refl))).
      rewrite np_getitem_stack by (done || simpl in Hn; lia).
      rewrite run_bind, run_lift.
      unfold np_add. rewrite (np_binop_same _ _ _ sh) by done.
      rewrite run_bind, run_lift. rewrite run_bind. unfold alloc at 1.
      rewrite run_ret. exact Hrun.
Qed.

Lemma np_array_same (arrs : list ndarray) sh :
  arrs ≠ [] → Forall (λ a, shape a = sh) arrs →
  np_array arrs = Ok (NdArray (length arrs :: sh) (concat (data <$> arrs))).
Proof.
  destruct arrs as [|a arrs]; [done|]. intros _ Hall. unfold np_array.
  pose proof (Forall_inv Hall) as Ha. simpl in Ha. subst sh.
  rewrite (proj2 (forallb_forall _ _)); [done|].
  intros b Hb%list_elem_of_In. apply bool_decide_eq_true.
  by apply (proj1 (Forall_forall _ _) Hall).
Qed.

Lemma extracting_common_cnx_run d ind h k refs arrs sh :
  list_get (dict_keys d) ind = Ok k →
  dict_get d k = Ok refs →
  Forall2 (λ l a, h !! l = Some a) refs arrs →
  arrs ≠ [] →
  Forall (λ a, shape a = sh ∧ wf_array a) arrs →
  ∃ l hnew,
    extracting_common_cnx d ind h = (Ok l, h ++ hnew)
    ∧ (h ++ hnew) !! l
      = Some (NdArray sh (keep_full (length arrs)
                            (sum_buffers (binarize <$> (data <$> arrs))))).
Proof.
  intros Hk Hrefs Hheap Hne Hall.
  assert (Hsh : Forall (λ a, shape a = sh) arrs).
  { eapply Forall_impl; [exact Hall|]. simpl. intros a Ha. apply Ha. }
  assert (Hlen : Forall (λ b, length b = size_of sh) (data <$> arrs)).
  { apply Forall_fmap. eapply Forall_impl; [exact Hall|]. intros a [<- Hw]. exact Hw. }
  set (n := length arrs).
  assert (Hbin : Forall (λ b, length b = size_of sh) (binarize <$> (data <$> arrs))).
  { apply Forall_fmap. eapply Forall_impl; [exact Hlen|]. intros b Hb. simpl.
    by rewrite length_binarize. }
  destruct (binarize <$> (data <$> arrs)) as [|b0 bs] eqn:Ebins.
  { destruct arrs; [done|discriminate]. }
  assert (Hn : n = S (length bs)).
  { subst n. apply (f_equal length) in Ebins. rewrite !length_fmap in Ebins. done. }
  pose proof (Forall_inv Hbin) as Hb0. pose proof (Forall_inv_tail Hbin) as Hbs.
  set (metB := NdArray (n :: sh) (concat ([b0] ++ bs))).
  destruct (sum_loop h n sh bs Hbs [b0] [NdArray sh b0] b0 (length h + 1) [length h + 1])
    as (l & mask' & hnew & Hrun & Hm & Hl & Hlt).
  { simpl. lia. } { by constructor. } { done. }
  { rewrite lookup_app_r by lia. by replace (length h + 1 - length h) with 1 by lia. }
  { lia. } { done. } { done. }
  fold metB in Hrun, Hl.
  eexists l, _. split.
  - unfold extracting_common_cnx.
    rewrite run_bind, run_lift, Hk.
    rewrite run_bind, run_lift, Hrefs.
    rewrite (run_bind_ok _ _ _ _ _ (run_mapM_deref _ _ _ Hheap)).
    rewrite run_bind, run_lift, (np_array_same _ sh) by done.
    rewrite run_bind. unfold alloc at 1.
    rewrite (run_bind_ok _ _ _ _ _ (run_deref _ _ _ (list_lookup_middle _ _ _ _ eq_refl))).
    cbn zeta. unfold np_len. cbn [shape hd]. fold n.
    rewrite run_bind.
    pose proof (binarize_loop h [] n sh [] (data <$> arrs)) as Hloop.
    rewrite length_fmap in Hloop. fold n in Hloop. cbn [length app] in Hloop.
    rewrite Hloop by (done || by constructor). clear Hloop.
    rewrite Ebins.
    rewrite (run_bind_ok _ _ _ _ _ (run_deref _ _ _ (list_lookup_middle _ _ _ _ eq_refl))).
    pose proof (np_getitem_stack n sh [] bs b0) as Hget. cbn [length app] in Hget.
    rewrite run_bind, run_lift, Hget by (done || lia). clear Hget.
    rewrite run_bind. unfold alloc at 1.
    rewrite length_app. cbn [length].
    rewrite <- app_assoc. cbn [app].
    replace (n - 1) with (length bs) by lia.
    cbn [length] in Hrun. rewrite run_bind.
    change (concat (b0 :: bs)) with (concat ([b0] ++ bs)). fold metB.
    lazymatch goal with
    | |- context [for_fold ?a ?b ?c ?d] =>
        let E := fresh in
        assert (E : for_fold a b c d = (Ok (l, mask'), (h ++ [metB; NdArray sh b0]) ++ hnew))
          by exact Hrun;
        rewrite E; clear E
    end.
    rewrite run_bind, run_lift. unfold list_get.
    replace (length bs) with (n - 1) by lia. rewrite Hm.
    rewrite (run_bind_ok _ _ _ _ _ (run_deref _ _ _ Hl)).
    cbn [shape data].
    assert (Hll : l < length ((h ++ metB :: [NdArray sh b0]) ++ hnew)).
    { apply lookup_lt_is_Some. by eexists. }
    rewrite (run_bind_ok _ _ _ _ _ (run_store _ _ _ Hll)).
    rewrite (run_bind_ok _ _ _ _ _ (run_deref _ _ _ (list_lookup_insert_eq _ _ _ Hll))).
    cbn [shape data].
    rewrite run_bind, run_store by (by rewrite length_insert).
    rewrite list_insert_insert_eq. rewrite run_ret.
    rewrite <- app_assoc. rewrite insert_app_r_alt by lia. reflexivity.
  - rewrite <- insert_app_r_alt by lia. rewrite list_lookup_insert_eq.
    + reflexivity.
    + rewrite app_assoc. apply lookup_lt_is_Some. by eexists.
Qed.

Lemma lookup_nth_Z (b : list Z) j : j < length b → b !! j = Some (nth j b 0%Z).
Proof.
  intros Hj. destruct (lookup_lt_is_Some_2 b j Hj) as [x Hx].
  rewrite Hx. f_equal. symmetry. by apply nth_lookup_Some.
Qed.

Lemma length_foldl_zip_add (bs : list (list Z)) acc sz :
  Forall (λ b, length b = sz) bs → length acc = sz →
  length (foldl (zip_with Z.add) acc bs) = sz.
Proof.
  intros Hbs. revert acc. induction Hbs as [|b bs Hb _ IH]; intros acc Hacc; [done|].
  simpl. apply IH. rewrite length_zip_with. lia.
Qed.

Lemma lookup_foldl_zip_add (bs : list (list Z)) acc sz j :
  Forall (λ b, length b = sz) bs → length acc = sz → j < sz →
  foldl (zip_with Z.add) acc bs !! j = Some (nth j acc 0 + zsum (column j bs))%Z.
Proof.
  intros Hbs. revert acc. induction Hbs as [|b bs Hb _ IH]; intros acc Hacc Hj.
  - simpl. rewrite Z.add_0_r. apply lookup_nth_Z. lia.
  - simpl. rewrite IH by (rewrite ?length_zip_with; lia). f_equal.
    assert (Hz : zip_with Z.add acc b !! j = Some (nth j acc 0 + nth j b 0)%Z).
    { rewrite lookup_zip_with, !lookup_nth_Z by lia. done. }
    rewrite (nth_lookup_Some _ _ _ _ Hz). lia.
Qed.

Lemma length_spec_sum (bs : list (list Z)) sz :
  Forall (λ b, length b = sz) bs → length (spec_sum sz bs) = sz.
Proof.
  induction 1 as [|b bs Hb _ IH]; simpl; [by rewrite length_replicate|].
  fold (spec_sum sz bs). rewrite length_zip_with. lia.
Qed.

Lemma lookup_spec_sum (bs : list (list Z)) sz j :
  Forall (λ b, length b = sz) bs → j < sz →
  spec_sum sz bs !! j = Some (zsum (column j bs)).
Proof.
  intros Hbs Hj. induction Hbs as [|b bs Hb Hbs IH]; simpl.
  - by rewrite lookup_replicate_2.
  - fold (spec_sum sz bs). rewrite lookup_zip_with, IH, lookup_nth_Z by lia. done.
Qed.

Lemma sum_buffers_spec_sum (bs : list (list Z)) sz :
  bs ≠ [] → Forall (λ b, length b = sz) bs → sum_buffers bs = spec_sum sz bs.
Proof.
  intros Hne Hbs. destruct bs as [|b bs]; [done|]. clear Hne.
  pose proof (Forall_inv Hbs) as Hb. pose proof (Forall_inv_tail Hbs) as Hbs'.
  simpl in Hb.
  apply list_eq. intros j. destruct (decide (j < sz)) as [Hj|Hj].
  - unfold sum_buffers. rewrite (lookup_foldl_zip_add _ _ sz), (lookup_spec_sum _ sz) by done.
    done.
  - rewrite !lookup_ge_None_2; [done| |].
    + rewrite length_spec_sum by done. lia.
    + unfold sum_buffers. rewrite (length_foldl_zip_add _ _ sz) by done. lia.
Qed.

Lemma binarize_spec buf : binarize buf = spec_binarize buf.
Proof.
  unfold binarize, assign_where, spec_binarize. apply list_fmap_ext.
  intros _ x _. repeat case_bool_decide; congruence.
Qed.

Lemma keep_full_spec n buf : 0 < n → keep_full n buf = spec_retain n buf.
Proof.
  intros Hn. unfold keep_full, assign_where, spec_retain.
  rewrite <- list_fmap_compose. apply list_fmap_ext. intros _ x _. simpl.
  repeat case_bool_decide; try congruence; lia.
Qed.

(** A column of 0/1 entries sums to the subject count exactly when none of
    the original entries is zero. *)
Lemma zsum_binarized_bounds (l : list Z) :
  (0 ≤ zsum (spec_binarize l) ≤ Z.of_nat (length l))%Z.
Proof.
  induction l as [|x l IH]; simpl; [lia|]. fold (zsum (spec_binarize l)).
  case_bool_decide; lia.
Qed.

Lemma zsum_binarized_full (l : list Z) :
  zsum (spec_binarize l) = Z.of_nat (length l) ↔ Forall (λ x, x ≠ 0%Z) l.
Proof.
  induction l as [|x l IH]; simpl; [by split|]. fold (zsum (spec_binarize l)).
  pose proof (zsum_binarized_bounds l) as Hb.
  rewrite Forall_cons, <- IH. case_bool_decide; split; try lia; by intros [? ?].
Qed.

Lemma column_binarize j (bufs : list (list Z)) :
  column j (spec_binarize <$> bufs) = spec_binarize (column j bufs).
Proof.
  unfold column, spec_binarize. rewrite <- !list_fmap_compose.
  apply list_fmap_ext. intros _ b _. simpl.
  destruct (decide (j < length b)) as [Hj|Hj].
  - apply nth_lookup_Some with (d := 0%Z).
    rewrite list_lookup_fmap, (lookup_nth_Z b j Hj). done.
  - rewrite !nth_overflow by (rewrite ?length_fmap; lia). done.
Qed.

Lemma lookup_spec_common_mask sh (arrs : list ndarray) j :
  Forall (λ a, shape a = sh ∧ wf_array a) arrs → j < size_of sh →
  data (spec_common_mask sh arrs) !! j
  = Some (if decide (Forall (λ a, nth j (data a) 0%Z ≠ 0%Z) arrs) then 1%Z else 0%Z).
Proof.
  intros Hall Hj. unfold spec_common_mask, spec_retain. cbn [data].
  rewrite list_lookup_fmap, (lookup_spec_sum _ (size_of sh)); [| |done].
  - cbn. f_equal. rewrite column_binarize.
    pose proof (zsum_binarized_full (column j (data <$> arrs))) as Hfull.
    unfold column in Hfull at 2. rewrite !length_fmap in Hfull.
    unfold column in Hfull at 2. rewrite <- list_fmap_compose, Forall_fmap in Hfull.
    case_bool_decide; case_decide; try done; tauto.
  - rewrite <- list_fmap_compose. apply Forall_fmap.
    eapply Forall_impl; [exact Hall|]. intros a [<- Hw]. simpl.
    unfold spec_binarize. by rewrite length_fmap.
Qed.

Lemma dict_get_lookup {V} (d : pydict V) i k v :
  NoDup (dict_keys d) → d !! i = Some (k, v) →
  list_get (dict_keys d) i = Ok k ∧ dict_get d k = Ok v.
Proof.
  unfold pydict in *. intros Hnd Hi. split.
  - unfold list_get, dict_keys. by rewrite list_lookup_fmap, Hi.
  - revert i Hnd Hi. induction d as [|[k' v'] d IH]; intros i Hnd Hi; [done|].
    simpl. destruct i as [|i]; simpl in Hi.
    + injection Hi as -> ->. by rewrite decide_True.
    + apply NoDup_cons in Hnd as [Hk' Hnd].
      rewrite decide_False; [by eapply IH|].
      intros ->. apply Hk'. unfold dict_keys.
      apply list_elem_of_fmap. exists (k, v). split; [done|].
      by eapply list_elem_of_lookup_2.
Qed.

(** On a valid reference metric the returned mask is the one the
    specification describes, and it is a new object of the store. *)
Lemma extracting_common_cnx_spec d ind h k refs arrs sh :
  NoDup (dict_keys d) → d !! ind = Some (k, refs) →
  holds h refs arrs → arrs ≠ [] → same_shape sh arrs →
  ∃ l hnew,
    extracting_common_cnx d ind h = (Ok l, h ++ hnew)
    ∧ (h ++ hnew) !! l = Some (spec_common_mask sh arrs).
Proof.
  intros Hnd Hd Hh Hne Hall.
  destruct (dict_get_lookup d ind k refs Hnd Hd) as [Hk Hrefs].
  destruct (extracting_common_cnx_run d ind h k refs arrs sh Hk Hrefs Hh Hne Hall)
    as (l & hnew & Hrun & Hl).
  exists l, hnew. split; [done|]. rewrite Hl. f_equal.
  unfold spec_common_mask. f_equal.
  rewrite keep_full_spec by (destruct arrs; [done|simpl; lia]).
  f_equal. erewrite (list_fmap_ext binarize spec_binarize);
    [|intros; apply binarize_spec].
  apply sum_buffers_spec_sum.
  - destruct arrs; [done|discriminate].
  - rewrite <- list_fmap_compose. apply Forall_fmap.
    eapply Forall_impl; [exact Hall|]. intros a [<- Hw]. simpl.
    unfold spec_binarize. by rewrite length_fmap.
Qed.

(** C8 (as amended). When the reference metric itself has a subject whose
    array is all zero, the mask of that metric is all zero. *)
Theorem extracting_common_cnx_zero_subject d ind h k refs arrs sh z :
  NoDup (dict_keys d) → d !! ind = Some (k, refs) →
  holds h refs arrs → same_shape sh arrs →
  z ∈ arrs → Forall (λ x, x = 0%Z) (data z) →
  ∃ l hnew,
    extracting_common_cnx d ind h = (Ok l, h ++ hnew)
    ∧ (h ++ hnew) !! l = Some (NdArray sh (replicate (size_of sh) 0%Z)).
Proof.
  intros Hnd Hd Hh Hall Hz Hzero.
  assert (Hne : arrs ≠ []) by (intros ->; by apply not_elem_of_nil in Hz).
  destruct (extracting_common_cnx_spec d ind h k refs arrs sh Hnd Hd Hh Hne Hall)
    as (l & hnew & Hrun & Hl).
  exists l, hnew. split; [done|]. rewrite Hl. f_equal.
  unfold spec_common_mask at 1. f_equal.
  apply list_eq. intros j. destruct (decide (j < size_of sh)) as [Hj|Hj].
  - pose proof (lookup_spec_common_mask sh arrs j Hall Hj) as Hm.
    unfold spec_common_mask in Hm. cbn [data] in Hm. rewrite Hm.
    rewrite lookup_replicate_2 by done. f_equal.
    rewrite decide_False; [done|]. intros Hnz.
    apply (proj1 (Forall_forall _ _) Hnz) in Hz. apply Hz.
    destruct (decide (j < length (data z))) as [Hjz|Hjz].
    + apply (proj1 (Forall_forall _ _) Hzero). apply list_elem_of_In, nth_In. done.
    + apply nth_overflow. lia.
  - rewrite !lookup_ge_None_2; [done|by rewrite length_replicate; lia|].
    unfold spec_retain. rewrite length_fmap, length_spec_sum; [lia|].
    rewrite <- list_fmap_compose. apply Forall_fmap.
    eapply Forall_impl; [exact Hall|]. intros a [<- Hw]. simpl.
    unfold spec_binarize. by rewrite length_fmap.
Qed.

Lemma extracting_common_cnx_zero_subject_witness :
  ∃ l hnew,
    extracting_common_cnx ZeroSubject.d 1 ZeroSubject.h = (Ok l, ZeroSubject.h ++ hnew)
    ∧ (ZeroSubject.h ++ hnew) !! l = Some (NdArray [1; 1] (replicate (size_of [1; 1]) 0%Z)).
Proof.
  apply (extracting_common_cnx_zero_subject ZeroSubject.d 1 ZeroSubject.h "md" [1]
           [NdArray [1; 1] [0%Z]] [1; 1] (NdArray [1; 1] [0%Z])).
  - apply (bool_decide_unpack _). vm_compute. exact I.
  - reflexivity.
  - repeat constructor.
  - repeat constructor.
  - apply list_elem_of_here.
  - repeat constructor.
Defined.

(** C8 as stated fails: "md" is all zero for the only subject, yet the mask
    extracted from "fa" keeps its cell. *)
Lemma zero_metric_other_mask_counterexample :
  (∃ k refs z, ZeroSubject.d !! 1 = Some (k, refs) ∧ holds ZeroSubject.h refs [z]
               ∧ Forall (λ x, x = 0%Z) (data z))
  ∧ ∃ l h', extracting_common_cnx ZeroSubject.d 0 ZeroSubject.h = (Ok l, h')
            ∧ h' !! l = Some (NdArray [1; 1] [1%Z])
            ∧ NdArray [1; 1] [1%Z] ≠ NdArray [1; 1] (replicate (size_of [1; 1]) 0%Z).
Proof.
  split.
  - exists "md"%string, [1], (NdArray [1; 1] [0%Z]). repeat constructor.
  - eexists _, _. split; [vm_compute; reflexivity|]. split; [reflexivity|discriminate].
Qed.

(** ** The masks on a given dtype *)

Lemma weak_counts_to dt n : counts_to dt n → weak dt (Z.of_nat n) = Z.of_nat n.
Proof. intros H. destruct dt; try done. apply (H (Z.of_nat n)). lia. Qed.

Lemma counts_to_uint bits n : (Z.of_nat n < 2 ^ Z.of_nat bits)%Z → counts_to (np_uint bits) n.
Proof. intros Hn k Hk. cbn [cast]. apply Z.mod_small. lia. Qed.

Lemma counts_to_float64 n : (Z.of_nat n ≤ 2 ^ 53)%Z → counts_to np_float64 n.
Proof.
  intros Hn k Hk. cbn [cast]. unfold round_float64.
  rewrite decide_True; [done|]. rewrite Z.abs_eq; lia.
Qed.

Lemma binarize_binary buf : Forall (λ y, y = 0%Z ∨ y = 1%Z) (binarize buf).
Proof.
  unfold binarize, assign_where. apply Forall_fmap, Forall_forall. intros x _. simpl.
  case_bool_decide; [by right|by left].
Qed.

Lemma zip_with_cast dt n (m : nat) (acc r : list Z) :
  counts_to dt n → m + 1 ≤ n →
  Forall (λ x, 0 ≤ x ≤ Z.of_nat m)%Z acc →
  Forall (λ y, y = 0%Z ∨ y = 1%Z) r →
  zip_with (λ x y, cast dt (x + y)%Z) acc r = zip_with Z.add acc r
  ∧ Forall (λ x, 0 ≤ x ≤ Z.of_nat (m + 1))%Z (zip_with Z.add acc r).
Proof.
  intros Hdt Hm Hacc. revert r. induction Hacc as [|x acc Hx _ IH]; intros r Hr; [done|].
  destruct Hr as [|y r Hy Hr]; [done|]. cbn [zip_with].
  destruct (IH r Hr) as [-> Hb]. split.
  - f_equal. apply Hdt. lia.
  - constructor; [lia|done].
Qed.

Lemma sum_loop_as dt h n sh (rest : list (list Z)) :
  counts_to dt n →
  Forall (λ b, length b = size_of sh) rest →
  Forall (Forall (λ y, y = 0%Z ∨ y = 1%Z)) rest →
  ∀ (pre : list (list Z)) os acc (orig : loc) (mask : list loc),
  n = length pre + length rest →
  Forall (λ b, length b = size_of sh) pre →
  length acc = size_of sh →
  Forall (λ x, 0 ≤ x ≤ Z.of_nat (length pre))%Z acc →
  (h ++ NdArray (n :: sh) (concat (pre ++ rest)) :: os) !! orig = Some (NdArray sh acc) →
  length h < orig →
  length mask = length pre →
  mask !! (length pre - 1) = Some orig →
  ∃ l mask' hnew,
    for_fold (seq (length pre) (length rest)) (orig, mask) (λ '(orig, mask) i,
        o ← deref orig;
        a ← deref (length h);
        v ← lift (np_getitem a i);
        s ← lift (np_add_as dt o v);
        orig' ← alloc s;
        mret (orig', mask ++ [orig']))
      (h ++ NdArray (n :: sh) (concat (pre ++ rest)) :: os)
    = (Ok (l, mask'), (h ++ NdArray (n :: sh) (concat (pre ++ rest)) :: os) ++ hnew)
    ∧ mask' !! (n - 1) = Some l
    ∧ ((h ++ NdArray (n :: sh) (concat (pre ++ rest)) :: os) ++ hnew) !! l
      = Some (NdArray sh (foldl (zip_with Z.add) acc rest))
    ∧ length h < l.
Proof.
  intros Hdt Hlen Hbin. revert Hbin.
  induction Hlen as [|r rest Hr Hrest IH];
    intros Hbin pre os acc orig mask Hn Hpre Hacc Hbound Horig Hlt Hmask Hlast.
  - exists orig, mask, []. rewrite !app_nil_r in *. simpl in *.
    replace (n - 1) with (length pre - 1) by lia. done.
  - apply Forall_cons in Hbin as [Hrbin Hbin].
    destruct (zip_with_cast dt n (length pre) acc r Hdt) as [Hcast Hbound'];
      [simpl in Hn; lia|done|done|].
    set (new := NdArray sh (zip_with Z.add acc r)).
    set (H := h ++ NdArray (n :: sh) (concat (pre ++ r :: rest)) :: os).
    assert (HH : H ++ [new] = h ++ NdArray (n :: sh) (concat ((pre ++ [r]) ++ rest)) :: (os ++ [new])).
    { subst H. by rewrite <- !app_assoc. }
    destruct (IH Hbin (pre ++ [r]) (os ++ [new]) (zip_with Z.add acc r) (length H)
                (mask ++ [length H]))
      as (l & mask' & hnew & Hrun & Hm & Hl & Hlt').
    + rewrite length_app. simpl in *. lia.
    + apply Forall_app. split; [done|]. by constructor.
    + rewrite length_zip_with. lia.
    + rewrite length_app. exact Hbound'.
    + rewrite <- HH. by apply list_lookup_middle.
    + subst H. rewrite length_app. simpl. lia.
    + rewrite !length_app. simpl. lia.
    + rewrite length_app. simpl. replace (length pre + 1 - 1) with (length mask) by lia.
      by apply list_lookup_middle.
    + rewrite length_app in Hrun. cbn [length] in Hrun.
      replace (length pre + 1) with (S (length pre)) in Hrun by lia.
      rewrite <- HH in Hrun, Hl.
      exists l, mask', (new :: hnew).
      replace (H ++ new :: hnew) with ((H ++ [new]) ++ hnew) by (by rewrite <- app_assoc).
      split; [|done].
      cbn [for_fold seq length]. cbv beta iota. rewrite run_bind at 1. subst H.
      rewrite (run_bind_ok _ _ _ _ _ (run_deref _ _ _ Horig)).
      rewrite (run_bind_ok _ _ _ _ _ (run_deref _ _ _ (list_lookup_middle _ _ _ _ eq_refl))).
      rewrite np_getitem_stack by (done || simpl in Hn; lia).
      rewrite run_bind, run_lift.
      unfold np_add_as. rewrite (np_binop_same _ _ _ sh) by done.
      cbn [data]. rewrite Hcast.
      rewrite run_bind, run_lift. rewrite run_bind. unfold alloc at 1.
      rewrite run_ret. exact Hrun.
Qed.

Lemma extracting_common_cnx_as_run dt d ind h k refs arrs sh :
  counts_to dt (length arrs) →
  list_get (dict_keys d) ind = Ok k →
  dict_get d k = Ok refs →
  Forall2 (λ l a, h !! l = Some a) refs arrs →
  arrs ≠ [] →
  Forall (λ a, shape a = sh ∧ wf_array a) arrs →
  ∃ l hnew,
    extracting_common_cnx_as dt d ind h = (Ok l, h ++ hnew)
    ∧ (h ++ hnew) !! l
      = Some (NdArray sh (keep_full (length arrs)
                            (sum_buffers (binarize <$> (data <$> arrs))))).
Proof.
  intros Hdt Hk Hrefs Hheap Hne Hall.
  assert (Hsh : Forall (λ a, shape a = sh) arrs).
  { eapply Forall_impl; [exact Hall|]. simpl. intros a Ha. apply Ha. }
  assert (Hlen : Forall (λ b, length b = size_of sh) (data <$> arrs)).
  { apply Forall_fmap. eapply Forall_impl; [exact Hall|]. intros a [<- Hw]. exact Hw. }
  set (n := length arrs) in *.
  assert (Hbin : Forall (λ b, length b = size_of sh) (binarize <$> (data <$> arrs))).
  { apply Forall_fmap. eapply Forall_impl; [exact Hlen|]. intros b Hb. simpl.
    by rewrite length_binarize. }
  assert (Hbits : Forall (Forall (λ y, y = 0%Z ∨ y = 1%Z)) (binarize <$> (data <$> arrs))).
  { apply Forall_fmap, Forall_forall. intros b _. apply binarize_binary. }
  destruct (binarize <$> (data <$> arrs)) as [|b0 bs] eqn:Ebins.
  { destruct arrs; [done|discriminate]. }
  assert (Hn : n = S (length bs)).
  { subst n. apply (f_equal length) in Ebins. rewrite !length_fmap in Ebins. done. }
  pose proof (Forall_inv Hbin) as Hb0. pose proof (Forall_inv_tail Hbin) as Hbs.
  pose proof (Forall_inv Hbits) as Hb0bits. pose proof (Forall_inv_tail Hbits) as Hbsbits.
  set (metB := NdArray (n :: sh) (concat ([b0] ++ bs))).
  destruct (sum_loop_as dt h n sh bs Hdt Hbs Hbsbits [b0] [NdArray sh b0] b0 (length h + 1)
              [length h + 1])
    as (l & mask' & hnew & Hrun & Hm & Hl & Hlt).
  { simpl. lia. } { by constructor. } { done. }
  { eapply Forall_impl; [exact Hb0bits|]. intros x [-> | ->]; simpl; lia. }
  { rewrite lookup_app_r by lia. by replace (length h + 1 - length h) with 1 by lia. }
  { lia. } { done. } { done. }
  fold metB in Hrun, Hl.
  eexists l, _. split.
  - unfold extracting_common_cnx_as.
    rewrite run_bind, run_lift, Hk.
    rewrite run_bind, run_lift, Hrefs.
    rewrite (run_bind_ok _ _ _ _ _ (run_mapM_deref _ _ _ Hheap)).
    rewrite run_bind, run_lift, (np_array_same _ sh) by done.
    rewrite run_bind. unfold alloc at 1.
    rewrite (run_bind_ok _ _ _ _ _ (run_deref _ _ _ (list_lookup_middle _ _ _ _ eq_refl))).
    cbn zeta. unfold np_len. cbn [shape hd]. fold n.
    rewrite (weak_counts_to dt n Hdt).
    rewrite run_bind.
    pose proof (binarize_loop h [] n sh [] (data <$> arrs)) as Hloop.
    rewrite length_fmap in Hloop. fold n in Hloop. cbn [length app] in Hloop.
    rewrite Hloop by (done || by constructor). clear Hloop.
    rewrite Ebins.
    rewrite (run_bind_ok _ _ _ _ _ (run_deref _ _ _ (list_lookup_middle _ _ _ _ eq_refl))).
    pose proof (np_getitem_stack n sh [] bs b0) as Hget. cbn [length app] in Hget.
    rewrite run_bind, run_lift, Hget by (done || lia). clear Hget.
    rewrite run_bind. unfold alloc at 1.
    rewrite length_app. cbn [length].
    rewrite <- app_assoc. cbn [app].
    replace (n - 1) with (length bs) by lia.
    cbn [length] in Hrun. rewrite run_bind.
    change (concat (b0 :: bs)) with (concat ([b0] ++ bs)). fold metB.
    lazymatch goal with
    | |- context [for_fold ?a ?b ?c ?d] =>
        let E := fresh in
        assert (E : for_fold a b c d = (Ok (l, mask'), (h ++ [metB; NdArray sh b0]) ++ hnew))
          by exact Hrun;
        rewrite E; clear E
    end.
    rewrite run_bind, run_lift. unfold list_get.
    replace (length bs) with (n - 1) by lia. rewrite Hm.
    rewrite (run_bind_ok _ _ _ _ _ (run_deref _ _ _ Hl)).
    cbn [shape data].
    assert (Hll : l < length ((h ++ metB :: [NdArray sh b0]) ++ hnew)).
    { apply lookup_lt_is_Some. by eexists. }
    rewrite (run_bind_ok _ _ _ _ _ (run_store _ _ _ Hll)).
    rewrite (run_bind_ok _ _ _ _ _ (run_deref _ _ _ (list_lookup_insert_eq _ _ _ Hll))).
    cbn [shape data].
    rewrite run_bind, run_store by (by rewrite length_insert).
    rewrite list_insert_insert_eq. rewrite run_ret.
    rewrite <- app_assoc. rewrite insert_app_r_alt by lia. reflexivity.
  - rewrite <- insert_app_r_alt by lia. rewrite list_lookup_insert_eq.
    + reflexivity.
    + rewrite app_assoc. apply lookup_lt_is_Some. by eexists.
Qed.

Lemma extracting_common_cnx_as_spec dt d ind h k refs arrs sh :
  counts_to dt (length arrs) →
  NoDup (dict_keys d) → d !! ind = Some (k, refs) →
  holds h refs arrs → arrs ≠ [] → same_shape sh arrs →
  ∃ l hnew,
    extracting_common_cnx_as dt d ind h = (Ok l, h ++ hnew)
    ∧ (h ++ hnew) !! l = Some (spec_common_mask sh arrs).
Proof.
  intros Hdt Hnd Hd Hh Hne Hall.
  destruct (dict_get_lookup d ind k refs Hnd Hd) as [Hk Hrefs].
  destruct (extracting_common_cnx_as_run dt d ind h k refs arrs sh Hdt Hk Hrefs Hh Hne Hall)
    as (l & hnew & Hrun & Hl).
  exists l, hnew. split; [done|]. rewrite Hl. f_equal.
  unfold spec_common_mask. f_equal.
  rewrite keep_full_spec by (destruct arrs; [done|simpl; lia]).
  f_equal. erewrite (list_fmap_ext binarize spec_binarize);
    [|intros; apply binarize_spec].
  apply sum_buffers_spec_sum.
  - destruct arrs; [done|discriminate].
  - rewrite <- list_fmap_compose. apply Forall_fmap.
    eapply Forall_impl; [exact Hall|]. intros a [<- Hw]. simpl.
    unfold spec_binarize. by rewrite length_fmap.
Qed.

(** C2 fails on the code for matrices of a narrow dtype: the running sum
    keeps the dtype of the matrices, so it never reaches the subject count.
    Two boolean matrices [[True]] give the mask [[0]], and so do 256 one-byte
    matrices [[1]], although the cell is non-zero for every subject and
    binarizing, summing and keeping the cells whose sum is the subject count
    gives [[1]]. *)
Theorem extracting_common_cnx_narrow_dtype :
  (∃ l h',
     extracting_common_cnx_as np_bool Narrow.d2 0 Narrow.two_subjects = (Ok l, h')
     ∧ h' !! l = Some (NdArray [1; 1] [0%Z]))
  ∧ Forall (λ a, nth 0 (data a) 0%Z ≠ 0%Z) Narrow.two_subjects
  ∧ spec_common_mask [1; 1] Narrow.two_subjects = NdArray [1; 1] [1%Z]
  ∧ (∃ l h',
       extracting_common_cnx_as (np_uint 8) Narrow.d256 0 Narrow.many_subjects = (Ok l, h')
       ∧ h' !! l = Some (NdArray [1; 1] [0%Z]))
  ∧ Forall (λ a, nth 0 (data a) 0%Z ≠ 0%Z) Narrow.many_subjects
  ∧ spec_common_mask [1; 1] Narrow.many_subjects = NdArray [1; 1] [1%Z].
Proof.
  split; [|split; [|split; [|split; [|split]]]].
  - eexists _, _. split; [vm_compute; reflexivity|]. vm_compute. reflexivity.
  - apply (bool_decide_unpack _). vm_compute. exact I.
  - vm_compute. reflexivity.
  - eexists _, _. split; [vm_compute; reflexivity|]. vm_compute. reflexivity.
  - apply (bool_decide_unpack _). vm_compute. exact I.
  - vm_compute. reflexivity.
Qed.

(** ** A program logic for the store *)

Section Triples.
Context (h0 : heap).

Lemma triple_bind {A B} P (m : py A) Q (f : A → py B) R :
  triple h0 P m Q → (∀ a, triple h0 (Q a) (f a) R) → triple h0 P (m ≫= f) R.
Proof.
  intros Hm Hf h Hext HP. destruct (Hm h Hext HP) as [Hext' HQ].
  rewrite run_bind. destruct (m h) as [[a|e] h']; simpl in *.
  - apply Hf; [done|]. by apply HQ.
  - split; [done|]. intros a [=].
Qed.

Lemma triple_conseq {A} (P P' : heap → Prop) (m : py A) (Q Q' : A → heap → Prop) :
  (∀ h, P h → P' h) → triple h0 P' m Q' → (∀ a h, Q' a h → Q a h) →
  triple h0 P m Q.
Proof.
  intros HP Hm HQ h Hext Hh. destruct (Hm h Hext (HP h Hh)) as [Hext' Hq].
  split; [done|]. intros a Ha. by apply HQ, Hq.
Qed.

(** A fact that follows from the precondition moves to the context. *)
Lemma triple_pre {A} (Φ : Prop) P (m : py A) Q :
  (∀ h, P h → Φ) → (Φ → triple h0 P m Q) → triple h0 P m Q.
Proof. intros HΦ Hm h Hext HP. apply Hm; [by eapply HΦ|done|done]. Qed.

(** A result that does not depend on the store moves to the context. *)
Lemma triple_bind_pure {A B} P (m : py A) (φ : A → Prop) (f : A → py B) R :
  triple h0 P m (λ a _, φ a) → (∀ a, φ a → triple h0 anyheap (f a) R) →
  triple h0 P (m ≫= f) R.
Proof.
  intros Hm Hf. eapply triple_bind; [exact Hm|].
  intros a h Hext Hφ. by apply Hf.
Qed.

Lemma triple_ret {A} P (a : A) : triple h0 P (mret a) (λ a' h, a' = a ∧ P h).
Proof. intros h Hext HP. split; [done|]. by intros a' [= ->]. Qed.

Lemma triple_lift {A} P (r : result A) : triple h0 P (lift r) (λ a _, r = Ok a).
Proof. intros h Hext HP. split; [done|]. by intros a [= ->]. Qed.

Lemma triple_deref P l : triple h0 P (deref l) (λ a h, h !! l = Some a ∧ P h).
Proof.
  intros h Hext HP. unfold deref. destruct (h !! l) as [a|] eqn:E; simpl.
  - split; [done|]. by intros a' [= <-].
  - split; [done|]. intros a' [=].
Qed.

Lemma triple_deref_any P l : triple h0 P (deref l) (λ _ _, True).
Proof. eapply triple_conseq; [|apply (triple_deref P)|]; done. Qed.

Lemma triple_ret_pure {A} P (φ : A → Prop) (a : A) :
  φ a → triple h0 P (mret a) (λ a' _, φ a').
Proof.
  intros Ha. eapply triple_conseq; [|apply (triple_ret P)|]; [done|].
  by intros ? ? [-> _].
Qed.

Lemma triple_alloc P a : triple h0 P (alloc a) (λ l _, length h0 ≤ l).
Proof.
  intros h [k ->] HP. simpl. split.
  - exists (k ++ [a]). by rewrite app_assoc.
  - intros l [= <-]. rewrite length_app. lia.
Qed.

Lemma triple_store P l a :
  length h0 ≤ l → triple h0 P (store l a) (λ _ h, h !! l = Some a).
Proof.
  intros Hl h [k ->] HP. unfold store. case_decide; simpl.
  - split.
    + exists (<[l - length h0:=a]> k). by apply insert_app_r_alt.
    + intros _ _. by apply list_lookup_insert_eq.
  - split; [by exists k|]. intros ? [=].
Qed.

Lemma triple_store_any P l a :
  length h0 ≤ l → triple h0 P (store l a) (λ _ _, True).
Proof. intros Hl. eapply triple_conseq; [|apply (triple_store P l a Hl)|]; done. Qed.

Lemma triple_mapM {A B} (f : A → py B) (l : list A) :
  (∀ x, triple h0 anyheap (f x) (λ _ _, True)) →
  triple h0 anyheap (py_mapM f l) (λ _ _, True).
Proof.
  intros Hf. induction l as [|x l IH]; cbn [py_mapM].
  - by apply triple_ret_pure.
  - eapply triple_bind_pure; [apply Hf|]. intros y _.
    eapply triple_bind_pure; [apply IH|]. intros ys _.
    by apply triple_ret_pure.
Qed.

Lemma triple_for_each {A} (body : A → py unit) (l : list A) :
  (∀ x, triple h0 anyheap (body x) (λ _ _, True)) →
  triple h0 anyheap (for_each l body) (λ _ _, True).
Proof.
  intros Hb. induction l as [|x l IH]; cbn [for_each].
  - by apply triple_ret_pure.
  - eapply triple_bind_pure; [apply Hb|]. by intros _ _.
Qed.

Lemma triple_for_fold {A S} (φ : S → Prop) (body : S → A → py S) (l : list A) s :
  (∀ s x, φ s → triple h0 anyheap (body s x) (λ s' _, φ s')) →
  φ s → triple h0 anyheap (for_fold l s body) (λ s' _, φ s').
Proof.
  intros Hb. revert s. induction l as [|x l IH]; intros s Hs; cbn [for_fold].
  - by apply triple_ret_pure.
  - eapply triple_bind_pure; [by apply Hb|]. intros s' Hs'. by apply IH.
Qed.
End Triples.

(** Whatever the value, the two threshold assignments leave 0 or 1. *)
Lemma keep_full_binary n buf :
  Forall (λ x, x = 0%Z ∨ x = 1%Z)
    (assign_where (λ x, bool_decide (x = Z.of_nat n)) 1%Z
       (assign_where (λ x, bool_decide (x ≠ Z.of_nat n)) 0%Z buf)).
Proof.
  unfold assign_where. rewrite <- list_fmap_compose. apply Forall_fmap.
  apply Forall_forall. intros x _. simpl.
  repeat case_bool_decide; auto; congruence.
Qed.

Lemma extracting_common_cnx_triple h0 d ind :
  triple h0 anyheap (extracting_common_cnx d ind)
    (λ l h, ∃ m, h !! l = Some m ∧ Forall (λ x, x = 0%Z ∨ x = 1%Z) (data m)).
Proof.
  unfold extracting_common_cnx.
  eapply triple_bind_pure; [apply triple_lift|]. intros k _.
  eapply triple_bind_pure; [apply triple_lift|]. intros refs _.
  eapply triple_bind_pure; [apply triple_mapM; intros; apply triple_deref_any|].
  intros arrs _.
  eapply triple_bind_pure; [apply triple_lift|]. intros stacked _.
  eapply triple_bind_pure; [apply triple_alloc|]. intros met Hmet.
  eapply triple_bind_pure; [apply triple_deref_any|]. intros a _. cbn zeta.
  eapply triple_bind_pure.
  { apply triple_for_each. intros i.
    eapply triple_bind_pure; [apply triple_deref_any|]. intros a' _.
    eapply triple_bind_pure; [apply triple_lift|]. intros v _.
    by apply triple_store_any. }
  intros _ _.
  eapply triple_bind_pure; [apply triple_deref_any|]. intros a1 _.
  eapply triple_bind_pure; [apply triple_lift|]. intros m0 _.
  eapply triple_bind_pure; [apply triple_alloc|]. intros orig Horig.
  eapply triple_bind_pure.
  { apply (triple_for_fold h0 (λ s : loc * list loc, Forall (λ l, length h0 ≤ l) s.2)).
    - intros [o mask] i Hs. simpl in Hs.
      eapply triple_bind_pure; [apply triple_deref_any|]. intros ? _.
      eapply triple_bind_pure; [apply triple_deref_any|]. intros ? _.
      eapply triple_bind_pure; [apply triple_lift|]. intros v _.
      eapply triple_bind_pure; [apply triple_lift|]. intros s _.
      eapply triple_bind_pure; [apply triple_alloc|]. intros orig' Horig'.
      apply triple_ret_pure. simpl. apply Forall_app. split; [done|]. by constructor.
    - simpl. by constructor. }
  intros [orig' mask] Hmask. simpl in Hmask.
  eapply triple_bind_pure; [apply triple_lift|]. intros mask_f Hf.
  assert (Hhigh : length h0 ≤ mask_f).
  { unfold list_get in Hf. destruct (mask !! _) as [x|] eqn:E; [|done].
    injection Hf as ->. eapply (proj1 (Forall_forall _ _) Hmask).
    by eapply list_elem_of_lookup_2. }
  eapply triple_bind_pure; [apply triple_deref_any|]. intros f _.
  eapply triple_bind; [by apply triple_store|]. intros [].
  eapply triple_bind; [apply triple_deref|]. intros f'. cbv beta.
  apply (triple_pre h0 (f' = NdArray (shape f)
           (assign_where (λ x, bool_decide (x ≠ Z.of_nat (np_len a))) 0%Z (data f)))).
  { intros h [Hf' Hst]. pose proof (eq_trans (eq_sym Hf') Hst) as E. by injection E. }
  intros ->. cbn [shape data].
  eapply triple_bind; [apply (triple_store h0 _ mask_f _ Hhigh)|]. intros [].
  eapply triple_conseq; [intros h Hh; exact Hh|apply triple_ret|].
  intros l h [-> Hl]. eexists. split; [exact Hl|]. apply keep_full_binary.
Qed.

(** C10. [extracting_common_cnx] works on a copy: on every dictionary and
    every store, whether it returns or raises, the store afterwards is the
    store before with new objects appended, so every array of every metric
    is unchanged; and a returned mask has all its entries in {0, 1}.  On a
    non-empty list of same-shape subject arrays the call does return. *)
Theorem extracting_common_cnx_frame d ind h :
  (∃ hnew, (extracting_common_cnx d ind h).2 = h ++ hnew)
  ∧ (∀ l a, h !! l = Some a → (extracting_common_cnx d ind h).2 !! l = Some a)
  ∧ (∀ l, (extracting_common_cnx d ind h).1 = Ok l →
       ∃ mask, (extracting_common_cnx d ind h).2 !! l = Some mask
               ∧ Forall (λ x, x = 0%Z ∨ x = 1%Z) (data mask))
  ∧ (∀ k refs arrs sh,
       NoDup (dict_keys d) → d !! ind = Some (k, refs) →
       holds h refs arrs → arrs ≠ [] → same_shape sh arrs →
       ∃ l, (extracting_common_cnx d ind h).1 = Ok l).
Proof.
  destruct (extracting_common_cnx_triple h d ind h) as [[hnew Hext] Hmask].
  { exists []. by rewrite app_nil_r. } { done. }
  split; [by exists hnew|]. split; [|split].
  - intros l a Hl. rewrite Hext. by apply lookup_app_l_Some.
  - exact Hmask.
  - intros k refs arrs sh Hnd Hd Hh Hne Hall.
    destruct (extracting_common_cnx_spec d ind h k refs arrs sh Hnd Hd Hh Hne Hall)
      as (l & hn & Hrun & _).
    exists l. by rewrite Hrun.
Qed.

(** ** [apply_binary_mask] on a valid set *)

Lemma holds_extends h k refs arrs : holds h refs arrs → holds (h ++ k) refs arrs.
Proof.
  intros H. eapply Forall2_impl; [exact H|]. intros l a Hl. by apply lookup_app_l_Some.
Qed.

Lemma holds_fresh (h k : heap) (arrs : list ndarray) :
  holds (h ++ arrs ++ k) (seq (length h) (length arrs)) arrs.
Proof.
  revert h. induction arrs as [|a arrs IH]; intros h; [constructor|].
  constructor.
  - by apply list_lookup_middle.
  - specialize (IH (h ++ [a])). rewrite length_app in IH. simpl in IH.
    rewrite <- app_assoc in IH. replace (length h + 1) with (S (length h)) in IH by lia.
    exact IH.
Qed.

Section DictMiddle.
Context {V : Type} (pre post : pydict V) (a : string) (v : V).
Hypothesis Hpre : a ∉ dict_keys pre.

Lemma dict_get_middle : dict_get (pre ++ (a, v) :: post) a = Ok v.
Proof.
  induction pre as [|[k' v'] pre' IH]; simpl.
  - by rewrite decide_True.
  - unfold dict_keys in Hpre. rewrite fmap_cons in Hpre.
    apply not_elem_of_cons in Hpre as [Hne Hpre'].
    rewrite decide_False by done. by apply IH.
Qed.

Lemma dict_set_middle v' :
  dict_set (pre ++ (a, v) :: post) a v' = pre ++ (a, v') :: post.
Proof.
  induction pre as [|[k' w] pre' IH]; simpl.
  - by rewrite decide_True.
  - unfold dict_keys in Hpre. rewrite fmap_cons in Hpre.
    apply not_elem_of_cons in Hpre as [Hne Hpre'].
    rewrite decide_False by done. f_equal. by apply IH.
Qed.
End DictMiddle.

Lemma list_get_middle {A} (l1 l2 : list A) x :
  list_get (l1 ++ x :: l2) (length l1) = Ok x.
Proof. unfold list_get. by rewrite list_lookup_middle. Qed.

Lemma np_multiply_same a b sh :
  shape a = sh → shape b = sh → wf_array a → wf_array b →
  np_multiply a b = Ok (NdArray sh (zip_with Z.mul (data a) (data b))).
Proof. apply np_binop_same. Qed.

Lemma apply_mask_inner mask m sh a (pre post : metric_dict) :
  a ∉ dict_keys pre → shape m = sh → wf_array m →
  ∀ rest_refs rest_arrs (H : heap) (done_refs : list loc),
  holds H rest_refs rest_arrs →
  same_shape sh rest_arrs → H !! mask = Some m →
  for_fold (seq (length done_refs) (length rest_refs))
    (pre ++ (a, done_refs ++ rest_refs) :: post)
    (λ d i,
      l ← lift (dict_get d a);
      x ← lift (list_get l i);
      xa ← deref x;
      m ← deref mask;
      y ← lift (np_multiply xa m);
      y' ← alloc y;
      mret (dict_set d a (<[i:=y']> l))) H
  = (Ok (pre ++ (a, done_refs ++ seq (length H) (length rest_refs)) :: post),
     H ++ (masked m <$> rest_arrs)).
Proof.
  intros Ha Hm Hwm rest_refs.
  induction rest_refs as [|x rest_refs IH]; intros rest_arrs H done_refs Hholds Hshape Hmask.
  { apply Forall2_nil_inv_l in Hholds as ->. simpl. by rewrite !app_nil_r. }
  apply Forall2_cons_inv_l in Hholds as (xa & rest_arrs' & Hx & Hholds & ->).
  apply Forall_cons in Hshape as [[Hxs Hxw] Hshape].
  cbn [for_fold seq length]. rewrite run_bind.
  rewrite run_bind, run_lift, dict_get_middle by done.
  rewrite run_bind, run_lift, list_get_middle.
  rewrite (run_bind_ok _ _ _ _ _ (run_deref _ _ _ Hx)).
  rewrite (run_bind_ok _ _ _ _ _ (run_deref _ _ _ Hmask)).
  rewrite run_bind, run_lift, (np_multiply_same _ _ sh) by done.
  rewrite run_bind. unfold alloc at 1. rewrite run_ret.
  rewrite dict_set_middle by done. rewrite insert_middle.
  specialize (IH rest_arrs' (H ++ [masked m xa]) (done_refs ++ [length H])).
  rewrite length_app in IH. cbn [length] in IH.
  replace (length done_refs + 1) with (S (length done_refs)) in IH by lia.
  rewrite <- !app_assoc in IH. cbn [app] in IH.
  replace (NdArray sh (zip_with Z.mul (data xa) (data m))) with (masked m xa)
    by (unfold masked; by rewrite Hxs).
  rewrite IH.
  - rewrite length_app. cbn [length]. replace (length H + 1) with (S (length H)) by lia.
    by rewrite fmap_cons.
  - by apply holds_extends.
  - done.
  - by apply lookup_app_l_Some.
Qed.

Lemma apply_binary_mask_loop mask m sh :
  shape m = sh → wf_array m →
  ∀ (post pre : metric_dict) (vals : list (list ndarray)) (H : heap),
  NoDup (dict_keys (pre ++ post)) →
  set_values H post vals → Forall (same_shape sh) vals → H !! mask = Some m →
  ∃ post' hnew,
    for_fold (dict_keys post) (pre ++ post) (λ d a,
      l ← lift (dict_get d a);
      for_fold (seq 0 (length l)) d (λ d i,
        l ← lift (dict_get d a);
        x ← lift (list_get l i);
        xa ← deref x;
        m ← deref mask;
        y ← lift (np_multiply xa m);
        y' ← alloc y;
        mret (dict_set d a (<[i:=y']> l)))) H
    = (Ok (pre ++ post'), H ++ hnew)
    ∧ dict_keys post' = dict_keys post
    ∧ set_values (H ++ hnew) post' ((λ arrs : list ndarray, masked m <$> arrs) <$> vals).
Proof.
  intros Hm Hwm post.
  induction post as [|[a refs] post IH]; intros pre vals H Hnd Hvals Hshape Hmask.
  { apply Forall2_nil_inv_l in Hvals as ->. exists [], []. rewrite !app_nil_r.
    repeat split. constructor. }
  apply Forall2_cons_inv_l in Hvals as (arrs & vals' & Harrs & Hvals & ->).
  apply Forall_cons in Hshape as [Hsa Hshape]. simpl in Harrs.
  assert (Ha : a ∉ dict_keys pre).
  { unfold dict_keys in *. rewrite fmap_app in Hnd. apply NoDup_app in Hnd as (_ & Hd & _).
    intros Hin. apply (Hd a Hin). rewrite fmap_cons. left. }
  pose proof (apply_mask_inner mask m sh a pre post Ha Hm Hwm refs arrs H [] Harrs Hsa Hmask)
    as Hinner. cbn [length app] in Hinner.
  destruct (IH (pre ++ [(a, seq (length H) (length refs))]) vals'
              (H ++ (masked m <$> arrs))) as (post' & hnew & Hrun & Hkeys & Hset).
  { rewrite <- app_assoc. cbn [app]. unfold dict_keys in *.
    rewrite !fmap_app, !fmap_cons in *. exact Hnd. }
  { eapply Forall2_impl; [exact Hvals|]. intros e v He. by apply holds_extends. }
  { done. }
  { by apply lookup_app_l_Some. }
  rewrite <- !(app_assoc pre) in Hrun. cbn [app] in Hrun.
  exists ((a, seq (length H) (length refs)) :: post'), ((masked m <$> arrs) ++ hnew).
  split; [|split].
  - unfold dict_keys at 1. rewrite fmap_cons. cbn [for_fold fst].
    rewrite run_bind, run_bind, run_lift, dict_get_middle by done.
    rewrite Hinner. rewrite app_assoc. exact Hrun.
  - unfold dict_keys in *. rewrite !fmap_cons. by rewrite Hkeys.
  - rewrite fmap_cons. constructor.
    + simpl. pose proof (holds_fresh H hnew (masked m <$> arrs)) as Hf.
      rewrite length_fmap in Hf. rewrite (Forall2_length _ _ _ Harrs). exact Hf.
    + rewrite app_assoc. exact Hset.
Qed.

Lemma apply_binary_mask_run h d sh n vals mask m :
  valid_set h d sh n vals → h !! mask = Some m → shape m = sh → wf_array m →
  ∃ d' hnew,
    apply_binary_mask d mask h = (Ok d', h ++ hnew)
    ∧ dict_keys d' = dict_keys d
    ∧ set_values (h ++ hnew) d' ((λ arrs : list ndarray, masked m <$> arrs) <$> vals).
Proof.
  intros (Hnd & Hvals & Hall) Hmask Hm Hwm.
  destruct (apply_binary_mask_loop mask m sh Hm Hwm d [] vals h) as (d' & hnew & Hrun & H1 & H2);
    try done.
  { eapply Forall_impl; [exact Hall|]. by intros ? [_ ?]. }
  by exists d', hnew.
Qed.

(** ** The common-connection block of [main] *)



Lemma spec_common_mask_wf sh arrs :
  same_shape sh arrs → wf_array (spec_common_mask sh arrs).
Proof.
  intros Hall. unfold wf_array, spec_common_mask, spec_retain. cbn [data shape].
  rewrite length_fmap, length_spec_sum; [done|].
  rewrite <- list_fmap_compose. apply Forall_fmap.
  eapply Forall_impl; [exact Hall|]. intros a [<- Hw]. simpl.
  unfold spec_binarize. by rewrite length_fmap.
Qed.


Lemma valid_set_lookup h d sh n vals i arrs :
  valid_set h d sh n vals → vals !! i = Some arrs →
  ∃ k refs, d !! i = Some (k, refs) ∧ holds h refs arrs
            ∧ same_shape sh arrs ∧ length arrs = n.
Proof.
  intros (Hnd & Hvals & Hall) Hi.
  destruct (Forall2_lookup_r _ _ _ _ _ Hvals Hi) as ([k refs] & Hd & Hh).
  pose proof (Forall_lookup_1 _ _ _ _ Hall Hi) as [Hlen Hsh].
  by exists k, refs.
Qed.




(** ** The scenario of the specification *)

(** C1 as stated fails: the mask [main] would apply is the one of "fa",
    which keeps two cells, and the block stops with the mask-inconsistency
    error instead of masking. *)
Lemma scenario_counterexample :
  (∃ l, (extracting_common_cnx Scenario.d0 0 Scenario.h0).1 = Ok l
        ∧ (extracting_common_cnx Scenario.d0 0 Scenario.h0).2 !! l
          = Some (Scenario.m22 1 0 1 0)
        ∧ Scenario.m22 1 0 1 0 ≠ Scenario.m22 1 0 0 0)
  ∧ (common_block Scenario.d0 [2; 2] Scenario.h0).1 = Raise (ParserError mask_msg).
Proof.
  split.
  - exists 6. split; [vm_compute; reflexivity|]. split; [vm_compute; reflexivity|discriminate].
  - vm_compute. reflexivity.
Qed.

(** C1 (as amended). In the scenario the mask of "fa" is [[1,0],[1,0]] and
    the mask of "md" is [[1,0],[0,0]]; applying the mask of "md" raises no
    error and leaves only cell (0,0) non-zero in both metrics of both
    subjects; the block of [main] stops with the mask-inconsistency error,
    the two masks retaining 2 and 1 cells. *)
Theorem scenario_masks :
  (∃ l, (extracting_common_cnx Scenario.d0 0 Scenario.h0).1 = Ok l
        ∧ (extracting_common_cnx Scenario.d0 0 Scenario.h0).2 !! l
          = Some (Scenario.m22 1 0 1 0))
  ∧ (∃ l d',
        (extracting_common_cnx Scenario.d0 1 Scenario.h0).1 = Ok l
        ∧ (extracting_common_cnx Scenario.d0 1 Scenario.h0).2 !! l
          = Some (Scenario.m22 1 0 0 0)
        ∧ (apply_binary_mask Scenario.d0 l
             (extracting_common_cnx Scenario.d0 1 Scenario.h0).2).1 = Ok d'
        ∧ dict_keys d' = ["fa"; "md"]%string
        ∧ set_values
            (apply_binary_mask Scenario.d0 l
               (extracting_common_cnx Scenario.d0 1 Scenario.h0).2).2 d'
            [[Scenario.m22 1 0 0 0; Scenario.m22 5 0 0 0];
             [Scenario.m22 1 0 0 0; Scenario.m22 1 0 0 0]])
  ∧ count_ones (Scenario.m22 1 0 1 0) = 2
  ∧ count_ones (Scenario.m22 1 0 0 0) = 1
  ∧ (common_block Scenario.d0 [2; 2] Scenario.h0).1 = Raise (ParserError mask_msg).
Proof.
  split; [|split; [|split; [|split]]].
  - exists 6. split; vm_compute; reflexivity.
  - exists 6, [("fa", [7; 8]); ("md", [9; 10])]%string.
    split; [vm_compute; reflexivity|]. split; [vm_compute; reflexivity|].
    split; [vm_compute; reflexivity|]. split; [reflexivity|].
    repeat constructor.
  - vm_compute. reflexivity.
  - vm_compute. reflexivity.
  - vm_compute. reflexivity.
Qed.

(** ** [restore_zero_values] *)

Lemma zip_mul_mask_idem (new orig : list Z) :
  let mask := assign_where (λ x, bool_decide (x ≠ 0%Z)) 1%Z orig in
  zip_with Z.mul (zip_with Z.mul new mask) mask = zip_with Z.mul new mask.
Proof.
  simpl. revert orig. induction new as [|x new IH]; intros [|o orig]; try done.
  unfold assign_where in *. rewrite fmap_cons. cbn [zip_with]. f_equal; [|apply IH].
  case_bool_decide as Ho; [lia|]. subst o. by rewrite !Z.mul_0_r.
Qed.

(** C6. For arrays of one shape, restoring the zeros of [orig] a second time
    changes nothing. *)
Theorem restore_zero_values_idempotent orig new :
  shape orig = shape new → wf_array orig → wf_array new →
  ∃ r, restore_zero_values orig new = Ok r ∧ restore_zero_values orig r = Ok r.
Proof.
  intros Hsh Ho Hn. unfold restore_zero_values.
  set (mask := NdArray (shape orig) (assign_where (λ x, bool_decide (x ≠ 0%Z)) 1%Z (data orig))).
  assert (Hm : wf_array mask).
  { unfold wf_array, mask, assign_where. cbn [data shape]. by rewrite length_fmap. }
  rewrite (np_multiply_same new mask (shape orig)) by done.
  eexists. split; [reflexivity|].
  rewrite (np_multiply_same _ mask (shape orig)); try done.
  - cbn [data]. unfold mask at 1 2. cbn [data]. by rewrite zip_mul_mask_idem.
  - unfold wf_array in *. cbn [data shape]. rewrite length_zip_with.
    unfold mask, assign_where. cbn [data]. rewrite length_fmap, Hn, Ho, Hsh. lia.
Qed.

Lemma restore_zero_values_idempotent_witness :
  ∃ r, restore_zero_values (Scenario.m22 1 0 2 3) (Scenario.m22 7 8 9 0) = Ok r
       ∧ restore_zero_values (Scenario.m22 1 0 2 3) r = Ok r.
Proof.
  apply (restore_zero_values_idempotent (Scenario.m22 1 0 2 3) (Scenario.m22 7 8 9 0));
    reflexivity.
Defined.

(** ** Saving the significant components *)

Lemma non_increasing_tail e l : non_increasing (e :: l) → non_increasing l.
Proof. intros H i j x y Hij Hi Hj. apply (H (S i) (S j) x y); [lia|done|done]. Qed.

Lemma retained_sorted eig i :
  non_increasing eig →
  i < retained eig ↔ ∃ e, eig !! i = Some e ∧ (1 <= e)%Q.
Proof.
  revert i. induction eig as [|e l IH]; intros i Hs.
  { split; [unfold retained; simpl; lia|]. by intros (? & ? & _). }
  pose proof (non_increasing_tail _ _ Hs) as Hl.
  unfold retained in *. rewrite filter_cons.
  destruct (decide (Qle_bool 1 e = true)) as [He|He].
  - apply Qle_bool_iff in He. destruct i as [|i]; simpl.
    + split; [|lia]. intros _. by exists e.
    + rewrite <- IH by done. lia.
  - assert (Hnone : length (filter (λ e, Qle_bool 1 e = true) l) = 0).
    { destruct (length _) eqn:E; [done|]. exfalso.
      destruct (proj1 (IH 0 Hl)) as (y & Hy & H1y); [lia|].
      apply He, Qle_bool_iff. apply (Qle_trans _ y); [exact H1y|].
      apply (Hs 0 1 e y); [lia|done|done]. }
    rewrite Hnone. split; [lia|]. intros (y & Hy & H1y). exfalso.
    apply He, Qle_bool_iff. apply (Qle_trans _ y); [exact H1y|].
    destruct i as [|i]; simpl in Hy.
    + injection Hy as ->. apply Qle_refl.
    + apply (Hs 0 (S i) e y); [lia|done|done].
Qed.

Lemma retained_le eig : retained eig ≤ length eig.
Proof. unfold retained. apply length_filter. Qed.

Lemma rmapM_ok {A B} (f : A → result B) (g : A → B) (l : list A) :
  (∀ x, x ∈ l → f x = Ok (g x)) → rmapM f l = Ok (g <$> l).
Proof.
  induction l as [|x l IH]; intros H; [done|]. cbn [rmapM].
  rewrite H by left. cbn. rewrite IH; [done|]. intros y Hy. apply H. by right.
Qed.

Lemma np_getitem_component out i s M S R C :
  shape out = [M; S; R; C] → i < M → s < S →
  np_getitem_2 out i s = Ok (component out i s).
Proof.
  intros Hsh Hi Hs. unfold np_getitem_2.
  rewrite decide_False by (rewrite Hsh; simpl; lia).
  assert (E : np_getitem out i
              = Ok (NdArray [S; R; C] (take (size_of [S; R; C])
                                         (drop (i * size_of [S; R; C]) (data out))))).
  { unfold np_getitem. by rewrite Hsh, decide_True. }
  rewrite E. cbn [mbind result_bind rbind]. unfold np_getitem. cbn [shape data].
  rewrite decide_True by done. unfold component. rewrite Hsh. reflexivity.
Qed.

(** C7. The eigenvalues are those of the fitted decomposition
    ([pca.explained_variance_]), which come in non-increasing order; for
    every such sequence the components written are exactly those whose
    eigenvalue is at least 1, one file per such component and subject. *)
Theorem save_components_significant in_folder subjects eig out M R C :
  non_increasing eig → shape out = [M; length subjects; R; C] → length eig ≤ M →
  ∃ k, (∀ i, i < k ↔ ∃ e, eig !! i = Some e ∧ (1 <= e)%Q)
     ∧ save_components in_folder subjects eig out
       = Ok (i ← seq 0 k; s ← seq 0 (length subjects);
             [(pc_path in_folder (nth s subjects ""%string) i, component out i s)]).
Proof.
  intros Hsorted Hsh HM. exists (retained eig). split.
  { intros i. by apply retained_sorted. }
  unfold save_components. fold (retained eig).
  pose proof (retained_le eig) as Hk.
  rewrite (rmapM_ok _ (λ i, (λ s, (pc_path in_folder (nth s subjects ""%string) i,
                                     component out i s)) <$> seq 0 (length subjects))).
  - cbn. f_equal. induction (seq 0 (retained eig)) as [|i l IH]; [done|].
    rewrite fmap_cons, bind_cons. cbn [concat]. rewrite IH. f_equal.
  - intros i Hi%elem_of_seq. apply rmapM_ok. intros s Hs%elem_of_seq.
    unfold list_get. destruct (lookup_lt_is_Some_2 subjects s) as [a Ha]; [lia|].
    rewrite Ha. cbn.
    rewrite (np_getitem_component out i s M (length subjects) R C Hsh) by lia.
    cbn. by rewrite (nth_lookup_Some _ _ ""%string _ Ha).
Qed.

Lemma save_components_significant_witness :
  ∃ k, (∀ i, i < k ↔ ∃ e, [2#1; 1#2]%Q !! i = Some e ∧ (1 <= e)%Q)
     ∧ save_components "in" ["A"] [2#1; 1#2]%Q Eigen.out
       = Ok (i ← seq 0 k; s ← seq 0 (length ["A"%string]);
             [(pc_path "in" (nth s ["A"%string] ""%string) i, component Eigen.out i s)]).
Proof.
  apply (save_components_significant "in" ["A"%string] [2#1; 1#2]%Q Eigen.out 2 1 1).
  - intros [|[|i]] [|[|j]] x y Hij Hi Hj; simpl in *; try lia; try discriminate;
      injection Hi as <-; injection Hj as <-; vm_compute; discriminate.
  - reflexivity.
  - simpl. lia.
Defined.

(** ** Loading *)

Section Loading.
Context (matrix_store : string → option ndarray) (in_folder : string)
  (subjects : list string).

Lemma loaded_extends h k m refs : loaded matrix_store in_folder subjects h m refs → loaded matrix_store in_folder subjects (h ++ k) m refs.
Proof.
  intros H. eapply Forall2_impl; [exact H|]. intros l a (arr & Hl & Hs).
  exists arr. split; [by apply lookup_app_l_Some|done].
Qed.

Lemma load_subjects_outcome m (subjs : list string) (H : heap) r h' :
  py_mapM (λ a, load_matrix_in_any_format matrix_store
                  (matrix_path in_folder a m)) subjs H = (r, h') →
  ∃ hnew, h' = H ++ hnew
    ∧ match r with
      | Ok refs =>
          Forall2 (λ l a, ∃ arr, (H ++ hnew) !! l = Some arr
                     ∧ matrix_store (matrix_path in_folder a m) = Some arr) refs subjs
      | Raise e =>
          ∃ a, a ∈ subjs ∧ matrix_store (matrix_path in_folder a m) = None
               ∧ e = MissingMatrixError (matrix_path in_folder a m)
      end.
Proof.
  revert H r h'. induction subjs as [|a subjs IH]; intros H r h' Hrun.
  { injection Hrun as <- <-. exists []. rewrite app_nil_r. split; [done|]. constructor. }
  cbn [py_mapM] in Hrun. rewrite run_bind in Hrun.
  unfold load_matrix_in_any_format at 1 in Hrun.
  destruct (matrix_store (matrix_path in_folder a m)) as [arr|] eqn:Ea.
  - unfold alloc at 1 in Hrun. rewrite run_bind in Hrun.
    destruct (py_mapM _ subjs (H ++ [arr])) as [[refs|e] h1] eqn:E1;
      destruct (IH _ _ _ E1) as (hnew & -> & Hr); injection Hrun as <- <-;
      exists (arr :: hnew); rewrite <- !app_assoc in *; (split; [done|]).
    + constructor; [|done]. exists arr. split; [by apply list_lookup_middle|done].
    + destruct Hr as (a' & Ha' & Hs & ->). exists a'. split; [by right|done].
  - injection Hrun as <- <-. exists []. rewrite app_nil_r. split; [done|].
    exists a. split; [left|done].
Qed.

Lemma dict_get_set_eq {V} (d : pydict V) k v : dict_get (dict_set d k v) k = Ok v.
Proof.
  induction d as [|[k' v'] d IH]; simpl; [by rewrite decide_True|].
  case_decide; simpl; [by rewrite decide_True|]. by rewrite decide_False.
Qed.

Lemma dict_get_set_ne {V} (d : pydict V) k k' v :
  k ≠ k' → dict_get (dict_set d k v) k' = dict_get d k'.
Proof.
  intros Hne. induction d as [|[k0 v0] d IH]; simpl; [by rewrite decide_False|].
  case_decide; simpl; [subst; by rewrite !decide_False|].
  case_decide; [done|exact IH].
Qed.

Lemma load_all_outcome (metrics : list string) (d : metric_dict) (H : heap) r h' :
  for_fold metrics d (λ d m,
      l ← py_mapM (λ a, load_matrix_in_any_format matrix_store
                          (matrix_path in_folder a m)) subjects;
      mret (dict_set d m l)) H = (r, h') →
  ∃ hnew, h' = H ++ hnew
    ∧ match r with
      | Ok d' =>
          (∀ m, m ∈ metrics → ∃ refs, dict_get d' m = Ok refs ∧ loaded matrix_store in_folder subjects (H ++ hnew) m refs)
          ∧ (∀ m, m ∉ metrics → dict_get d' m = dict_get d m)
      | Raise e => missing matrix_store in_folder subjects e metrics
      end.
Proof.
  revert d H r h'. induction metrics as [|m metrics IH]; intros d H r h' Hrun.
  { injection Hrun as <- <-. exists []. rewrite app_nil_r. split; [done|]. split; [|done].
    intros m Hm. by apply not_elem_of_nil in Hm. }
  cbn [for_fold] in Hrun. rewrite !run_bind in Hrun.
  destruct (py_mapM _ subjects H) as [[refs|e] h1] eqn:E1;
    destruct (load_subjects_outcome _ _ _ _ _ E1) as (hn1 & -> & Hr1).
  - rewrite run_ret in Hrun.
    destruct (IH _ _ _ _ Hrun) as (hn2 & -> & Hr2).
    exists (hn1 ++ hn2). rewrite app_assoc. split; [done|].
    destruct r as [d'|e].
    + destruct Hr2 as [Hin Hout]. split.
      * intros m' [->|Hm']%elem_of_cons; [|by apply Hin].
        destruct (decide (m ∈ metrics)) as [Hm|Hm]; [by apply Hin|].
        exists refs. rewrite (Hout m Hm), dict_get_set_eq. split; [done|].
        by apply loaded_extends.
      * intros m' Hm'. apply not_elem_of_cons in Hm' as [Hne Hm'].
        rewrite (Hout m' Hm'). by apply dict_get_set_ne.
    + destruct Hr2 as (a & m' & Ha & Hm' & Hs & ->). exists a, m'.
      split; [done|]. split; [by right|done].
  - injection Hrun as <- <-. exists hn1. split; [done|].
    destruct Hr1 as (a & Ha & Hs & ->).
    exists a, m. split; [done|]. split; [left|done].
Qed.
End Loading.

(** C9 (as amended). [load_all] fails with the missing-matrix error exactly
    when some (subject, metric) pair has no stored matrix; otherwise it
    returns, for every metric, the stored arrays of all subjects as they are:
    no shape is compared at loading. *)
Theorem load_all_missing_only matrix_store in_folder subjects metrics h :
  let run := load_all matrix_store in_folder subjects metrics h in
  (∃ hnew, run.2 = h ++ hnew)
  ∧ ((∀ a m, a ∈ subjects → m ∈ metrics →
        is_Some (matrix_store (matrix_path in_folder a m)))
     ↔ ∃ d, run.1 = Ok d
            ∧ ∀ m, m ∈ metrics →
                ∃ refs, dict_get d m = Ok refs
                        ∧ loaded matrix_store in_folder subjects run.2 m refs)
  ∧ ((∃ a m, a ∈ subjects ∧ m ∈ metrics
             ∧ matrix_store (matrix_path in_folder a m) = None)
     ↔ ∃ e, run.1 = Raise e ∧ missing matrix_store in_folder subjects e metrics).
Proof.
  cbn zeta. unfold load_all.
  destruct (for_fold metrics _ _ h) as [[d|e] h'] eqn:Erun;
    destruct (load_all_outcome _ _ _ _ _ _ _ _ Erun) as (hnew & -> & Hr); simpl.
  - destruct Hr as [Hin _].
    assert (Hall : ∀ a m, a ∈ subjects → m ∈ metrics →
                     is_Some (matrix_store (matrix_path in_folder a m))).
    { intros a m Ha Hm. destruct (Hin m Hm) as (refs & _ & Hl).
      apply list_elem_of_lookup in Ha as [i Hi].
      destruct (Forall2_lookup_r _ _ _ _ _ Hl Hi) as (l & _ & arr & _ & Hs).
      by rewrite Hs. }
    split; [by exists hnew|]. split; split.
    + intros _. by exists d.
    + intros _. exact Hall.
    + intros (a & m & Ha & Hm & Hs). destruct (Hall a m Ha Hm) as [x Hx]. congruence.
    + intros (e & [=] & _).
  - split; [by exists hnew|]. split; split.
    + intros Hall. destruct Hr as (a & m & Ha & Hm & Hs & _).
      destruct (Hall a m Ha Hm) as [x Hx]. congruence.
    + intros (d & [=] & _).
    + intros _. by exists e.
    + intros _. destruct Hr as (a & m & Ha & Hm & Hs & _). by exists a, m.
Qed.

(** C9 as stated fails: the two metrics of subject A have shapes (2,3) and
    (3,2); loading returns them, and without the common-connection block
    [main] goes on to build the PCA input from them. *)
Lemma load_all_shape_counterexample :
  load_all Mismatch.store "in" ["A"] ["fa"; "md"] []
  = (Ok [("fa", [0]); ("md", [1])]%string,
     [NdArray [2; 3] [1; 2; 3; 4; 5; 6]%Z; NdArray [3; 2] [1; 2; 3; 4; 5; 6]%Z])
  ∧ (main_input Mismatch.store "in" ["A"] ["fa"; "md"] false []).1 = Ok ([2; 3], 4).
Proof. split; vm_compute; reflexivity. Qed.

(** ** Row-major indexing *)

Lemma lookup_bind_uniform {A B} (f : A → list B) (l : list A) k i j :
  (∀ x, x ∈ l → length (f x) = k) → j < k →
  (l ≫= f) !! (i * k + j) = l !! i ≫= λ x, f x !! j.
Proof.
  revert i. induction l as [|x l IH]; intros i Hlen Hj; [done|].
  rewrite bind_cons. destruct i as [|i]; simpl.
  - rewrite lookup_app_l; [done|]. rewrite Hlen; [done|left].
  - rewrite lookup_app_r by (rewrite Hlen; [lia|left]).
    rewrite Hlen by left. replace (k + i * k + j - k) with (i * k + j) by lia.
    apply IH; [|done]. intros y Hy. apply Hlen. by right.
Qed.

Lemma length_bind_uniform {A B} (f : A → list B) (l : list A) k :
  (∀ x, x ∈ l → length (f x) = k) → length (l ≫= f) = length l * k.
Proof.
  induction l as [|x l IH]; intros Hlen; [done|].
  rewrite bind_cons, length_app, Hlen, IH; [simpl; lia| |left].
  intros y Hy. apply Hlen. by right.
Qed.

Lemma lookup_concat_uniform (bufs : list (list Z)) sz i j :
  Forall (λ b, length b = sz) bufs → j < sz →
  concat bufs !! (i * sz + j) = bufs !! i ≫= λ b, b !! j.
Proof.
  intros Hall Hj. revert i. induction Hall as [|b bufs Hb _ IH]; intros i; [done|].
  simpl. destruct i as [|i]; simpl.
  - by rewrite lookup_app_l by lia.
  - rewrite lookup_app_r by lia. replace (sz + i * sz + j - length b) with (i * sz + j) by lia.
    apply IH.
Qed.

Lemma fmap_list_bind {A B C} (f : B → C) (g : A → list B) (l : list A) :
  f <$> (l ≫= g) = l ≫= λ x, f <$> g x.
Proof.
  induction l as [|x l IH]; [done|]. by rewrite !bind_cons, fmap_app, IH.
Qed.

(** The buffer of a stack of (R, C) matrices after moving axis 1 to the
    end: the matrix of every subject is transposed. *)
Lemma transpose_021_data S R C (buf : list Z) :
  data (np_transpose [0; 2; 1] (NdArray [S; R; C] buf))
  = s ← seq 0 S; c ← seq 0 C; r ← seq 0 R; [nth (s * (R * C) + r * C + c) buf 0%Z].
Proof.
  unfold np_transpose. cbn [data shape fmap list_fmap nth indices].
  rewrite fmap_list_bind. apply list_bind_ext; [|done]. intros s.
  rewrite <- list_fmap_compose, fmap_list_bind. apply list_bind_ext; [|done]. intros c.
  rewrite <- !list_fmap_compose, fmap_list_bind. apply list_bind_ext; [|done]. intros r.
  cbn. do 2 f_equal. lia.
Qed.

Lemma transpose_021_lookup S R C (buf : list Z) s c r :
  s < S → c < C → r < R →
  data (np_transpose [0; 2; 1] (NdArray [S; R; C] buf)) !! (s * (C * R) + (c * R + r))
  = Some (nth (s * (R * C) + r * C + c) buf 0%Z).
Proof.
  intros Hs Hc Hr. rewrite transpose_021_data.
  assert (HR : ∀ s c, length (r ← seq 0 R; [nth (s * (R * C) + r * C + c) buf 0%Z]) = R).
  { intros s' c'. rewrite (length_bind_uniform _ _ 1), length_seq by done. lia. }
  assert (HC : ∀ s, length (c ← seq 0 C; r ← seq 0 R;
                              [nth (s * (R * C) + r * C + c) buf 0%Z]) = C * R).
  { intros s'. rewrite (length_bind_uniform _ _ R), length_seq; [done|]. intros; apply HR. }
  rewrite (lookup_bind_uniform _ _ (C * R)) by (intros; apply HC || nia).
  rewrite lookup_seq_lt by done. cbn [mbind option_bind].
  rewrite (lookup_bind_uniform _ _ R) by (intros; apply HR || done).
  rewrite lookup_seq_lt by done. cbn [mbind option_bind].
  replace r with (r * 1 + 0) at 1 by lia.
  rewrite (lookup_bind_uniform _ _ 1) by (done || lia).
  rewrite lookup_seq_lt by done. reflexivity.
Qed.

Lemma length_transpose_021 S R C (buf : list Z) :
  length (data (np_transpose [0; 2; 1] (NdArray [S; R; C] buf))) = S * (C * R).
Proof.
  rewrite transpose_021_data.
  rewrite (length_bind_uniform _ _ (C * R)), length_seq; [done|]. intros s _.
  rewrite (length_bind_uniform _ _ R), length_seq; [done|]. intros c _.
  rewrite (length_bind_uniform _ _ 1), length_seq by done. lia.
Qed.

Lemma np_rollaxis_stack a S R C :
  shape a = [S; R; C] → np_rollaxis a 1 3 = Ok (np_transpose [0; 2; 1] a).
Proof. intros Hsh. unfold np_rollaxis. rewrite Hsh. reflexivity. Qed.

Lemma np_hstack_columns (cols : list ndarray) N :
  cols ≠ [] → Forall (λ b, shape b = [N; 1]) cols →
  np_hstack cols
  = Ok (NdArray [N; length cols]
          (i ← seq 0 N; b ← cols; take 1 (drop (i * 1) (data b)))).
Proof.
  intros Hne Hall. destruct cols as [|a cols]; [done|]. unfold np_hstack.
  pose proof (Forall_inv Hall) as Ha. simpl in Ha. rewrite Ha.
  rewrite (proj2 (forallb_forall _ _)).
  - f_equal. f_equal.
    + f_equal. f_equal. clear Hne Ha. induction Hall as [|b l Hb _ IH]; [done|].
      rewrite fmap_cons. cbn [sum_list length]. rewrite IH, Hb. done.
    + apply list_bind_ext; [|done]. intros i. apply Forall_bind_ext.
      eapply Forall_impl; [exact Hall|]. intros b Hb. simpl. by rewrite Hb.
  - intros b Hb%list_elem_of_In. apply bool_decide_eq_true.
    rewrite (proj1 (Forall_forall _ _) Hall b Hb). done.
Qed.

Lemma hstack_lookup (cols : list ndarray) N i j :
  Forall (λ b, shape b = [N; 1] ∧ length (data b) = N) cols →
  i < N → j < length cols →
  (i ← seq 0 N; b ← cols; take 1 (drop (i * 1) (data b))) !! (i * length cols + j)
  = cols !! j ≫= λ b, data b !! i.
Proof.
  intros Hall Hi Hj.
  assert (Hchunk : ∀ i b, i < N → b ∈ cols → length (take 1 (drop (i * 1) (data b))) = 1).
  { intros i' b Hi' Hb. apply (proj1 (Forall_forall _ _) Hall) in Hb as [_ Hb].
    rewrite length_take, length_drop. lia. }
  rewrite (lookup_bind_uniform _ _ (length cols)); [|intros i' Hi'%elem_of_seq|done].
  2:{ rewrite (length_bind_uniform _ _ 1); [lia|]. intros b Hb. apply Hchunk; [lia|done]. }
  rewrite lookup_seq_lt by done. cbn [mbind option_bind].
  replace j with (j * 1 + 0) at 1 by lia.
  rewrite (lookup_bind_uniform _ _ 1); [|intros b Hb; by apply Hchunk|lia].
  destruct (cols !! j) as [b|] eqn:Eb; [|done]. cbn.
  rewrite lookup_take_lt by lia. rewrite lookup_drop. f_equal. lia.
Qed.

(** ** [creating_pca_input] on a valid set *)

Lemma dict_set_fresh {V} (d : pydict V) k v :
  k ∉ dict_keys d → dict_set d k v = d ++ [(k, v)].
Proof.
  unfold dict_keys. induction d as [|[k' v'] d IH]; intros Hk; [done|].
  rewrite fmap_cons in Hk. apply not_elem_of_cons in Hk as [Hne Hk]. simpl.
  rewrite decide_False by done. by rewrite IH.
Qed.

Lemma load_all_keys_loop matrix_store in_folder subjects (metrics : list string)
    (d d' : metric_dict) (H h' : heap) :
  NoDup (dict_keys d ++ metrics) →
  for_fold metrics d (λ d m,
      l ← py_mapM (λ a, load_matrix_in_any_format matrix_store
                          (matrix_path in_folder a m)) subjects;
      mret (dict_set d m l)) H = (Ok d', h') →
  dict_keys d' = dict_keys d ++ metrics.
Proof.
  revert d H. induction metrics as [|m metrics IH]; intros d H Hnd Hrun.
  { injection Hrun as <- _. by rewrite app_nil_r. }
  cbn [for_fold] in Hrun. rewrite !run_bind in Hrun.
  destruct (py_mapM _ subjects H) as [[refs|e] h1]; [|discriminate].
  rewrite run_ret in Hrun.
  assert (Hm : m ∉ dict_keys d).
  { apply NoDup_app in Hnd as (_ & Hd & _). intros Hin. apply (Hd m Hin). left. }
  rewrite dict_set_fresh in Hrun by done.
  apply IH in Hrun.
  - rewrite Hrun. unfold dict_keys. rewrite fmap_app, <- app_assoc. done.
  - unfold dict_keys. rewrite fmap_app, <- app_assoc. exact Hnd.
Qed.

(** With distinct metric names, the loaded dictionary lists the metrics in
    the order of the command line. *)
Lemma load_all_keys matrix_store in_folder subjects metrics h d h' :
  NoDup metrics →
  load_all matrix_store in_folder subjects metrics h = (Ok d, h') →
  dict_keys d = metrics.
Proof. intros Hnd Hrun. by apply load_all_keys_loop in Hrun. Qed.

Lemma pca_column_run S R C (arrs : list ndarray) :
  0 < S → length arrs = S → same_shape [R; C] arrs →
  (stacked ← np_array arrs;
   mat ← np_rollaxis stacked 1 3;
   n_group ← list_get (shape mat) 0;
   np_reshape mat [size_of (take 2 (drop 1 (shape mat))) * n_group; 1])
  = Ok (pca_column S R C arrs).
Proof.
  intros HS Hlen Hall.
  rewrite (np_array_same arrs [R; C]).
  - cbn [mbind result_bind rbind]. rewrite (np_rollaxis_stack _ (length arrs) R C) by done.
    cbn [mbind result_bind rbind np_transpose shape fmap list_fmap nth list_get lookup
         list_lookup drop take].
    unfold np_reshape. rewrite decide_True by (cbn; lia).
    unfold pca_column. by rewrite Hlen.
  - intros ->. simpl in Hlen. lia.
  - eapply Forall_impl; [exact Hall|]. by intros ? [? _].
Qed.

Lemma pca_columns_loop S R C (d : metric_dict) :
  0 < S →
  ∀ (post : metric_dict) (vals : list (list ndarray)) (cols : pydict loc) (H : heap),
  (∀ k refs, (k, refs) ∈ post → dict_get d k = Ok refs) →
  (∀ a, a ∈ dict_keys post → a ∉ dict_keys cols) →
  NoDup (dict_keys post) →
  set_values H post vals →
  Forall (λ arrs, length arrs = S ∧ same_shape [R; C] arrs) vals →
  for_fold (dict_keys post) cols (λ cols a,
    refs ← lift (dict_get d a);
    arrs ← py_mapM deref refs;
    stacked ← lift (np_array arrs);
    mat ← lift (np_rollaxis stacked 1 3);
    let matrix_shape := take 2 (drop 1 (shape mat)) in
    n_group ← lift (list_get (shape mat) 0);
    mat ← lift (np_reshape mat [size_of matrix_shape * n_group; 1]);
    mat ← alloc mat;
    mret (dict_set cols a mat)) H
  = (Ok (cols ++ zip (dict_keys post) (seq (length H) (length post))),
     H ++ (pca_column S R C <$> vals)).
Proof.
  intros HS post.
  induction post as [|[a refs] post IH]; intros vals cols H Hd Hfresh Hnd Hvals Hall.
  { apply Forall2_nil_inv_l in Hvals as ->. simpl. by rewrite !app_nil_r. }
  apply Forall2_cons_inv_l in Hvals as (arrs & vals' & Harrs & Hvals & ->).
  apply Forall_cons in Hall as [[Hlen Hsh] Hall]. simpl in Harrs.
  unfold dict_keys in Hnd, Hfresh. rewrite fmap_cons in Hnd, Hfresh.
  apply NoDup_cons in Hnd as [Ha Hnd]. cbn [fst] in *.
  pose proof (pca_column_run S R C arrs HS Hlen Hsh) as Hcol.
  unfold dict_keys at 1. rewrite fmap_cons. cbn [for_fold fst].
  rewrite run_bind.
  rewrite run_bind, run_lift, (Hd a refs) by left.
  rewrite (run_bind_ok _ _ _ _ _ (run_mapM_deref _ _ _ Harrs)).
  rewrite run_bind, run_lift.
  destruct (np_array arrs) as [stacked|]; [|done]. cbn [mbind result_bind rbind] in Hcol.
  rewrite run_bind, run_lift.
  destruct (np_rollaxis stacked 1 3) as [mat|]; [|done]. cbn [mbind result_bind rbind] in Hcol.
  cbn zeta. rewrite run_bind, run_lift.
  destruct (list_get (shape mat) 0) as [n_group|]; [|done].
  cbn [mbind result_bind rbind] in Hcol.
  rewrite run_bind, run_lift, Hcol.
  rewrite run_bind. unfold alloc at 1. rewrite run_ret.
  rewrite dict_set_fresh by (apply Hfresh; left).
  rewrite IH with (vals := vals'); try done.
  - rewrite length_app. cbn [length]. rewrite <- !app_assoc. cbn.
    by replace (length H + 1) with (Datatypes.S (length H)) by lia.
  - intros k r Hk. apply Hd. by right.
  - intros k Hk. unfold dict_keys. rewrite fmap_app. cbn.
    apply not_elem_of_app. split; [apply Hfresh; by right|].
    apply not_elem_of_cons. split; [|apply not_elem_of_nil].
    intros ->. by apply Ha.
  - eapply Forall2_impl; [exact Hvals|]. intros e v He. by apply holds_extends.
Qed.

Lemma dict_keys_zip (keys : list string) (locs : list loc) :
  length keys = length locs → dict_keys (zip keys locs) = keys.
Proof. intros Hlen. unfold dict_keys. apply fst_zip. lia. Qed.

Lemma read_columns (cols : pydict loc) (keys : list string) (columns : list ndarray) H :
  Forall2 (λ k col, ∃ l, dict_get cols k = Ok l ∧ H !! l = Some col) keys columns →
  py_mapM (λ i, c ← lift (dict_get cols i); deref c) keys H = (Ok columns, H).
Proof.
  induction 1 as [|k col keys columns (l & Hk & Hl) _ IH]; [done|].
  cbn [py_mapM]. rewrite run_bind.
  rewrite run_bind, run_lift, Hk. rewrite (run_deref _ _ _ Hl).
  rewrite (run_bind_ok _ _ _ _ _ IH). reflexivity.
Qed.

Lemma fresh_columns (keys : list string) (columns K H : list ndarray) :
  NoDup keys → length keys = length columns →
  Forall2 (λ k col, ∃ l, dict_get (zip keys (seq (length H) (length keys))) k = Ok l
                         ∧ (H ++ columns ++ K) !! l = Some col) keys columns.
Proof.
  intros Hnd Hlen. apply Forall2_same_length_lookup_2; [done|].
  intros i k col Hk Hcol. exists (length H + i). split.
  - apply (dict_get_lookup _ i k (length H + i)).
    + by rewrite dict_keys_zip by (by rewrite length_seq).
    + apply lookup_zip_with_Some. exists k, (length H + i).
      split; [done|]. split; [done|]. apply lookup_seq. split; [done|].
      by eapply lookup_lt_Some.
  - rewrite lookup_app_r by lia. replace (length H + i - length H) with i by lia.
    by apply lookup_app_l_Some.
Qed.

Lemma creating_pca_input_run h d R C S vals :
  valid_set h d [R; C] S vals → 0 < S → d ≠ [] →
  ∃ cols out hnew,
    creating_pca_input d h = (Ok (cols, out), h ++ hnew)
    ∧ (h ++ hnew) !! out
      = Some (NdArray [size_of [C; R] * S; length d]
                (i ← seq 0 (size_of [C; R] * S); b ← pca_column S R C <$> vals;
                 take 1 (drop (i * 1) (data b)))).
Proof.
  intros (Hnd & Hvals & Hall) HS Hne.
  assert (Hloop := pca_columns_loop S R C d HS d vals [] h).
  cbn [app] in Hloop.
  assert (Hin : ∀ k refs, (k, refs) ∈ d → dict_get d k = Ok refs).
  { intros k refs Hk. apply list_elem_of_lookup in Hk as [i Hi].
    by destruct (dict_get_lookup d i k refs Hnd Hi). }
  specialize (Hloop Hin (λ a _, not_elem_of_nil a) Hnd Hvals Hall).
  set (columns := pca_column S R C <$> vals) in *.
  assert (Hlen : length (dict_keys d) = length columns).
  { unfold columns, dict_keys. rewrite !length_fmap. by eapply Forall2_length. }
  assert (Hlend : length d = length columns).
  { unfold dict_keys in Hlen. by rewrite length_fmap in Hlen. }
  pose proof (fresh_columns (dict_keys d) columns [] h Hnd Hlen) as Hread.
  rewrite app_nil_r in Hread.
  apply read_columns in Hread.
  unfold dict_keys in Hread at 2. rewrite length_fmap in Hread.
  eexists _, _, _. split.
  - unfold creating_pca_input.
    rewrite (run_bind_ok _ _ _ _ _ Hloop).
    rewrite (run_bind_ok _ _ _ _ _ Hread).
    rewrite run_bind, run_lift, (np_hstack_columns _ (size_of [C; R] * S)).
    + rewrite run_bind. unfold alloc at 1. rewrite run_ret. rewrite <- app_assoc. reflexivity.
    + unfold columns. destruct vals; [|done]. apply Forall2_nil_inv_r in Hvals. done.
    + unfold columns. apply Forall_fmap, Forall_forall. by intros arrs _.
  - rewrite app_assoc. rewrite list_lookup_middle by (by rewrite length_app).
    by rewrite Hlend.
Qed.

Lemma pca_column_shape S R C arrs :
  shape (pca_column S R C arrs) = [size_of [C; R] * S; 1]
  ∧ length (data (pca_column S R C arrs)) = size_of [C; R] * S.
Proof.
  split; [done|]. unfold pca_column. cbn [data].
  rewrite length_transpose_021. cbn. lia.
Qed.

Lemma pca_column_lookup S R C arrs s r c :
  length arrs = S → same_shape [R; C] arrs → s < S → r < R → c < C →
  data (pca_column S R C arrs) !! (s * (C * R) + c * R + r)
  = arrs !! s ≫= λ a, data a !! (r * C + c).
Proof.
  intros Hlen Hall Hs Hr Hc. unfold pca_column. cbn [data].
  rewrite <- Nat.add_assoc, transpose_021_lookup by done.
  assert (Hu : Forall (λ b, length b = R * C) (data <$> arrs)).
  { apply Forall_fmap. eapply Forall_impl; [exact Hall|]. intros a [Ha Hw]. simpl.
    unfold wf_array in Hw. rewrite Hw, Ha. cbn. lia. }
  assert (Hq : r * C + c < R * C) by nia.
  pose proof (lookup_concat_uniform (data <$> arrs) (R * C) s (r * C + c) Hu Hq) as Hl.
  rewrite list_lookup_fmap in Hl.
  destruct (arrs !! s) as [a|] eqn:Ea.
  - cbn in Hl |- *. rewrite <- Hl, Nat.add_assoc. symmetry. apply lookup_nth_Z.
    apply lookup_lt_is_Some. rewrite Nat.add_assoc in Hl. rewrite Hl.
    apply lookup_lt_is_Some.
    pose proof (proj1 (Forall_lookup _ _) Hu s (data a)) as Hla.
    rewrite Hla; [done|]. by rewrite list_lookup_fmap, Ea.
  - apply lookup_ge_None in Ea. lia.
Qed.

Lemma pca_table_columns S R C (vals : list (list ndarray)) :
  Forall (λ b, shape b = [R * C * S; 1] ∧ length (data b) = R * C * S)
    (pca_column S R C <$> vals).
Proof.
  apply Forall_fmap, Forall_forall. intros arrs _. simpl.
  replace (R * C * S) with (size_of [C; R] * S) by (cbn; lia).
  apply pca_column_shape.
Qed.

Lemma pca_table_wf S R C vals : wf_array (pca_table S R C vals).
Proof.
  unfold wf_array, pca_table. cbn [data shape].
  rewrite (length_bind_uniform _ _ (length vals)), length_seq; [cbn; lia|].
  intros i Hi%elem_of_seq. rewrite (length_bind_uniform _ _ 1), length_fmap; [lia|].
  intros b Hb. apply (proj1 (Forall_forall _ _) (pca_table_columns S R C vals)) in Hb as [_ Hb].
  rewrite length_take, length_drop. cbn in Hi. lia.
Qed.

Lemma pca_table_lookup S R C (vals : list (list ndarray)) j arrs s r c :
  Forall (λ arrs, length arrs = S ∧ same_shape [R; C] arrs) vals →
  vals !! j = Some arrs → s < S → r < R → c < C →
  data (pca_table S R C vals) !! ((s * (C * R) + c * R + r) * length vals + j)
  = arrs !! s ≫= λ a, data a !! (r * C + c).
Proof.
  intros Hall Hj Hs Hr Hc. unfold pca_table. cbn [data].
  assert (Hi : s * (C * R) + c * R + r < R * C * S).
  { assert (c * R + r < C * R) by nia.
    assert (s * (C * R) + C * R ≤ S * (C * R)) by nia. lia. }
  replace (size_of [C; R] * S) with (R * C * S) by (cbn; lia).
  pose proof (hstack_lookup (pca_column S R C <$> vals) (R * C * S)
                (s * (C * R) + c * R + r) j (pca_table_columns S R C vals) Hi) as Hl.
  rewrite length_fmap in Hl. rewrite Hl by (by eapply lookup_lt_Some).
  rewrite list_lookup_fmap, Hj. cbn.
  pose proof (Forall_lookup_1 _ _ _ _ Hall Hj) as [Hlen Hsh].
  by apply pca_column_lookup.
Qed.

Lemma creating_pca_input_pca_table h d R C S vals :
  valid_set h d [R; C] S vals → 0 < S → d ≠ [] →
  ∃ cols out hnew,
    creating_pca_input d h = (Ok (cols, out), h ++ hnew)
    ∧ (h ++ hnew) !! out = Some (pca_table S R C vals).
Proof.
  intros Hvalid HS Hne.
  destruct (creating_pca_input_run h d R C S vals Hvalid HS Hne)
    as (cols & out & hnew & Hrun & Hout).
  exists cols, out, hnew. split; [exact Hrun|]. rewrite Hout. unfold pca_table.
  destruct Hvalid as (_ & Hvals & _). by rewrite (Forall2_length _ _ _ Hvals).
Qed.

(** C4. On a valid set of [length d] metrics, [S] subjects and matrices of
    shape (R, C), [creating_pca_input] returns a new table of R*C*S rows and
    one column per metric, in the order of the dictionary; column [j] holds
    every cell of every subject's matrix of the [j]-th metric, subject after
    subject. *)
Theorem creating_pca_input_table h d R C S vals :
  valid_set h d [R; C] S vals → 0 < S → d ≠ [] →
  ∃ cols out hnew table,
    creating_pca_input d h = (Ok (cols, out), h ++ hnew)
    ∧ (h ++ hnew) !! out = Some table
    ∧ shape table = [R * C * S; length d]
    ∧ wf_array table
    ∧ ∀ j arrs s r c,
        vals !! j = Some arrs → s < S → r < R → c < C →
        data table !! ((s * (C * R) + c * R + r) * length d + j)
        = arrs !! s ≫= λ a, data a !! (r * C + c).
Proof.
  intros Hvalid HS Hne.
  destruct (creating_pca_input_pca_table h d R C S vals Hvalid HS Hne)
    as (cols & out & hnew & Hrun & Hout).
  destruct Hvalid as (Hnd & Hvals & Hall).
  pose proof (Forall2_length _ _ _ Hvals) as Hlen.
  exists cols, out, hnew, (pca_table S R C vals).
  split; [exact Hrun|]. split; [exact Hout|]. split; [|split].
  - unfold pca_table. cbn [shape]. rewrite Hlen. f_equal. cbn. lia.
  - apply pca_table_wf.
  - intros j arrs s r c Hj Hs Hr Hc. rewrite Hlen. by apply pca_table_lookup.
Qed.

Lemma creating_pca_input_table_witness :
  ∃ cols out hnew table,
    creating_pca_input Table.d Table.h = (Ok (cols, out), Table.h ++ hnew)
    ∧ (Table.h ++ hnew) !! out = Some table
    ∧ shape table = [2 * 3 * 2; length Table.d]
    ∧ wf_array table
    ∧ ∀ j arrs s r c,
        Table.vals !! j = Some arrs → s < 2 → r < 2 → c < 3 →
        data table !! ((s * (3 * 2) + c * 2 + r) * length Table.d + j)
        = arrs !! s ≫= λ a, data a !! (r * 3 + c).
Proof.
  apply (creating_pca_input_table Table.h Table.d 2 3 2 Table.vals).
  - split; [|split].
    + apply (bool_decide_unpack _). vm_compute. exact I.
    + repeat constructor.
    + repeat constructor.
  - lia.
  - discriminate.
Defined.

(** ** The round trip through the table *)

Lemma restore_zero_values_self x : wf_array x → restore_zero_values x x = Ok x.
Proof.
  intros Hw. unfold restore_zero_values.
  rewrite (np_multiply_same _ _ (shape x)); try done.
  - destruct x as [sh buf]. cbn [data shape]. f_equal. f_equal.
    unfold assign_where. clear Hw. induction buf as [|v buf IH]; [done|].
    rewrite fmap_cons. cbn [zip_with]. f_equal; [|exact IH].
    case_bool_decide as Hv; [lia|]. subst v. done.
  - unfold wf_array, assign_where. cbn [data shape]. by rewrite length_fmap.
Qed.

(** The buffer of a 2-D array with its axes swapped. *)
Lemma transpose_10_data N M (buf : list Z) :
  data (np_transpose [1; 0] (NdArray [N; M] buf))
  = m ← seq 0 M; i ← seq 0 N; [nth (i * M + m) buf 0%Z].
Proof.
  unfold np_transpose. cbn [data shape fmap list_fmap nth indices].
  rewrite fmap_list_bind. apply list_bind_ext; [|done]. intros m.
  rewrite <- !list_fmap_compose, fmap_list_bind. apply list_bind_ext; [|done]. intros i.
  cbn. do 2 f_equal. lia.
Qed.

Lemma transpose_10_lookup N M (buf : list Z) m i :
  m < M → i < N →
  data (np_transpose [1; 0] (NdArray [N; M] buf)) !! (m * N + i)
  = Some (nth (i * M + m) buf 0%Z).
Proof.
  intros Hm Hi. rewrite transpose_10_data.
  rewrite (lookup_bind_uniform _ _ N).
  - rewrite lookup_seq_lt by done. cbn [mbind option_bind].
    replace i with (i * 1 + 0) at 1 by lia.
    rewrite (lookup_bind_uniform _ _ 1) by (done || lia).
    rewrite lookup_seq_lt by done. reflexivity.
  - intros m' _. rewrite (length_bind_uniform _ _ 1), length_seq by done. lia.
  - done.
Qed.

Lemma unpack_components_identity x N M S R C :
  shape x = [N; M] → wf_array x → N = S * (R * C) →
  unpack_components x x M S [R; C]
  = Ok (NdArray [M; S; R; C] (data (np_transpose [1; 0] x))).
Proof.
  intros Hsh Hw HN. unfold unpack_components.
  rewrite restore_zero_values_self by done. cbn [mbind result_bind rbind].
  unfold np_swapaxes. rewrite Hsh. cbn [length]. rewrite !decide_False by lia.
  cbn [mbind result_bind rbind list_get lookup list_lookup seq insert list_insert].
  unfold np_reshape. rewrite decide_True; [done|].
  unfold np_transpose. rewrite Hsh. cbn. subst N. lia.
Qed.

Lemma component_lookup out M S R C m s q :
  shape out = [M; S; R; C] → s < S → q < R * C →
  data (component out m s) !! q = data out !! (m * (S * (R * C)) + s * (R * C) + q).
Proof.
  intros Hsh Hs Hq. unfold component. rewrite Hsh. cbn [drop data size_of foldr].
  rewrite !Nat.mul_1_r.
  rewrite lookup_take_lt, lookup_drop by done.
  rewrite lookup_take_lt, lookup_drop by nia.
  f_equal. lia.
Qed.

(** What the round trip really returns on square matrices: every subject's
    matrix comes back transposed. *)
Lemma round_trip_transposes h d N S vals :
  valid_set h d [N; N] S vals → 0 < S → d ≠ [] →
  ∃ out hnew,
    round_trip d S [N; N] h = (Ok out, h ++ hnew)
    ∧ shape out = [length d; S; N; N]
    ∧ ∀ m arrs s i j,
        vals !! m = Some arrs → s < S → i < N → j < N →
        data (component out m s) !! (i * N + j)
        = arrs !! s ≫= λ a, data a !! (j * N + i).
Proof.
  intros Hvalid HS Hne.
  destruct (creating_pca_input_pca_table h d N N S vals Hvalid HS Hne)
    as (cols & df & hnew & Hrun & Hdf).
  destruct Hvalid as (Hnd & Hvals & Hall).
  pose proof (Forall2_length _ _ _ Hvals) as Hlen.
  set (table := pca_table S N N vals) in *.
  assert (Hsh : shape table = [size_of [N; N] * S; length d]).
  { unfold table, pca_table. cbn [shape]. by rewrite Hlen. }
  pose proof (pca_table_wf S N N vals) as Hwf. fold table in Hwf.
  exists (NdArray [length d; S; N; N] (data (np_transpose [1; 0] table))), hnew.
  split; [|split; [done|]].
  - unfold round_trip. rewrite (run_bind_ok _ _ _ _ _ Hrun).
    rewrite (run_bind_ok _ _ _ _ _ (run_deref _ _ _ Hdf)).
    rewrite run_lift. f_equal.
    apply (unpack_components_identity table (size_of [N; N] * S)); [done|done|cbn; lia].
  - intros m arrs s i j Hm Hs Hi Hj.
    assert (Hmd : m < length d) by (rewrite Hlen; by eapply lookup_lt_Some).
    rewrite (component_lookup _ (length d) S N N) by (done || nia).
    cbn [data]. destruct table as [tsh tbuf] eqn:Et. cbn [shape] in Hsh. subst tsh.
    replace (size_of [N; N] * S) with (S * (N * N)) by (cbn; lia).
    rewrite <- Nat.add_assoc, transpose_10_lookup by (done || nia).
    pose proof (pca_table_lookup S N N vals m arrs s j i Hall Hm Hs Hj Hi) as Hl.
    fold table in Hl. rewrite Et in Hl. cbn [data] in Hl.
    rewrite <- Hl, <- Hlen. symmetry.
    replace ((s * (N * N) + (i * N + j)) * length d + m)
      with ((s * (N * N) + i * N + j) * length d + m) by lia.
    apply lookup_nth_Z. unfold wf_array in Hwf. cbn [data shape] in Hwf.
    rewrite Hwf. cbn.
    assert (i * N + j < N * N) by nia.
    assert (s * (N * N) + N * N ≤ S * (N * N)) by nia.
    assert ((s * (N * N) + i * N + j) * length d + length d ≤ S * (N * N) * length d) by nia.
    lia.
Qed.

(** C5 fails on the code: a single subject with the asymmetric matrix
    [[1,2],[3,4]] comes back from the round trip as [[1,3],[2,4]]. *)
Theorem round_trip_asymmetric :
  ∃ out h',
    round_trip Asymmetric.d 1 [2; 2] Asymmetric.h = (Ok out, h')
    ∧ component out 0 0 = NdArray [2; 2] [1; 3; 2; 4]%Z
    ∧ Asymmetric.h !! 0 = Some (NdArray [2; 2] [1; 2; 3; 4]%Z)
    ∧ component out 0 0 ≠ NdArray [2; 2] [1; 2; 3; 4]%Z.
Proof.
  eexists _, _. split; [vm_compute; reflexivity|].
  split; [vm_compute; reflexivity|]. split; [reflexivity|]. vm_compute. discriminate.
Qed.

(** * Further properties *)

(** ** [apply_binary_mask] *)

Lemma masked_shape_wf m a sh :
  shape a = sh → wf_array a → shape m = sh → wf_array m →
  shape (masked m a) = sh ∧ wf_array (masked m a).
Proof.
  intros Ha Hwa Hm Hwm. split; [done|]. unfold wf_array, masked in *. cbn [data shape].
  rewrite length_zip_with, Hwa, Hwm, Ha, Hm. lia.
Qed.

Lemma masked_lookup m a q :
  data (masked m a) !! q = x ← data a !! q; y ← data m !! q; Some (x * y)%Z.
Proof. unfold masked. cbn [data]. apply lookup_zip_with. Qed.

Lemma masked_values_valid h d sh n vals m k :
  valid_set h d sh n vals → shape m = sh → wf_array m →
  ∀ d', dict_keys d' = dict_keys d →
  set_values (h ++ k) d' (masked_values m vals) →
  valid_set (h ++ k) d' sh n (masked_values m vals).
Proof.
  intros (Hnd & Hvals & Hall) Hm Hwm d' Hk Hset. split; [by rewrite Hk|]. split; [done|].
  unfold masked_values. apply Forall_fmap. eapply Forall_impl; [exact Hall|].
  intros arrs [Hlen Hsh]. simpl. split; [by rewrite length_fmap|].
  unfold same_shape. apply Forall_fmap. eapply Forall_impl; [exact Hsh|].
  intros a [Ha Hwa]. simpl. by apply masked_shape_wf.
Qed.

(** X1. On a valid set and a mask of the matrices' shape, [apply_binary_mask]
    returns a dictionary with the same metrics in the same order, which is
    again a valid set of the same shape and subject count; its arrays are the
    elementwise products of the old arrays with the mask. *)
Theorem apply_binary_mask_valid h d sh n vals mask m :
  valid_set h d sh n vals → h !! mask = Some m → shape m = sh → wf_array m →
  ∃ d' hnew,
    apply_binary_mask d mask h = (Ok d', h ++ hnew)
    ∧ dict_keys d' = dict_keys d
    ∧ valid_set (h ++ hnew) d' sh n (masked_values m vals)
    ∧ ∀ arrs a q, arrs ∈ vals → a ∈ arrs → q < size_of sh →
        data (masked m a) !! q = Some (nth q (data a) 0 * nth q (data m) 0)%Z.
Proof.
  intros Hvalid Hmask Hm Hwm.
  destruct (apply_binary_mask_run h d sh n vals mask m Hvalid Hmask Hm Hwm)
    as (d' & hnew & Hrun & Hkeys & Hset).
  exists d', hnew. split; [done|]. split; [done|]. split.
  - by apply (masked_values_valid h d sh n vals m hnew).
  - intros arrs a q Harrs Ha Hq. destruct Hvalid as (_ & _ & Hall).
    apply (proj1 (Forall_forall _ _) Hall) in Harrs as [_ Hsh].
    apply (proj1 (Forall_forall _ _) Hsh) in Ha as [Has Hwa].
    rewrite masked_lookup, !lookup_nth_Z; [done| |].
    + unfold wf_array in Hwa. by rewrite Hwa, Has.
    + unfold wf_array in Hwm. by rewrite Hwm, Hm.
Qed.

Lemma apply_binary_mask_valid_witness :
  ∃ d' hnew,
    apply_binary_mask EqualCounts.d 0 EqualCounts.h = (Ok d', EqualCounts.h ++ hnew)
    ∧ dict_keys d' = dict_keys EqualCounts.d
    ∧ valid_set (EqualCounts.h ++ hnew) d' [2; 2] 1
        (masked_values (Scenario.m22 4 0 0 0) EqualCounts.vals)
    ∧ ∀ arrs a q, arrs ∈ EqualCounts.vals → a ∈ arrs → q < size_of [2; 2] →
        data (masked (Scenario.m22 4 0 0 0) a) !! q
        = Some (nth q (data a) 0 * nth q (data (Scenario.m22 4 0 0 0)) 0)%Z.
Proof.
  apply (apply_binary_mask_valid EqualCounts.h EqualCounts.d [2; 2] 1 EqualCounts.vals 0).
  - split; [|split].
    + apply (bool_decide_unpack _). vm_compute. exact I.
    + repeat constructor.
    + repeat constructor.
  - reflexivity.
  - reflexivity.
  - reflexivity.
Defined.

Lemma apply_binary_mask_triple h0 d mask :
  triple h0 anyheap (apply_binary_mask d mask) (λ _ _, True).
Proof.
  unfold apply_binary_mask.
  eapply triple_conseq; [done| |done].
  apply (triple_for_fold h0 (λ _, True)); [|done].
  intros d1 a _.
  eapply triple_bind_pure; [apply triple_lift|]. intros l _.
  apply (triple_for_fold h0 (λ _, True)); [|done].
  intros d2 i _.
  eapply triple_bind_pure; [apply triple_lift|]. intros l' _.
  eapply triple_bind_pure; [apply triple_lift|]. intros x _.
  eapply triple_bind_pure; [apply triple_deref_any|]. intros xa _.
  eapply triple_bind_pure; [apply triple_deref_any|]. intros m _.
  eapply triple_bind_pure; [apply triple_lift|]. intros y _.
  eapply triple_bind_pure; [apply triple_alloc|]. intros y' _.
  by apply triple_ret_pure.
Qed.

(** X2. [apply_binary_mask] changes no array in place: for every dictionary,
    mask and store, returning or raising, the store afterwards is the store
    before with new arrays appended, so the matrices it was given and the
    mask itself are as they were. *)
Theorem apply_binary_mask_frame d mask h :
  (∃ hnew, (apply_binary_mask d mask h).2 = h ++ hnew)
  ∧ ∀ l a, h !! l = Some a → (apply_binary_mask d mask h).2 !! l = Some a.
Proof.
  destruct (apply_binary_mask_triple h d mask h) as [[hnew Hext] _].
  { exists []. by rewrite app_nil_r. } { done. }
  split; [by exists hnew|].
  intros l a Hl. rewrite Hext. by apply lookup_app_l_Some.
Qed.

Lemma zip_mul_binary_idem (buf m : list Z) :
  Forall (λ x, x = 0%Z ∨ x = 1%Z) m →
  zip_with Z.mul (zip_with Z.mul buf m) m = zip_with Z.mul buf m.
Proof.
  intros Hm. revert buf. induction Hm as [|y m Hy _ IH]; intros [|x buf]; try done.
  cbn [zip_with]. rewrite IH. f_equal. destruct Hy as [-> | ->]; lia.
Qed.

Lemma masked_values_idem m vals :
  binary m → masked_values m (masked_values m vals) = masked_values m vals.
Proof.
  intros Hm. unfold masked_values. rewrite <- list_fmap_compose.
  apply list_fmap_ext. intros _ arrs _. simpl. rewrite <- list_fmap_compose.
  apply list_fmap_ext. intros _ a _. unfold masked. simpl.
  by rewrite zip_mul_binary_idem.
Qed.

(** X3. Masking twice with a 0/1 mask of the matrices' shape changes nothing
    more: the second call of [apply_binary_mask] returns new arrays with the
    values of the first. *)
Theorem apply_binary_mask_idempotent h d sh n vals mask m :
  valid_set h d sh n vals → h !! mask = Some m → shape m = sh → wf_array m →
  binary m →
  ∃ d1 h1 d2 h2,
    apply_binary_mask d mask h = (Ok d1, h1)
    ∧ apply_binary_mask d1 mask h1 = (Ok d2, h2)
    ∧ dict_keys d2 = dict_keys d
    ∧ set_values h1 d1 (masked_values m vals)
    ∧ set_values h2 d2 (masked_values m vals).
Proof.
  intros Hvalid Hmask Hm Hwm Hbin.
  destruct (apply_binary_mask_run h d sh n vals mask m Hvalid Hmask Hm Hwm)
    as (d1 & hnew & Hrun & Hkeys & Hset).
  pose proof (masked_values_valid h d sh n vals m hnew Hvalid Hm Hwm d1 Hkeys Hset) as Hvalid1.
  destruct (apply_binary_mask_run (h ++ hnew) d1 sh n (masked_values m vals) mask m
              Hvalid1 (lookup_app_l_Some _ _ _ _ Hmask) Hm Hwm)
    as (d2 & hnew2 & Hrun2 & Hkeys2 & Hset2).
  exists d1, (h ++ hnew), d2, ((h ++ hnew) ++ hnew2).
  split; [done|]. split; [done|]. split; [congruence|]. split; [done|].
  fold (masked_values m (masked_values m vals)) in Hset2.
  by rewrite masked_values_idem in Hset2.
Qed.

Lemma apply_binary_mask_idempotent_witness :
  ∃ d1 h1 d2 h2,
    apply_binary_mask EqualCounts.d 2 (EqualCounts.h ++ [Scenario.m22 1 0 0 0])
    = (Ok d1, h1)
    ∧ apply_binary_mask d1 2 h1 = (Ok d2, h2)
    ∧ dict_keys d2 = dict_keys EqualCounts.d
    ∧ set_values h1 d1 (masked_values (Scenario.m22 1 0 0 0) EqualCounts.vals)
    ∧ set_values h2 d2 (masked_values (Scenario.m22 1 0 0 0) EqualCounts.vals).
Proof.
  apply (apply_binary_mask_idempotent _ EqualCounts.d [2; 2] 1 EqualCounts.vals 2).
  - split; [|split].
    + apply (bool_decide_unpack _). vm_compute. exact I.
    + repeat constructor.
    + repeat constructor.
  - reflexivity.
  - reflexivity.
  - reflexivity.
  - unfold binary. simpl. repeat (apply List.Forall_cons; [lia|]). apply List.Forall_nil.
Defined.

Lemma broadcast_shapes_mismatch (s1 : list nat) :
  ∀ s2 i x y, length s1 = length s2 → s1 !! i = Some x → s2 !! i = Some y →
    x ≠ y → x ≠ 1 → y ≠ 1 → broadcast_shapes s1 s2 = Raise ValueError.
Proof.
  induction s1 as [|x1 s1 IH]; intros [|y1 s2] i x y Hlen H1 H2 Hxy Hx Hy; try done.
  destruct i as [|i]; simpl in H1, H2.
  - injection H1 as ->. injection H2 as ->. cbn [broadcast_shapes].
    by rewrite !decide_False by done.
  - cbn [broadcast_shapes].
    rewrite (IH s2 i x y) by (done || (simpl in Hlen; lia)).
    by repeat case_decide.
Qed.

Lemma np_multiply_mismatch a m i x y :
  length (shape a) = length (shape m) →
  shape a !! i = Some x → shape m !! i = Some y → x ≠ y → x ≠ 1 → y ≠ 1 →
  np_multiply a m = Raise ValueError.
Proof.
  intros Hlen Ha Hm Hxy Hx Hy. unfold np_multiply, np_binop.
  rewrite <- Hlen, Nat.max_id, pad_shape_id, Hlen, pad_shape_id.
  by rewrite (broadcast_shapes_mismatch _ _ i x y).
Qed.

(** X4. A mask with as many dimensions as the matrices but a different
    extent along some axis, neither extent being 1, cannot be broadcast:
    [apply_binary_mask] raises [ValueError] at the first matrix, and has
    written nothing. *)
Theorem apply_binary_mask_shape_error k x refs rest mask h a m i n1 n2 :
  h !! x = Some a → h !! mask = Some m →
  length (shape a) = length (shape m) →
  shape a !! i = Some n1 → shape m !! i = Some n2 → n1 ≠ n2 → n1 ≠ 1 → n2 ≠ 1 →
  apply_binary_mask ((k, x :: refs) :: rest) mask h = (Raise ValueError, h).
Proof.
  intros Hx Hmask Hlen Ha Hm Hne H1 H2. unfold apply_binary_mask.
  cbn [dict_keys fmap list_fmap fst for_fold].
  rewrite run_bind, run_bind, run_lift. cbn [dict_get]. rewrite decide_True by done.
  cbn [length seq for_fold].
  rewrite run_bind, run_bind, run_lift. cbn [dict_get]. rewrite decide_True by done.
  rewrite run_bind, run_lift. cbn [list_get lookup list_lookup].
  rewrite run_bind, (run_deref _ _ _ Hx), run_bind, (run_deref _ _ _ Hmask).
  rewrite run_bind, run_lift.
  by rewrite (np_multiply_mismatch a m i n1 n2).
Qed.

Lemma apply_binary_mask_shape_error_witness :
  apply_binary_mask [("fa"%string, [0])] 1 [Table.a1; Scenario.m22 1 0 0 0]
  = (Raise ValueError, [Table.a1; Scenario.m22 1 0 0 0]).
Proof.
  apply (apply_binary_mask_shape_error _ _ _ _ _ _ Table.a1 (Scenario.m22 1 0 0 0) 1 3 2);
    (reflexivity || lia).
Defined.

(** ** [extracting_common_cnx]: errors *)

(** X5. [extracting_common_cnx] raises [IndexError] when the index names no
    metric, and when the metric has no subject; in the second case the empty
    copy [met] has already been made. *)
Theorem extracting_common_cnx_index_error d ind h :
  length d ≤ ind ∨ (∃ k, NoDup (dict_keys d) ∧ d !! ind = Some (k, [])) →
  (extracting_common_cnx d ind h).1 = Raise IndexError
  ∧ (length d ≤ ind → (extracting_common_cnx d ind h).2 = h)
  ∧ (length d > ind → (extracting_common_cnx d ind h).2 = h ++ [NdArray [0] []]).
Proof.
  intros [Hlen | (k & Hnd & Hk)].
  - assert (extracting_common_cnx d ind h = (Raise IndexError, h)) as ->.
    { unfold extracting_common_cnx. rewrite run_bind, run_lift. unfold list_get.
      rewrite lookup_ge_None_2; [done|]. unfold dict_keys. by rewrite length_fmap. }
    split; [done|]. split; [done|]. simpl. lia.
  - destruct (dict_get_lookup d ind k [] Hnd Hk) as [Hkey Hget].
    assert (extracting_common_cnx d ind h = (Raise IndexError, h ++ [NdArray [0] []])) as ->.
    { assert ((h ++ [NdArray [0] []]) !! length h = Some (NdArray [0] [])) as Hl
        by (by apply list_lookup_middle).
      unfold extracting_common_cnx.
      rewrite run_bind, run_lift, Hkey, run_bind, run_lift, Hget.
      rewrite run_bind. cbn [py_mapM]. rewrite run_ret.
      rewrite run_bind, run_lift. cbn [np_array].
      rewrite run_bind. unfold alloc at 1.
      rewrite run_bind, (run_deref _ _ _ Hl).
      cbn [np_len shape hd seq for_each].
      rewrite run_bind, run_ret.
      rewrite run_bind, (run_deref _ _ _ Hl).
      by rewrite run_bind, run_lift. }
    split; [done|]. split; [|done]. apply lookup_lt_Some in Hk. simpl. lia.
Qed.

Lemma extracting_common_cnx_index_error_witness :
  (extracting_common_cnx [("fa"%string, [])] 0 []).1 = Raise IndexError
  ∧ (length [("fa"%string, @nil loc)] ≤ 0 →
     (extracting_common_cnx [("fa"%string, [])] 0 []).2 = [])
  ∧ (length [("fa"%string, @nil loc)] > 0 →
     (extracting_common_cnx [("fa"%string, [])] 0 []).2 = [] ++ [NdArray [0] []]).
Proof.
  apply (extracting_common_cnx_index_error [("fa"%string, [])] 0 []).
  right. exists "fa"%string. split; [|reflexivity].
  apply (bool_decide_unpack _). vm_compute. exact I.
Defined.

Lemma np_array_ragged (arrs : list ndarray) a b :
  a ∈ arrs → b ∈ arrs → shape a ≠ shape b → np_array arrs = Raise ValueError.
Proof.
  intros Ha Hb Hne. destruct arrs as [|a0 arrs]; [by apply elem_of_nil in Ha|].
  unfold np_array. destruct (forallb _ _) eqn:E; [|done]. exfalso.
  rewrite forallb_forall in E.
  assert (∀ c, c ∈ a0 :: arrs → shape c = shape a0) as Hall.
  { intros c Hc. apply list_elem_of_In in Hc. apply E in Hc.
    by apply bool_decide_eq_true in Hc. }
  apply Hne. by rewrite (Hall a), (Hall b).
Qed.

(** X6. Matrices of different shapes for the chosen metric cannot be stacked:
    [extracting_common_cnx] raises [ValueError] and leaves the store as it
    was. *)
Theorem extracting_common_cnx_ragged d ind h k refs arrs a b :
  NoDup (dict_keys d) → d !! ind = Some (k, refs) → holds h refs arrs →
  a ∈ arrs → b ∈ arrs → shape a ≠ shape b →
  extracting_common_cnx d ind h = (Raise ValueError, h).
Proof.
  intros Hnd Hk Hholds Ha Hb Hne.
  destruct (dict_get_lookup d ind k refs Hnd Hk) as [Hkey Hget].
  unfold extracting_common_cnx.
  rewrite run_bind, run_lift, Hkey, run_bind, run_lift, Hget.
  rewrite run_bind, (run_mapM_deref refs arrs h Hholds).
  by rewrite run_bind, run_lift, (np_array_ragged arrs a b).
Qed.

Lemma extracting_common_cnx_ragged_witness :
  extracting_common_cnx [("fa"%string, [0; 1])] 0 [Table.a1; Scenario.m22 1 0 0 0]
  = (Raise ValueError, [Table.a1; Scenario.m22 1 0 0 0]).
Proof.
  apply (extracting_common_cnx_ragged _ 0 _ "fa"%string [0; 1]
           [Table.a1; Scenario.m22 1 0 0 0] Table.a1 (Scenario.m22 1 0 0 0)).
  - apply (bool_decide_unpack _). vm_compute. exact I.
  - reflexivity.
  - repeat constructor.
  - apply (bool_decide_unpack _). vm_compute. exact I.
  - apply (bool_decide_unpack _). vm_compute. exact I.
  - apply (bool_decide_unpack _). vm_compute. exact I.
Defined.

(** ** [extracting_common_cnx] on a dtype that counts the subjects *)

(** X26. On a dtype that represents every count up to the number of subjects
    (float64 up to 2^53 subjects, an N-bit unsigned integer below 2^N, bool
    for a single subject), [extracting_common_cnx] on a non-empty list of
    same-shape subject arrays returns a new array of that shape whose cell is
    1 exactly when the cell is non-zero for every subject and 0 otherwise; it
    is the array obtained by binarizing every subject's array, summing
    elementwise and keeping the cells whose sum is the subject count. *)
Theorem extracting_common_cnx_common_mask dt d ind h k refs arrs sh :
  counts_to dt (length arrs) →
  NoDup (dict_keys d) → d !! ind = Some (k, refs) →
  holds h refs arrs → arrs ≠ [] → same_shape sh arrs →
  ∃ l hnew mask,
    extracting_common_cnx_as dt d ind h = (Ok l, h ++ hnew)
    ∧ (h ++ hnew) !! l = Some mask
    ∧ shape mask = sh
    ∧ (∀ j, j < size_of sh →
         data mask !! j
         = Some (if decide (Forall (λ a, nth j (data a) 0%Z ≠ 0%Z) arrs)
                 then 1%Z else 0%Z))
    ∧ mask = spec_common_mask sh arrs.
Proof.
  intros Hdt Hnd Hd Hh Hne Hall.
  destruct (extracting_common_cnx_as_spec dt d ind h k refs arrs sh Hdt Hnd Hd Hh Hne Hall)
    as (l & hnew & Hrun & Hl).
  exists l, hnew, (spec_common_mask sh arrs).
  repeat split; try done.
  intros j Hj. by apply lookup_spec_common_mask.
Qed.

Lemma extracting_common_cnx_common_mask_witness :
  ∃ l hnew mask,
    extracting_common_cnx_as np_float64 Scenario.d0 0 Scenario.h0
    = (Ok l, Scenario.h0 ++ hnew)
    ∧ (Scenario.h0 ++ hnew) !! l = Some mask
    ∧ shape mask = [2; 2]
    ∧ (∀ j, j < size_of [2; 2] →
         data mask !! j
         = Some (if decide (Forall (λ a, nth j (data a) 0%Z ≠ 0%Z)
                              [Scenario.m22 1 0 2 3; Scenario.m22 5 0 6 0])
                 then 1%Z else 0%Z))
    ∧ mask = spec_common_mask [2; 2] [Scenario.m22 1 0 2 3; Scenario.m22 5 0 6 0].
Proof.
  apply (extracting_common_cnx_common_mask np_float64 Scenario.d0 0 Scenario.h0 "fa" [0; 1]).
  - apply counts_to_float64. vm_compute. discriminate.
  - apply (bool_decide_unpack _). vm_compute. exact I.
  - reflexivity.
  - repeat constructor.
  - discriminate.
  - repeat constructor.
Defined.

(** ** [extracting_common_cnx]: subject order, and masks of masked sets *)

Lemma spec_common_mask_length sh arrs :
  same_shape sh arrs → length (data (spec_common_mask sh arrs)) = size_of sh.
Proof. intros H. apply (spec_common_mask_wf sh arrs H). Qed.

Lemma spec_common_mask_ext sh sh' (arrs arrs' : list ndarray) :
  sh = sh' → same_shape sh arrs → same_shape sh' arrs' →
  (∀ j, j < size_of sh →
     Forall (λ a, nth j (data a) 0%Z ≠ 0%Z) arrs
     ↔ Forall (λ a, nth j (data a) 0%Z ≠ 0%Z) arrs') →
  spec_common_mask sh arrs = spec_common_mask sh' arrs'.
Proof.
  intros <- Hs Hs' Hiff.
  assert (data (spec_common_mask sh arrs) = data (spec_common_mask sh arrs')) as E.
  { apply list_eq. intros j. destruct (decide (j < size_of sh)) as [Hj|Hj].
    - rewrite !lookup_spec_common_mask by done.
      destruct (decide _) as [H1|H1], (decide _) as [H2|H2]; try done.
      + by apply Hiff in H1.
      + by apply Hiff in H2.
    - rewrite !lookup_ge_None_2; [done| |]; rewrite spec_common_mask_length by done; lia. }
  unfold spec_common_mask in *. simpl in E. by rewrite E.
Qed.

Lemma same_shape_perm sh (arrs arrs' : list ndarray) :
  arrs ≡ₚ arrs' → same_shape sh arrs → same_shape sh arrs'.
Proof. intros Hp. unfold same_shape. by rewrite Hp. Qed.

(** X7. The mask does not depend on the order of the subjects: two
    dictionaries whose chosen metrics hold the same matrices in different
    orders give the same mask. *)
Theorem extracting_common_cnx_subject_order d d' ind ind' h k k' refs refs' arrs arrs' sh :
  NoDup (dict_keys d) → d !! ind = Some (k, refs) → holds h refs arrs →
  NoDup (dict_keys d') → d' !! ind' = Some (k', refs') → holds h refs' arrs' →
  arrs ≠ [] → same_shape sh arrs → arrs ≡ₚ arrs' →
  ∃ l hnew l' hnew' mask,
    extracting_common_cnx d ind h = (Ok l, h ++ hnew)
    ∧ extracting_common_cnx d' ind' h = (Ok l', h ++ hnew')
    ∧ (h ++ hnew) !! l = Some mask
    ∧ (h ++ hnew') !! l' = Some mask.
Proof.
  intros Hnd Hk Hh Hnd' Hk' Hh' Hne Hsh Hp.
  assert (arrs' ≠ []) as Hne'.
  { intros ->. by apply Permutation_nil_r in Hp. }
  pose proof (same_shape_perm sh arrs arrs' Hp Hsh) as Hsh'.
  destruct (extracting_common_cnx_spec d ind h k refs arrs sh Hnd Hk Hh Hne Hsh)
    as (l & hnew & Hrun & Hl).
  destruct (extracting_common_cnx_spec d' ind' h k' refs' arrs' sh Hnd' Hk' Hh' Hne' Hsh')
    as (l' & hnew' & Hrun' & Hl').
  exists l, hnew, l', hnew', (spec_common_mask sh arrs).
  split; [done|]. split; [done|]. split; [done|].
  rewrite Hl'. f_equal. apply spec_common_mask_ext; try done.
  intros j _. by rewrite Hp.
Qed.

Lemma extracting_common_cnx_subject_order_witness :
  ∃ l hnew l' hnew' mask,
    extracting_common_cnx Scenario.d0 0 Scenario.h0 = (Ok l, Scenario.h0 ++ hnew)
    ∧ extracting_common_cnx [("fa"%string, [1; 0])] 0 Scenario.h0
      = (Ok l', Scenario.h0 ++ hnew')
    ∧ (Scenario.h0 ++ hnew) !! l = Some mask
    ∧ (Scenario.h0 ++ hnew') !! l' = Some mask.
Proof.
  apply (extracting_common_cnx_subject_order Scenario.d0 [("fa"%string, [1; 0])] 0 0
           Scenario.h0 "fa"%string "fa"%string [0; 1] [1; 0]
           [Scenario.m22 1 0 2 3; Scenario.m22 5 0 6 0]
           [Scenario.m22 5 0 6 0; Scenario.m22 1 0 2 3] [2; 2]).
  - apply (bool_decide_unpack _). vm_compute. exact I.
  - reflexivity.
  - repeat constructor.
  - apply (bool_decide_unpack _). vm_compute. exact I.
  - reflexivity.
  - repeat constructor.
  - discriminate.
  - repeat constructor.
  - apply perm_swap.
Defined.

Lemma nth_masked m a j :
  j < length (data a) → j < length (data m) →
  nth j (data (masked m a)) 0%Z = (nth j (data a) 0 * nth j (data m) 0)%Z.
Proof.
  intros Ha Hm. apply nth_lookup_Some with (d := 0%Z).
  - rewrite masked_lookup, !lookup_nth_Z by done. done.
Qed.

Lemma masked_nonzero m sh (arrs : list ndarray) j :
  shape m = sh → wf_array m → same_shape sh arrs → arrs ≠ [] → j < size_of sh →
  Forall (λ a, nth j (data a) 0%Z ≠ 0%Z) (masked m <$> arrs)
  ↔ nth j (data m) 0%Z ≠ 0%Z ∧ Forall (λ a, nth j (data a) 0%Z ≠ 0%Z) arrs.
Proof.
  intros Hm Hwm Hsh Hne Hj. rewrite Forall_fmap.
  assert (∀ a, a ∈ arrs →
            nth j (data (masked m a)) 0%Z = (nth j (data a) 0 * nth j (data m) 0)%Z) as Hnth.
  { intros a Ha. apply (proj1 (Forall_forall _ _) Hsh) in Ha as [Has Hwa].
    apply nth_masked; unfold wf_array in *; [rewrite Hwa, Has|rewrite Hwm, Hm]; done. }
  rewrite !Forall_forall. split.
  - intros H. split.
    + destruct arrs as [|a arrs]; [done|].
      specialize (H a (list_elem_of_here _ _)). unfold compose in H.
      rewrite Hnth in H by left. lia.
    + intros a Ha. specialize (H a Ha). unfold compose in H. rewrite Hnth in H by done. lia.
  - intros [H1 H2] a Ha. unfold compose. rewrite Hnth by done. specialize (H2 a Ha).
    simpl in H2. lia.
Qed.

(** X8. Extracting the mask of a metric after [apply_binary_mask] with a 0/1
    mask, on a dtype that represents every count up to the number of
    subjects: a cell is retained exactly when the applied mask is non-zero
    there and every subject's original matrix of that metric is.  In
    particular the mask extracted from a metric is found again when it is
    extracted from the set it has masked. *)
Theorem extracting_common_cnx_after_mask dt h d sh n vals mask m k arrs :
  valid_set h d sh n vals → 0 < n → h !! mask = Some m → shape m = sh → wf_array m →
  binary m → counts_to dt n →
  vals !! k = Some arrs →
  ∃ d' h' l hnew mk,
    apply_binary_mask d mask h = (Ok d', h')
    ∧ extracting_common_cnx_as dt d' k h' = (Ok l, h' ++ hnew)
    ∧ (h' ++ hnew) !! l = Some mk
    ∧ shape mk = sh
    ∧ (∀ j, j < size_of sh →
         data mk !! j
         = Some (if decide (nth j (data m) 0%Z ≠ 0%Z
                            ∧ Forall (λ a, nth j (data a) 0%Z ≠ 0%Z) arrs)
                 then 1%Z else 0%Z))
    ∧ (m = spec_common_mask sh arrs → mk = m).
Proof.
  intros Hvalid Hn Hmask Hm Hwm _ Hdt Hk.
  destruct (apply_binary_mask_run h d sh n vals mask m Hvalid Hmask Hm Hwm)
    as (d' & hnew & Hrun & Hkeys & Hset).
  pose proof (masked_values_valid h d sh n vals m hnew Hvalid Hm Hwm d' Hkeys Hset) as Hvalid'.
  assert (masked_values m vals !! k = Some (masked m <$> arrs)) as Hk'.
  { unfold masked_values. by rewrite list_lookup_fmap, Hk. }
  destruct (valid_set_lookup _ _ _ _ _ _ _ Hvalid' Hk')
    as (key & refs & Hd' & Hholds & Hsh' & Hlen').
  destruct (valid_set_lookup _ _ _ _ _ _ _ Hvalid Hk)
    as (key0 & refs0 & _ & _ & Hsh & Hlen).
  assert (arrs ≠ []) as Hne by (intros ->; simpl in Hlen; lia).
  assert (masked m <$> arrs ≠ []) as Hne' by (intros E; by apply fmap_nil_inv in E).
  destruct Hvalid' as (Hnd' & _ & _).
  rewrite <- Hlen' in Hdt.
  destruct (extracting_common_cnx_as_spec dt d' k (h ++ hnew) key refs (masked m <$> arrs) sh
              Hdt Hnd' Hd' Hholds Hne' Hsh') as (l & hnew2 & Hrun2 & Hl).
  assert (∀ j, j < size_of sh →
            data (spec_common_mask sh (masked m <$> arrs)) !! j
            = Some (if decide (nth j (data m) 0%Z ≠ 0%Z
                               ∧ Forall (λ a, nth j (data a) 0%Z ≠ 0%Z) arrs)
                    then 1%Z else 0%Z)) as Hcells.
  { intros j Hj. rewrite lookup_spec_common_mask by done.
    pose proof (masked_nonzero m sh arrs j Hm Hwm Hsh Hne Hj) as Hiff.
    destruct (decide _) as [H1|H1], (decide _) as [H2|H2]; try done.
    - by apply Hiff in H1.
    - by apply Hiff in H2. }
  exists d', (h ++ hnew), l, hnew2, (spec_common_mask sh (masked m <$> arrs)).
  split; [done|]. split; [done|]. split; [done|]. split; [done|]. split; [done|].
  intros ->. apply spec_common_mask_ext; try done.
  intros j Hj. rewrite (masked_nonzero _ sh arrs j) by done.
  split; [by intros []|]. intros H. split; [|done].
  pose proof (lookup_spec_common_mask sh arrs j Hsh Hj) as E.
  rewrite decide_True in E by done.
  rewrite (nth_lookup_Some _ _ 0%Z _ E). done.
Qed.

Lemma extracting_common_cnx_after_mask_witness :
  ∃ d' h' l hnew mk,
    apply_binary_mask EqualCounts.d 2 (EqualCounts.h ++ [Scenario.m22 1 0 0 0])
    = (Ok d', h')
    ∧ extracting_common_cnx_as (np_uint 8) d' 0 h' = (Ok l, h' ++ hnew)
    ∧ (h' ++ hnew) !! l = Some mk
    ∧ shape mk = [2; 2]
    ∧ (∀ j, j < size_of [2; 2] →
         data mk !! j
         = Some (if decide (nth j (data (Scenario.m22 1 0 0 0)) 0%Z ≠ 0%Z
                            ∧ Forall (λ a, nth j (data a) 0%Z ≠ 0%Z)
                                [Scenario.m22 4 0 0 0])
                 then 1%Z else 0%Z))
    ∧ (Scenario.m22 1 0 0 0 = spec_common_mask [2; 2] [Scenario.m22 4 0 0 0] →
       mk = Scenario.m22 1 0 0 0).
Proof.
  apply (extracting_common_cnx_after_mask (np_uint 8) _ EqualCounts.d [2; 2] 1
           EqualCounts.vals 2 (Scenario.m22 1 0 0 0) 0 [Scenario.m22 4 0 0 0]).
  - split; [|split].
    + apply (bool_decide_unpack _). vm_compute. exact I.
    + repeat constructor.
    + repeat constructor.
  - lia.
  - reflexivity.
  - reflexivity.
  - reflexivity.
  - unfold binary. simpl. repeat (apply List.Forall_cons; [lia|]). apply List.Forall_nil.
  - apply counts_to_uint. vm_compute. reflexivity.
  - reflexivity.
Defined.

(** ** [creating_pca_input]: the store, the rebound keys, and errors *)

Lemma creating_pca_input_triple h0 d :
  triple h0 anyheap (creating_pca_input d) (λ r _, length h0 ≤ r.2).
Proof.
  unfold creating_pca_input.
  eapply triple_bind_pure.
  { apply (triple_for_fold h0 (λ _, True)); [|done].
    intros cols a _.
    eapply triple_bind_pure; [apply triple_lift|]. intros refs _.
    eapply triple_bind_pure;
      [apply triple_mapM; intros x; apply triple_deref_any|]. intros arrs _.
    eapply triple_bind_pure; [apply triple_lift|]. intros stacked _.
    eapply triple_bind_pure; [apply triple_lift|]. intros mat _.
    eapply triple_bind_pure; [apply triple_lift|]. intros n_group _.
    eapply triple_bind_pure; [apply triple_lift|]. intros mat' _.
    eapply triple_bind_pure; [apply triple_alloc|]. intros l _.
    by apply triple_ret_pure. }
  intros cols _.
  eapply triple_bind_pure.
  { apply triple_mapM. intros i.
    eapply triple_bind_pure; [apply triple_lift|]. intros c _.
    apply triple_deref_any. }
  intros columns _.
  eapply triple_bind_pure; [apply triple_lift|]. intros out _.
  eapply triple_bind_pure; [apply triple_alloc|]. intros l Hl.
  by apply (triple_ret_pure h0 _ (λ r : pydict loc * loc, length h0 ≤ r.2)).
Qed.

(** X9. [creating_pca_input] changes no array in place, for every dictionary
    and store and whether it returns or raises: the store afterwards is the
    store before with new arrays appended, and the table it returns is one
    of the new arrays. *)
Theorem creating_pca_input_frame d h :
  (∃ hnew, (creating_pca_input d h).2 = h ++ hnew)
  ∧ (∀ l a, h !! l = Some a → (creating_pca_input d h).2 !! l = Some a)
  ∧ (∀ cols out, (creating_pca_input d h).1 = Ok (cols, out) → length h ≤ out).
Proof.
  destruct (creating_pca_input_triple h d h) as [[hnew Hext] Hpost].
  { exists []. by rewrite app_nil_r. } { done. }
  split; [by exists hnew|]. split.
  - intros l a Hl. rewrite Hext. by apply lookup_app_l_Some.
  - intros cols out Hrun. apply (Hpost _ Hrun).
Qed.

Lemma creating_pca_input_explicit h d R C S vals :
  valid_set h d [R; C] S vals → 0 < S → d ≠ [] →
  creating_pca_input d h
  = (Ok (zip (dict_keys d) (seq (length h) (length d)), length h + length d),
     h ++ (pca_column S R C <$> vals) ++ [pca_table S R C vals]).
Proof.
  intros (Hnd & Hvals & Hall) HS Hne.
  assert (Hloop := pca_columns_loop S R C d HS d vals [] h).
  cbn [app] in Hloop.
  assert (Hin : ∀ k refs, (k, refs) ∈ d → dict_get d k = Ok refs).
  { intros k refs Hk. apply list_elem_of_lookup in Hk as [i Hi].
    by destruct (dict_get_lookup d i k refs Hnd Hi). }
  specialize (Hloop Hin (λ a _, not_elem_of_nil a) Hnd Hvals Hall).
  set (columns := pca_column S R C <$> vals) in *.
  assert (Hlen : length (dict_keys d) = length columns).
  { unfold columns, dict_keys. rewrite !length_fmap. by eapply Forall2_length. }
  assert (Hlend : length d = length columns).
  { unfold dict_keys in Hlen. by rewrite length_fmap in Hlen. }
  pose proof (fresh_columns (dict_keys d) columns [] h Hnd Hlen) as Hread.
  rewrite app_nil_r in Hread.
  apply read_columns in Hread.
  unfold dict_keys in Hread at 2. rewrite length_fmap in Hread.
  unfold creating_pca_input.
  rewrite (run_bind_ok _ _ _ _ _ Hloop).
  rewrite (run_bind_ok _ _ _ _ _ Hread).
  rewrite run_bind, run_lift, (np_hstack_columns _ (size_of [C; R] * S)).
  - rewrite run_bind. unfold alloc at 1. rewrite run_ret. rewrite <- app_assoc.
    rewrite length_app. unfold pca_table. fold columns.
    replace (length vals) with (length columns) by (unfold columns; by rewrite length_fmap).
    rewrite <- Hlend. reflexivity.
  - unfold columns. destruct vals; [|done]. apply Forall2_nil_inv_r in Hvals. done.
  - unfold columns. apply Forall_fmap, Forall_forall. by intros arrs _.
Qed.

(** X10. [creating_pca_input] rebinds every key of the dictionary it is
    given: after the call each metric names its flattened column, a new
    array of shape (R*C*S, 1) that lists, subject after subject, the matrix
    of the subject column by column. *)
Theorem creating_pca_input_columns h d R C S vals :
  valid_set h d [R; C] S vals → 0 < S → d ≠ [] →
  ∃ cols out hnew,
    creating_pca_input d h = (Ok (cols, out), h ++ hnew)
    ∧ dict_keys cols = dict_keys d
    ∧ ∀ j k refs arrs,
        d !! j = Some (k, refs) → vals !! j = Some arrs →
        ∃ l col,
          dict_get cols k = Ok l ∧ length h ≤ l ∧ (h ++ hnew) !! l = Some col
          ∧ shape col = [R * C * S; 1]
          ∧ ∀ s r c, s < S → r < R → c < C →
              data col !! (s * (C * R) + c * R + r)
              = arrs !! s ≫= λ a, data a !! (r * C + c).
Proof.
  intros Hvalid HS Hne.
  pose proof (creating_pca_input_explicit h d R C S vals Hvalid HS Hne) as Hrun.
  destruct Hvalid as (Hnd & Hvals & Hall).
  pose proof (Forall2_length _ _ _ Hvals) as Hlen.
  assert (length (dict_keys d) = length (seq (length h) (length d))) as Hlk
    by (unfold dict_keys; by rewrite length_fmap, length_seq).
  eexists _, _, _. split; [exact Hrun|]. split; [by apply dict_keys_zip|].
  intros j k refs arrs Hj Hv.
  assert (j < length d) as Hjd by (by eapply lookup_lt_Some).
  exists (length h + j), (pca_column S R C arrs).
  split; [|split; [lia|split; [|split]]].
  - assert (zip (dict_keys d) (seq (length h) (length d)) !! j = Some (k, length h + j)) as Hz.
    { rewrite lookup_zip_with. unfold dict_keys.
      unfold metric_dict, pydict in *. rewrite list_lookup_fmap, Hj. simpl.
      by rewrite lookup_seq_lt. }
    apply (dict_get_lookup _ j k (length h + j)); [|done].
    by rewrite dict_keys_zip.
  - rewrite lookup_app_r by lia. rewrite lookup_app_l by (rewrite length_fmap; lia).
    replace (length h + j - length h) with j by lia.
    by rewrite list_lookup_fmap, Hv.
  - destruct (pca_column_shape S R C arrs) as [-> _]. cbn. f_equal. lia.
  - intros s r c Hs Hr Hc.
    apply (proj1 (Forall_lookup _ _) Hall) in Hv as [Hla Hsa].
    by apply pca_column_lookup.
Qed.

Lemma creating_pca_input_columns_witness :
  ∃ cols out hnew,
    creating_pca_input Table.d Table.h = (Ok (cols, out), Table.h ++ hnew)
    ∧ dict_keys cols = dict_keys Table.d
    ∧ ∀ j k refs arrs,
        Table.d !! j = Some (k, refs) → Table.vals !! j = Some arrs →
        ∃ l col,
          dict_get cols k = Ok l ∧ length Table.h ≤ l
          ∧ (Table.h ++ hnew) !! l = Some col
          ∧ shape col = [2 * 3 * 2; 1]
          ∧ ∀ s r c, s < 2 → r < 2 → c < 3 →
              data col !! (s * (3 * 2) + c * 2 + r)
              = arrs !! s ≫= λ a, data a !! (r * 3 + c).
Proof.
  apply (creating_pca_input_columns Table.h Table.d 2 3 2 Table.vals).
  - split; [|split].
    + apply (bool_decide_unpack _). vm_compute. exact I.
    + repeat constructor.
    + repeat constructor.
  - lia.
  - discriminate.
Defined.

(** X11. [creating_pca_input] on an empty dictionary raises [ValueError]
    (nothing to stack side by side), and on a dictionary whose first metric
    has no subject [AxisError] (the empty stack has no axis 1); the store is
    as it was. *)
Theorem creating_pca_input_empty d h :
  d = [] ∨ (∃ k rest, d = (k, []) :: rest) →
  creating_pca_input d h
  = (Raise (if decide (d = []) then ValueError else AxisError), h).
Proof.
  intros [-> | (k & rest & ->)]; [reflexivity|].
  rewrite decide_False by done. unfold creating_pca_input.
  cbn [dict_keys fmap list_fmap fst for_fold].
  rewrite run_bind, run_bind, run_bind, run_lift. cbn [dict_get].
  rewrite decide_True by done. reflexivity.
Qed.

Lemma creating_pca_input_empty_witness :
  creating_pca_input [("fa"%string, [])] Table.h
  = (Raise (if decide ([("fa"%string, @nil loc)] = []) then ValueError else AxisError),
     Table.h).
Proof.
  apply (creating_pca_input_empty [("fa"%string, [])] Table.h).
  right. by exists "fa"%string, [].
Defined.

(** ** [restore_zero_values] and the unpacking of the scores *)

Lemma restore_zero_values_lookup orig new :
  shape orig = shape new → wf_array orig → wf_array new →
  ∃ r, restore_zero_values orig new = Ok r
       ∧ shape r = shape new ∧ wf_array r
       ∧ ∀ q, q < size_of (shape new) →
           data r !! q = Some (if decide (nth q (data orig) 0%Z = 0%Z) then 0%Z
                               else nth q (data new) 0%Z).
Proof.
  intros Hsh Hwo Hwn. unfold restore_zero_values.
  rewrite (np_multiply_same _ _ (shape new)); [|done|done|done|].
  2:{ unfold wf_array in *. cbn [data shape]. unfold assign_where.
      by rewrite length_fmap. }
  eexists. split; [done|]. split; [done|]. split.
  - unfold wf_array in *. cbn [data shape]. unfold assign_where.
    rewrite length_zip_with, length_fmap, Hwo, Hwn, Hsh. lia.
  - intros q Hq. cbn [data]. unfold assign_where.
    rewrite lookup_zip_with, list_lookup_fmap.
    unfold wf_array in *.
    rewrite !lookup_nth_Z by (rewrite ?Hwo, ?Hwn, ?Hsh; done). simpl.
    f_equal. case_bool_decide; case_decide; try done; lia.
Qed.

(** X12. [restore_zero_values] on two arrays of one shape returns an array of
    that shape which is zero where [orig] is zero and has the value of [new]
    everywhere else. *)
Theorem restore_zero_values_cells orig new :
  shape orig = shape new → wf_array orig → wf_array new →
  ∃ r, restore_zero_values orig new = Ok r
       ∧ shape r = shape new ∧ wf_array r
       ∧ ∀ q, q < size_of (shape new) →
           data r !! q = Some (if decide (nth q (data orig) 0%Z = 0%Z) then 0%Z
                               else nth q (data new) 0%Z).
Proof. apply restore_zero_values_lookup. Qed.

Lemma restore_zero_values_cells_witness :
  ∃ r, restore_zero_values (Scenario.m22 1 0 2 3) (Scenario.m22 7 8 9 0) = Ok r
       ∧ shape r = shape (Scenario.m22 7 8 9 0) ∧ wf_array r
       ∧ ∀ q, q < size_of (shape (Scenario.m22 7 8 9 0)) →
           data r !! q
           = Some (if decide (nth q (data (Scenario.m22 1 0 2 3)) 0%Z = 0%Z) then 0%Z
                   else nth q (data (Scenario.m22 7 8 9 0)) 0%Z).
Proof.
  apply (restore_zero_values_cells (Scenario.m22 1 0 2 3) (Scenario.m22 7 8 9 0));
    reflexivity.
Defined.

Lemma unpack_components_lookup x out M S R C :
  shape x = [S * (R * C); M] → shape out = [S * (R * C); M] →
  wf_array x → wf_array out →
  ∃ res, unpack_components x out M S [R; C] = Ok res
    ∧ shape res = [M; S; R; C]
    ∧ ∀ m s q, m < M → s < S → q < R * C →
        data (component res m s) !! q
        = Some (if decide (nth ((s * (R * C) + q) * M + m) (data x) 0%Z = 0%Z) then 0%Z
                else nth ((s * (R * C) + q) * M + m) (data out) 0%Z).
Proof.
  intros Hx Hout Hwx Hwout.
  destruct (restore_zero_values_lookup x out) as (r & Hr & Hrs & Hrw & Hcells);
    [congruence|done|done|].
  destruct r as [rsh rbuf]. cbn [shape] in Hrs. rewrite Hout in Hrs. subst rsh.
  rewrite Hout in Hcells. cbn [data] in Hcells.
  exists (NdArray [M; S; R; C] (data (np_transpose [1; 0] (NdArray [S * (R * C); M] rbuf)))).
  split; [|split; [done|]].
  - unfold unpack_components. rewrite Hr. cbn [mbind result_bind rbind].
    unfold np_swapaxes. cbn [shape length]. rewrite !decide_False by lia.
    cbn [mbind result_bind rbind list_get lookup list_lookup seq insert list_insert].
    unfold np_reshape. rewrite decide_True; [done|].
    unfold np_transpose. cbn. lia.
  - intros m s q Hm Hs Hq.
    rewrite (component_lookup _ M S R C) by done. cbn [data].
    assert (s * (R * C) + q < S * (R * C)) as Hrow by nia.
    rewrite <- Nat.add_assoc, transpose_10_lookup by done.
    assert ((s * (R * C) + q) * M + m < size_of [S * (R * C); M]) as Hcell.
    { cbn. nia. }
    specialize (Hcells _ Hcell). f_equal. by apply nth_lookup_Some with (d := 0%Z) in Hcells.
Qed.


(** X13. Unpacking the scores: for a standardized table [x] and scores [out]
    of shape (S*R*C, M), [unpack_components] returns an array of shape
    (M, S, R, C) in which cell [q] of the matrix of component [m] and subject
    [s] is the score in row [s*R*C + q], column [m], or zero where the table
    is zero there. *)
Theorem unpack_components_cells x out M S R C :
  shape x = [S * (R * C); M] → shape out = [S * (R * C); M] →
  wf_array x → wf_array out →
  ∃ res, unpack_components x out M S [R; C] = Ok res
    ∧ shape res = [M; S; R; C]
    ∧ ∀ m s q, m < M → s < S → q < R * C →
        data (component res m s) !! q
        = Some (if decide (nth ((s * (R * C) + q) * M + m) (data x) 0%Z = 0%Z) then 0%Z
                else nth ((s * (R * C) + q) * M + m) (data out) 0%Z).
Proof. apply unpack_components_lookup. Qed.

Lemma unpack_components_cells_witness :
  ∃ res, unpack_components (NdArray [4; 1] [1; 0; 2; 3]%Z) (NdArray [4; 1] [7; 8; 9; 5]%Z)
           1 1 [2; 2] = Ok res
    ∧ shape res = [1; 1; 2; 2]
    ∧ ∀ m s q, m < 1 → s < 1 → q < 2 * 2 →
        data (component res m s) !! q
        = Some (if decide (nth ((s * (2 * 2) + q) * 1 + m)
                             (data (NdArray [4; 1] [1; 0; 2; 3]%Z)) 0%Z = 0%Z) then 0%Z
                else nth ((s * (2 * 2) + q) * 1 + m)
                       (data (NdArray [4; 1] [7; 8; 9; 5]%Z)) 0%Z).
Proof.
  apply (unpack_components_cells (NdArray [4; 1] [1; 0; 2; 3]%Z)
           (NdArray [4; 1] [7; 8; 9; 5]%Z) 1 1 2 2); reflexivity.
Defined.

(** ** The round trip on symmetric matrices *)

(** X14. On square symmetric matrices the round trip (flatten with
    [creating_pca_input], unpack with the identity as decomposition) gives
    every subject's matrix back as it was. *)
Theorem round_trip_symmetric h d N S vals :
  valid_set h d [N; N] S vals → 0 < S → d ≠ [] →
  Forall (Forall (symmetric N)) vals →
  ∃ out hnew,
    round_trip d S [N; N] h = (Ok out, h ++ hnew)
    ∧ ∀ m arrs s a, vals !! m = Some arrs → arrs !! s = Some a →
        component out m s = a.
Proof.
  intros Hvalid HS Hne Hsym.
  destruct (round_trip_transposes h d N S vals Hvalid HS Hne)
    as (out & hnew & Hrun & Hsh & Hcells).
  exists out, hnew. split; [done|].
  intros m arrs s a Hm Hs.
  destruct Hvalid as (_ & _ & Hall).
  apply (proj1 (Forall_lookup _ _) Hall _ _) in Hm as Hvm. destruct Hvm as [Hlen Hshape].
  apply (proj1 (Forall_lookup _ _) Hshape _ _) in Hs as Ha. destruct Ha as [Has Hwa].
  apply (proj1 (Forall_lookup _ _) Hsym _ _) in Hm as Hsm.
  apply (proj1 (Forall_lookup _ _) Hsm _ _) in Hs as Hsa.
  assert (s < S) as HsS by (rewrite <- Hlen; by eapply lookup_lt_Some).
  unfold wf_array in Hwa. rewrite Has in Hwa. cbn in Hwa.
  destruct a as [ash abuf]. cbn [shape data] in *. subst ash.
  assert (data (component out m s) = abuf) as E.
  { apply list_eq. intros q. destruct (decide (q < N * N)) as [Hq|Hq].
    - assert (0 < N) as HN by (destruct N; lia).
      assert (q = q / N * N + q mod N) as Eq
        by (rewrite (Nat.div_mod q N) at 1 by lia; lia).
      assert (q / N < N) as Hi by (apply Nat.Div0.div_lt_upper_bound; lia).
      assert (q mod N < N) as Hj by (apply Nat.mod_upper_bound; lia).
      rewrite Eq at 1. rewrite (Hcells m arrs s _ _ Hm HsS Hi Hj), Hs. simpl.
      rewrite !lookup_nth_Z by nia.
      pose proof (Hsa _ _ Hi Hj) as Es. cbn [data] in Es.
      f_equal. rewrite <- Es. by rewrite <- Eq.
    - rewrite !lookup_ge_None_2; [done|lia|].
      unfold component. rewrite Hsh. cbn [shape drop data size_of foldr].
      rewrite length_take. lia. }
  unfold component in *. cbn [data] in E. rewrite E, Hsh. reflexivity.
Qed.

Lemma round_trip_symmetric_witness :
  ∃ out hnew,
    round_trip [("fa"%string, [0])] 1 [2; 2] [Scenario.m22 1 2 2 4]
    = (Ok out, [Scenario.m22 1 2 2 4] ++ hnew)
    ∧ ∀ m arrs s a, [[Scenario.m22 1 2 2 4]] !! m = Some arrs → arrs !! s = Some a →
        component out m s = a.
Proof.
  apply (round_trip_symmetric [Scenario.m22 1 2 2 4] [("fa"%string, [0])] 2 1
           [[Scenario.m22 1 2 2 4]]).
  - split; [|split].
    + apply (bool_decide_unpack _). vm_compute. exact I.
    + repeat constructor.
    + repeat constructor.
  - lia.
  - discriminate.
  - repeat constructor.
    intros i j Hi Hj.
    destruct i as [|[|i]]; destruct j as [|[|j]]; try lia; reflexivity.
Defined.

(** ** Saving: any order of the eigenvalues, and the file names *)

Lemma save_components_run in_folder subjects eig out M R C :
  shape out = [M; length subjects; R; C] → retained eig ≤ M →
  save_components in_folder subjects eig out
  = Ok (i ← seq 0 (retained eig); s ← seq 0 (length subjects);
        [(pc_path in_folder (nth s subjects ""%string) i, component out i s)]).
Proof.
  intros Hsh Hk. unfold save_components. fold (retained eig).
  rewrite (rmapM_ok _ (λ i, (λ s, (pc_path in_folder (nth s subjects ""%string) i,
                                     component out i s)) <$> seq 0 (length subjects))).
  - cbn. f_equal. induction (seq 0 (retained eig)) as [|i l IH]; [done|].
    rewrite fmap_cons, bind_cons. cbn [concat]. rewrite IH. f_equal.
  - intros i Hi%elem_of_seq. apply rmapM_ok. intros s Hs%elem_of_seq.
    unfold list_get. destruct (lookup_lt_is_Some_2 subjects s) as [a Ha]; [lia|].
    rewrite Ha. cbn.
    rewrite (np_getitem_component out i s M (length subjects) R C Hsh) by lia.
    cbn. by rewrite (nth_lookup_Some _ _ ""%string _ Ha).
Qed.

(** X15. Whatever the order of the eigenvalues, [save_components] writes the
    FIRST k components, k being the number of eigenvalues that are at least
    1: one file per component and subject, component after component, named
    PC1 to PCk. *)
Theorem save_components_first_k in_folder subjects eig out M R C :
  shape out = [M; length subjects; R; C] → retained eig ≤ M →
  ∃ files,
    save_components in_folder subjects eig out = Ok files
    ∧ length files = retained eig * length subjects
    ∧ ∀ i s, i < retained eig → s < length subjects →
        files !! (i * length subjects + s)
        = Some (pc_path in_folder (nth s subjects ""%string) i, component out i s).
Proof.
  intros Hsh Hk. eexists. split; [by apply (save_components_run _ _ _ _ M R C)|].
  assert (∀ i, i ∈ seq 0 (retained eig) →
            length (s ← seq 0 (length subjects);
                    [(pc_path in_folder (nth s subjects ""%string) i, component out i s)])
            = length subjects) as Hinner.
  { intros i _. rewrite (length_bind_uniform _ _ 1) by done. rewrite length_seq. lia. }
  split.
  - rewrite (length_bind_uniform _ _ (length subjects)) by done. by rewrite length_seq.
  - intros i s Hi Hs.
    rewrite (lookup_bind_uniform _ _ (length subjects)) by done.
    rewrite lookup_seq_lt by done. cbn [mbind option_bind].
    replace s with (s * 1 + 0) at 1 by lia.
    rewrite (lookup_bind_uniform _ _ 1) by (done || lia).
    rewrite lookup_seq_lt by done. done.
Qed.

Lemma save_components_first_k_witness :
  ∃ files,
    save_components "in" ["A"] [1#2; 2#1]%Q Eigen.out = Ok files
    ∧ length files = retained [1#2; 2#1]%Q * length ["A"%string]
    ∧ ∀ i s, i < retained [1#2; 2#1]%Q → s < length ["A"%string] →
        files !! (i * length ["A"%string] + s)
        = Some (pc_path "in" (nth s ["A"%string] ""%string) i, component Eigen.out i s).
Proof.
  apply (save_components_first_k "in" ["A"%string] [1#2; 2#1]%Q Eigen.out 2 1 1).
  - reflexivity.
  - vm_compute. lia.
Defined.

Lemma string_length_append (s t : string) :
  String.length (s +:+ t) = String.length s + String.length t.
Proof.
  induction s as [|a s IH]; [done|].
  change (S (String.length (s +:+ t)) = S (String.length s + String.length t)).
  by rewrite IH.
Qed.

Lemma string_app_inj_r (t s1 s2 : string) : s1 +:+ t = s2 +:+ t → s1 = s2.
Proof.
  revert s2. induction s1 as [|a s1 IH]; intros [|b s2] E; [done| | |].
  - change (t = String b (s2 +:+ t)) in E. apply (f_equal String.length) in E.
    change (String.length t = S (String.length (s2 +:+ t))) in E.
    rewrite string_length_append in E. lia.
  - change (String a (s1 +:+ t) = t) in E. apply (f_equal String.length) in E.
    change (S (String.length (s1 +:+ t)) = String.length t) in E.
    rewrite string_length_append in E. lia.
  - change (String a (s1 +:+ t) = String b (s2 +:+ t)) in E.
    injection E as -> E. f_equal. by apply IH.
Qed.

(** X16. The name of a component file determines the component for a given
    subject and the subject for a given component: within one subject no two
    components are written to the same file, nor are two subjects' matrices
    of one component. *)
Theorem pc_path_inj in_folder a b i j :
  pc_path in_folder a i = pc_path in_folder b j →
  (a = b → i = j) ∧ (i = j → a = b).
Proof.
  unfold pc_path. intros E.
  apply (inj (String.app in_folder)), (inj (String.app "/")) in E. split.
  - intros ->.
    apply (inj (String.app b)), (inj (String.app "/Compute_Connectivity/PC")) in E.
    apply string_app_inj_r, (inj pretty) in E. lia.
  - intros ->. by apply string_app_inj_r in E.
Qed.

Lemma pc_path_inj_witness :
  ("A"%string = "A"%string → 0 = 0) ∧ (0 = 0 → "A"%string = "A"%string).
Proof. apply (pc_path_inj "in" "A" "A" 0 0). reflexivity. Defined.

(** ** Loading a complete store *)

Section LoadRun.
Context (matrix_store : string → option ndarray) (in_folder : string)
  (subjects : list string).

Lemma load_subjects_run m (subjs : list string) (arrs : list ndarray) :
  Forall2 (λ a arr, matrix_store (matrix_path in_folder a m) = Some arr) subjs arrs →
  ∀ H : heap,
  py_mapM (λ a, load_matrix_in_any_format matrix_store (matrix_path in_folder a m)) subjs H
  = (Ok (seq (length H) (length subjs)), H ++ arrs).
Proof.
  induction 1 as [|a arr subjs arrs Ha _ IH]; intros H.
  - by rewrite app_nil_r.
  - cbn [py_mapM]. rewrite run_bind. unfold load_matrix_in_any_format at 1.
    rewrite Ha. unfold alloc at 1.
    rewrite (run_bind_ok _ _ _ _ _ (IH (H ++ [arr]))), run_ret.
    rewrite length_app, <- app_assoc. cbn [length seq app].
    by rewrite Nat.add_1_r.
Qed.

Lemma load_all_loop_run (metrics : list string) (vals : list (list ndarray)) :
  stored matrix_store in_folder subjects metrics vals →
  ∀ (d : metric_dict) (H : heap),
  NoDup (dict_keys d ++ metrics) →
  ∃ dnew : metric_dict,
    for_fold metrics d (λ d m,
      l ← py_mapM (λ a, load_matrix_in_any_format matrix_store
                          (matrix_path in_folder a m)) subjects;
      mret (dict_set d m l)) H
    = (Ok (d ++ dnew), H ++ concat vals)
    ∧ dict_keys dnew = metrics
    ∧ set_values (H ++ concat vals) dnew vals
    ∧ concat (dnew.*2) = seq (length H) (length (concat vals)).
Proof.
  induction 1 as [|m arrs metrics vals Hm _ IH]; intros d H Hnd.
  - exists []. rewrite !app_nil_r. repeat split; constructor.
  - assert (m ∉ dict_keys d) as Hfresh.
    { apply NoDup_app in Hnd as (_ & Hdis & _). intros Hin. apply (Hdis m Hin). left. }
    destruct (IH (d ++ [(m, seq (length H) (length subjects))]) (H ++ arrs))
      as (dnew & Hrun & Hkeys & Hset & Hrefs).
    { unfold dict_keys in *. rewrite fmap_app, <- app_assoc. exact Hnd. }
    exists ((m, seq (length H) (length subjects)) :: dnew).
    split; [|split; [|split]].
    + cbn [for_fold]. rewrite run_bind, run_bind, (load_subjects_run m subjects arrs Hm H).
      rewrite run_ret, dict_set_fresh by done.
      etrans; [exact Hrun|]. cbn [concat]. by rewrite <- !app_assoc.
    + unfold dict_keys in *. cbn. by rewrite Hkeys.
    + cbn [concat]. constructor.
      * cbn [snd]. rewrite (Forall2_length _ _ _ Hm). apply holds_fresh.
      * by rewrite app_assoc.
    + cbn [fmap list_fmap snd concat]. rewrite Hrefs, !length_app.
      rewrite <- (Forall2_length _ _ _ Hm). by rewrite seq_app.
Qed.

Lemma load_all_run (metrics : list string) (vals : list (list ndarray)) sh h :
  NoDup metrics → stored matrix_store in_folder subjects metrics vals →
  Forall (same_shape sh) vals →
  ∃ d, load_all matrix_store in_folder subjects metrics h = (Ok d, h ++ concat vals)
       ∧ dict_keys d = metrics
       ∧ valid_set (h ++ concat vals) d sh (length subjects) vals
       ∧ concat (d.*2) = seq (length h) (length (concat vals)).
Proof.
  intros Hnd Hst Hsh.
  destruct (load_all_loop_run metrics vals Hst [] h Hnd) as (d & Hrun & Hkeys & Hset & Hrefs).
  exists d. split; [exact Hrun|]. split; [done|]. split; [|done].
  split; [by rewrite Hkeys|]. split; [done|].
  apply Forall_forall. intros arrs Harrs. split.
  - apply list_elem_of_lookup in Harrs as [j Hj].
    destruct (Forall2_lookup_r _ _ _ _ _ Hst Hj) as (m & _ & Hm).
    by rewrite (Forall2_length _ _ _ Hm).
  - by apply (proj1 (Forall_forall _ _) Hsh).
Qed.
End LoadRun.

(** X17. When every (subject, metric) pair has a stored matrix of one shape
    and the metric names are distinct, [load_all] returns a valid set: the
    metrics in command-line order, each with the stored matrices in subject
    order, every matrix loaded into a new array object of its own (the
    references of the dictionary are the consecutive new locations, so no two
    entries share an array). *)
Theorem load_all_valid_set matrix_store in_folder subjects metrics vals sh h :
  NoDup metrics → stored matrix_store in_folder subjects metrics vals →
  Forall (same_shape sh) vals →
  ∃ d, load_all matrix_store in_folder subjects metrics h = (Ok d, h ++ concat vals)
       ∧ dict_keys d = metrics
       ∧ valid_set (h ++ concat vals) d sh (length subjects) vals
       ∧ concat (d.*2) = seq (length h) (length (concat vals)).
Proof. apply load_all_run. Qed.

Lemma load_all_valid_set_witness :
  ∃ d, load_all Files.store "in" ["A"; "B"] ["fa"; "md"] [] = (Ok d, [] ++ concat Table.vals)
       ∧ dict_keys d = ["fa"; "md"]%string
       ∧ valid_set ([] ++ concat Table.vals) d [2; 3] (length ["A"; "B"]%string) Table.vals
       ∧ concat (d.*2) = seq (length (@nil ndarray)) (length (concat Table.vals)).
Proof.
  apply (load_all_valid_set Files.store "in" ["A"; "B"]%string ["fa"; "md"]%string
           Table.vals [2; 3] []).
  - apply (bool_decide_unpack _). vm_compute. exact I.
  - repeat constructor.
  - repeat constructor.
Defined.

(** ** Lines 177-202 of [main]: from the files to the table *)

Lemma first_shape_run h (d : metric_dict) sh n vals :
  valid_set h d sh n vals → 0 < n → d ≠ [] →
  first_shape d (dict_keys d) h = (Ok sh, h).
Proof.
  intros (Hnd & Hvals & Hall) Hn Hne.
  destruct Hvals as [|[k refs] arrs d' vals' Hholds _]; [done|].
  apply Forall_cons in Hall as [[Hlen Hsh] _].
  simpl in Hholds. destruct Hholds as [|x a refs' arrs' Hx _]; [simpl in Hlen; lia|].
  apply Forall_cons in Hsh as [[Ha _] _].
  unfold first_shape. cbn [dict_keys fmap list_fmap fst list_get lookup list_lookup].
  rewrite run_bind, run_lift, run_bind, run_lift. cbn [dict_get].
  rewrite decide_True by done.
  rewrite run_bind, run_lift. cbn [list_get lookup list_lookup].
  rewrite run_bind, (run_deref _ _ _ Hx), run_ret. by rewrite Ha.
Qed.

Lemma stored_lookup matrix_store in_folder subjects metrics vals j m s a :
  stored matrix_store in_folder subjects metrics vals →
  metrics !! j = Some m → subjects !! s = Some a →
  ∃ arrs, vals !! j = Some arrs
          ∧ arrs !! s = matrix_store (matrix_path in_folder a m).
Proof.
  intros Hst Hm Ha.
  destruct (Forall2_lookup_l _ _ _ _ _ Hst Hm) as (arrs & Hv & Hsub).
  destruct (Forall2_lookup_l _ _ _ _ _ Hsub Ha) as (arr & Harr & Hs).
  exists arrs. split; [done|]. by rewrite Hs.
Qed.

Lemma main_input_run matrix_store in_folder subjects metrics vals R C h :
  NoDup metrics → metrics ≠ [] → subjects ≠ [] →
  stored matrix_store in_folder subjects metrics vals →
  Forall (same_shape [R; C]) vals →
  ∃ df hnew,
    main_input matrix_store in_folder subjects metrics false h
    = (Ok ([R; C], df), h ++ hnew)
    ∧ (h ++ hnew) !! df = Some (pca_table (length subjects) R C vals).
Proof.
  intros Hnd Hm Hs Hst Hsh.
  destruct (load_all_run matrix_store in_folder subjects metrics vals [R; C] h Hnd Hst Hsh)
    as (d & Hload & Hkeys & Hvalid & _).
  assert (0 < length subjects) as HS by (destruct subjects; [done|simpl; lia]).
  assert (d ≠ []) as Hd by (intros ->; by rewrite <- Hkeys in Hm).
  pose proof (first_shape_run _ _ _ _ _ Hvalid HS Hd) as Hfirst. rewrite Hkeys in Hfirst.
  destruct (creating_pca_input_pca_table _ _ _ _ _ _ Hvalid HS Hd)
    as (cols & df & hnew & Hrun & Hdf).
  exists df, (concat vals ++ hnew). rewrite app_assoc. split; [|done].
  unfold main_input.
  rewrite (run_bind_ok _ _ _ _ _ Hload), (run_bind_ok _ _ _ _ _ Hfirst).
  rewrite run_bind, run_ret, (run_bind_ok _ _ _ _ _ Hrun). reflexivity.
Qed.

(** X18. Lines 177-202 of [main] as a block, from the files to the table,
    without the common-connection block: given distinct metric names, at
    least one metric and one subject, and a stored R x C matrix for every
    pair, the block returns the shape (R, C) and a table of shape (R*C*S, M)
    whose cell in row [s*R*C + c*R + r] and column [j] is cell (r, c) of the
    stored matrix of subject [s] and metric [j]. *)
Theorem main_input_table matrix_store in_folder subjects metrics vals R C h :
  NoDup metrics → metrics ≠ [] → subjects ≠ [] →
  stored matrix_store in_folder subjects metrics vals →
  Forall (same_shape [R; C]) vals →
  ∃ df hnew table,
    main_input matrix_store in_folder subjects metrics false h
    = (Ok ([R; C], df), h ++ hnew)
    ∧ (h ++ hnew) !! df = Some table
    ∧ shape table = [R * C * length subjects; length metrics]
    ∧ wf_array table
    ∧ ∀ j m s a r c,
        metrics !! j = Some m → subjects !! s = Some a → r < R → c < C →
        data table !! ((s * (C * R) + c * R + r) * length metrics + j)
        = matrix_store (matrix_path in_folder a m) ≫= λ arr, data arr !! (r * C + c).
Proof.
  intros Hnd Hm Hs Hst Hsh.
  destruct (main_input_run matrix_store in_folder subjects metrics vals R C h
              Hnd Hm Hs Hst Hsh) as (df & hnew & Hrun & Hdf).
  pose proof (Forall2_length _ _ _ Hst) as Hlen.
  exists df, hnew, (pca_table (length subjects) R C vals).
  split; [done|]. split; [done|]. split; [|split].
  - unfold pca_table. cbn. rewrite Hlen. f_equal. lia.
  - apply pca_table_wf.
  - intros j m s a r c Hj Hsub Hr Hc.
    destruct (stored_lookup _ _ _ _ _ j m s a Hst Hj Hsub) as (arrs & Hv & Harr).
    rewrite Hlen, <- Harr.
    apply pca_table_lookup; [|done|by eapply lookup_lt_Some|done|done].
    apply Forall_forall. intros arrs' Harrs'. split.
    + apply list_elem_of_lookup in Harrs' as [j' Hj'].
      destruct (Forall2_lookup_r _ _ _ _ _ Hst Hj') as (m' & _ & Hm').
      by rewrite (Forall2_length _ _ _ Hm').
    + by apply (proj1 (Forall_forall _ _) Hsh).
Qed.

Lemma main_input_table_witness :
  ∃ df hnew table,
    main_input Files.store "in" ["A"; "B"] ["fa"; "md"] false [] = (Ok ([2; 3], df), [] ++ hnew)
    ∧ ([] ++ hnew) !! df = Some table
    ∧ shape table = [2 * 3 * length ["A"; "B"]%string; length ["fa"; "md"]%string]
    ∧ wf_array table
    ∧ ∀ j m s a r c,
        ["fa"; "md"]%string !! j = Some m → ["A"; "B"]%string !! s = Some a →
        r < 2 → c < 3 →
        data table !! ((s * (3 * 2) + c * 2 + r) * length ["fa"; "md"]%string + j)
        = Files.store (matrix_path "in" a m) ≫= λ arr, data arr !! (r * 3 + c).
Proof.
  apply (main_input_table Files.store "in" ["A"; "B"]%string ["fa"; "md"]%string
           Table.vals 2 3 []).
  - apply (bool_decide_unpack _). vm_compute. exact I.
  - discriminate.
  - discriminate.
  - repeat constructor.
  - repeat constructor.
Defined.

(** ** Lines 177-202 of [main]: inputs they cannot process *)

Lemma extracting_common_cnx_no_metric (d : metric_dict) ind h :
  length d ≤ ind → extracting_common_cnx d ind h = (Raise IndexError, h).
Proof.
  intros Hlen. unfold extracting_common_cnx. rewrite run_bind, run_lift. unfold list_get.
  rewrite lookup_ge_None_2; [done|]. unfold dict_keys. by rewrite length_fmap.
Qed.

Lemma common_block_few (d : metric_dict) sh h :
  length d < 2 → ∃ e, (common_block d sh h).1 = Raise e.
Proof.
  intros Hlen. unfold common_block. rewrite run_bind.
  destruct (extracting_common_cnx d 0 h) as [[l1|e] h1]; [|by exists e].
  rewrite run_bind, extracting_common_cnx_no_metric by lia. by exists IndexError.
Qed.

(** X20. With the common-connection block and fewer than two metrics,
    [main_input] never returns a table: whatever is stored, it ends with an
    exception (the block always extracts the mask of a second metric). *)
Theorem main_input_few_metrics matrix_store in_folder subjects metrics h :
  length metrics < 2 →
  ∃ e, (main_input matrix_store in_folder subjects metrics true h).1 = Raise e.
Proof.
  intros Hlen. unfold main_input. rewrite run_bind.
  destruct (load_all matrix_store in_folder subjects metrics h) as [[d|e] h1] eqn:Hload;
    [|by exists e].
  assert (length d < 2) as Hd.
  { destruct metrics as [|m [|m' metrics]]; [| |simpl in Hlen; lia].
    - injection Hload as <- _. simpl. lia.
    - unfold load_all in Hload. cbn [for_fold] in Hload.
      rewrite run_bind, run_bind in Hload.
      destruct (py_mapM _ subjects h) as [[l|e] h2]; [|done].
      rewrite run_ret in Hload. injection Hload as <- _. simpl. lia. }
  rewrite run_bind.
  destruct (first_shape d metrics h1) as [[sh|e] h2]; [|by exists e].
  rewrite run_bind.
  destruct (common_block_few d sh h2 Hd) as [e He].
  destruct (common_block d sh h2) as [[d'|e'] h3]; [done|]. by exists e'.
Qed.

Lemma main_input_few_metrics_witness :
  ∃ e, (main_input Files.store "in" ["A"; "B"] ["fa"] true []).1 = Raise e.
Proof.
  apply (main_input_few_metrics Files.store "in" ["A"; "B"]%string ["fa"]%string []).
  simpl. lia.
Defined.

Lemma load_all_no_subject matrix_store in_folder (metrics : list string) :
  ∀ (d : metric_dict) h,
  for_fold metrics d (λ d m,
    l ← py_mapM (λ a, load_matrix_in_any_format matrix_store
                        (matrix_path in_folder a m)) [];
    mret (dict_set d m l)) h
  = (Ok (foldl (λ d m, dict_set d m []) d metrics), h).
Proof.
  induction metrics as [|m metrics IH]; intros d h; [done|].
  cbn [for_fold foldl]. rewrite run_bind. cbn [py_mapM].
  rewrite run_bind, !run_ret. apply IH.
Qed.

Lemma dict_get_foldl_set (metrics : list string) :
  ∀ (d : metric_dict) m0,
  dict_get d m0 = Ok [] →
  dict_get (foldl (λ d m, dict_set d m []) d metrics) m0 = Ok [].
Proof.
  induction metrics as [|m metrics IH]; intros d m0 Hd; [done|].
  cbn [foldl]. apply IH. destruct (decide (m = m0)) as [->|Hne].
  - apply dict_get_set_eq.
  - by rewrite dict_get_set_ne.
Qed.

(** X21. Lines 177-202 of [main] as a block: given no subject or no metric
    there is no first matrix to take the shape from; the block raises
    [IndexError] at line 183 and the store is as it was, with or without the
    common-connection block. *)
Theorem main_input_nothing_to_load matrix_store in_folder subjects metrics common h :
  subjects = [] ∨ metrics = [] →
  main_input matrix_store in_folder subjects metrics common h = (Raise IndexError, h).
Proof.
  intros [-> | ->]; [|reflexivity].
  unfold main_input, load_all.
  rewrite (run_bind_ok _ _ _ _ _ (load_all_no_subject matrix_store in_folder metrics [] h)).
  rewrite run_bind. unfold first_shape.
  destruct metrics as [|m0 metrics]; [reflexivity|].
  rewrite run_bind, run_lift. cbn [list_get lookup list_lookup].
  rewrite run_bind, run_lift. cbn [foldl].
  rewrite dict_get_foldl_set; [reflexivity|]. apply dict_get_set_eq.
Qed.

Lemma main_input_nothing_to_load_witness :
  main_input Files.store "in" [] ["fa"; "md"] true Table.h = (Raise IndexError, Table.h).
Proof.
  apply (main_input_nothing_to_load Files.store "in" [] ["fa"; "md"]%string true Table.h).
  by left.
Defined.


(** ** The loaded matrices through lines 183-202 of [main] *)

Lemma triple_guard h0 (P : Prop) `{!Decision P} e :
  triple h0 anyheap (if decide P then raise e else mret ()) (λ _ _, True).
Proof.
  destruct (decide P).
  - eapply triple_conseq; [done|apply triple_lift|done].
  - by apply triple_ret_pure.
Qed.

Lemma triple_any_pre h0 {A} (P : heap → Prop) (m : py A) Q :
  triple h0 anyheap m Q → triple h0 P m Q.
Proof. intros H. eapply triple_conseq; [|exact H|]; done. Qed.

Lemma first_shape_triple h0 d metrics :
  triple h0 anyheap (first_shape d metrics) (λ _ _, True).
Proof.
  unfold first_shape.
  eapply triple_bind_pure; [apply triple_lift|]. intros m0 _.
  eapply triple_bind_pure; [apply triple_lift|]. intros l _.
  eapply triple_bind_pure; [apply triple_lift|]. intros x _.
  eapply triple_bind_pure; [apply triple_deref_any|]. intros xa _.
  by apply triple_ret_pure.
Qed.

Lemma common_block_triple h0 d mat_shape :
  triple h0 anyheap (common_block d mat_shape) (λ _ _, True).
Proof.
  unfold common_block.
  eapply triple_bind; [apply extracting_common_cnx_triple|]. intros m1.
  apply triple_any_pre.
  eapply triple_bind; [apply extracting_common_cnx_triple|]. intros m2.
  apply triple_any_pre.
  eapply triple_bind_pure; [apply triple_deref_any|]. intros a1 _.
  eapply triple_bind_pure; [apply triple_guard|]. intros [] _.
  eapply triple_bind_pure; [apply triple_deref_any|]. intros a2 _.
  eapply triple_bind_pure; [apply triple_guard|]. intros [] _.
  apply apply_binary_mask_triple.
Qed.

Lemma after_load_triple h0 (d : metric_dict) metrics (common : bool) :
  triple h0 anyheap
    (mat_shape ← first_shape d metrics;
     d ← (if common then common_block d mat_shape else mret d);
     '(_, df) ← creating_pca_input d;
     mret (mat_shape, df))
    (λ r _, length h0 ≤ r.2).
Proof.
  eapply triple_bind_pure; [apply first_shape_triple|]. intros mat_shape _.
  apply (triple_bind_pure h0 _ _ (λ _, True)).
  { destruct common; [apply common_block_triple|by apply triple_ret_pure]. }
  intros d' _.
  eapply triple_bind_pure; [apply creating_pca_input_triple|]. intros [cols df] Hdf.
  by apply (triple_ret_pure h0 _ (λ r : list nat * loc, length h0 ≤ r.2)).
Qed.

(** X24. Once loaded, a matrix is never written to: whatever [main_input]
    does after the loading (taking the shape, the common-connection block,
    the flattening), and whether it returns or raises, the store at the end
    is the store after loading with new arrays appended, and a returned table
    is one of the new arrays. *)
Theorem main_input_keeps_loaded matrix_store in_folder subjects metrics common h d h1 :
  load_all matrix_store in_folder subjects metrics h = (Ok d, h1) →
  let run := main_input matrix_store in_folder subjects metrics common h in
  (∃ hnew, run.2 = h1 ++ hnew)
  ∧ (∀ l a, h1 !! l = Some a → run.2 !! l = Some a)
  ∧ (∀ sh df, run.1 = Ok (sh, df) → length h1 ≤ df).
Proof.
  intros Hload run.
  assert (run = (mat_shape ← first_shape d metrics;
                 d ← (if common then common_block d mat_shape else mret d);
                 '(_, df) ← creating_pca_input d;
                 mret (mat_shape, df)) h1) as ->.
  { unfold run, main_input. by rewrite (run_bind_ok _ _ _ _ _ Hload). }
  destruct (after_load_triple h1 d metrics common h1) as [[hnew Hext] Hpost].
  { exists []. by rewrite app_nil_r. } { done. }
  split; [by exists hnew|]. split.
  - intros l a Hl. rewrite Hext. by apply lookup_app_l_Some.
  - intros sh df Hrun. apply (Hpost _ Hrun).
Qed.

Lemma main_input_keeps_loaded_witness :
  let run := main_input Files.store "in" ["A"; "B"] ["fa"; "md"] true [] in
  (∃ hnew, run.2 = Table.h ++ hnew)
  ∧ (∀ l a, Table.h !! l = Some a → run.2 !! l = Some a)
  ∧ (∀ sh df, run.1 = Ok (sh, df) → length Table.h ≤ df).
Proof.
  apply (main_input_keeps_loaded Files.store "in" ["A"; "B"]%string ["fa"; "md"]%string
           true [] Table.d Table.h).
  reflexivity.
Defined.

(** ** [extracting_common_cnx]: more subjects, fewer common connections *)

(** X25. Adding subjects can only remove common connections: when a metric
    holds the matrices [arrs] in one dictionary and [arrs] followed by more
    matrices of the same shape in another, every cell retained by the mask of
    the larger population is retained by the mask of the smaller one. *)
Theorem extracting_common_cnx_more_subjects d d' ind ind' h k k' refs refs' arrs more sh :
  NoDup (dict_keys d) → d !! ind = Some (k, refs) → holds h refs arrs →
  NoDup (dict_keys d') → d' !! ind' = Some (k', refs') → holds h refs' (arrs ++ more) →
  arrs ≠ [] → same_shape sh (arrs ++ more) →
  ∃ l hnew l' hnew' mask mask',
    extracting_common_cnx d ind h = (Ok l, h ++ hnew)
    ∧ extracting_common_cnx d' ind' h = (Ok l', h ++ hnew')
    ∧ (h ++ hnew) !! l = Some mask
    ∧ (h ++ hnew') !! l' = Some mask'
    ∧ count_ones mask' ≤ count_ones mask
    ∧ ∀ j, j < size_of sh → data mask' !! j = Some 1%Z → data mask !! j = Some 1%Z.
Proof.
  intros Hnd Hk Hh Hnd' Hk' Hh' Hne Hsh'.
  assert (same_shape sh arrs) as Hsh by (by apply Forall_app in Hsh' as [? _]).
  assert (arrs ++ more ≠ []) as Hne' by (by destruct arrs).
  destruct (extracting_common_cnx_spec d ind h k refs arrs sh Hnd Hk Hh Hne Hsh)
    as (l & hnew & Hrun & Hl).
  destruct (extracting_common_cnx_spec d' ind' h k' refs' (arrs ++ more) sh
              Hnd' Hk' Hh' Hne' Hsh') as (l' & hnew' & Hrun' & Hl').
  exists l, hnew, l', hnew', (spec_common_mask sh arrs), (spec_common_mask sh (arrs ++ more)).
  split; [done|]. split; [done|]. split; [done|]. split; [done|].
  assert (∀ j, j < size_of sh →
            data (spec_common_mask sh (arrs ++ more)) !! j = Some 1%Z →
            data (spec_common_mask sh arrs) !! j = Some 1%Z) as Hcells.
  { intros j Hj. rewrite !lookup_spec_common_mask by done.
    destruct (decide _) as [H1|H1]; [|done]. intros _.
    apply Forall_app in H1 as [H1 _]. by rewrite decide_True. }
  split; [|done].
  unfold count_ones.
  pose proof (spec_common_mask_length sh arrs Hsh) as Hlen.
  pose proof (spec_common_mask_length sh (arrs ++ more) Hsh') as Hlen'.
  revert Hcells Hlen Hlen'.
  generalize (data (spec_common_mask sh (arrs ++ more))) as b'.
  generalize (data (spec_common_mask sh arrs)) as b.
  generalize (size_of sh) as sz.
  intros sz b. revert sz. induction b as [|x b IH]; intros sz [|x' b'] Hcells Hlen Hlen';
    simpl in *; try lia.
  destruct sz as [|sz]; [lia|].
  assert (length (filter (λ x, x = 1%Z) b') ≤ length (filter (λ x, x = 1%Z) b)) as Hrec.
  { apply (IH sz); [|lia|lia]. intros j Hj. apply (Hcells (S j)). lia. }
  rewrite !filter_cons. pose proof (Hcells 0 ltac:(lia)) as H0. simpl in H0.
  destruct (decide (x' = 1%Z)) as [->|]; destruct (decide (x = 1%Z)) as [->|Hx];
    simpl; try lia.
  exfalso. apply Hx. specialize (H0 eq_refl). by injection H0.
Qed.

Lemma extracting_common_cnx_more_subjects_witness :
  ∃ l hnew l' hnew' mask mask',
    extracting_common_cnx [("fa"%string, [0])] 0 Scenario.h0 = (Ok l, Scenario.h0 ++ hnew)
    ∧ extracting_common_cnx Scenario.d0 0 Scenario.h0 = (Ok l', Scenario.h0 ++ hnew')
    ∧ (Scenario.h0 ++ hnew) !! l = Some mask
    ∧ (Scenario.h0 ++ hnew') !! l' = Some mask'
    ∧ count_ones mask' ≤ count_ones mask
    ∧ ∀ j, j < size_of [2; 2] → data mask' !! j = Some 1%Z → data mask !! j = Some 1%Z.
Proof.
  apply (extracting_common_cnx_more_subjects [("fa"%string, [0])] Scenario.d0 0 0
           Scenario.h0 "fa"%string "fa"%string [0] [0; 1]
           [Scenario.m22 1 0 2 3] [Scenario.m22 5 0 6 0] [2; 2]).
  - apply (bool_decide_unpack _). vm_compute. exact I.
  - reflexivity.
  - repeat constructor.
  - apply (bool_decide_unpack _). vm_compute. exact I.
  - reflexivity.
  - repeat constructor.
  - discriminate.
  - repeat constructor.
Defined.

(** ** [main] from its first line *)

Lemma dict_get_absent {V} (d : pydict V) k :
  k ∉ dict_keys d → dict_get d k = Raise KeyError.
Proof.
  induction d as [|[k' v] d IH]; intros Hk; [done|].
  cbn [dict_get]. rewrite decide_False.
  - apply IH. intros Hin. apply Hk. by right.
  - intros ->. apply Hk. by left.
Qed.

Lemma getattr_raises args name e : getattr args name = Raise e → e = AttributeError.
Proof. unfold getattr. destruct (dict_get args name); congruence. Qed.

(** X27. [main] never gets to the loading: line 172 reads [args.input], and
    the parser of [_build_arg_parser] defines in_folder, output, metrics, ids
    and common but no attribute of that name.  For every namespace the
    parser can fill (provided the helpers from scilpy.io.utils add no
    argument named input) and whatever the rest of [main] is, [main] raises
    [AttributeError]; nothing has been loaded or written. *)
Theorem main_attribute_error rest_of_main args verbose_arg overwrite_arg h :
  dict_keys args = _build_arg_parser verbose_arg overwrite_arg →
  "input"%string ∉ verbose_arg → "input"%string ∉ overwrite_arg →
  main rest_of_main args h = (Raise AttributeError, h).
Proof.
  intros Hkeys Hv Ho.
  assert ("input"%string ∉ dict_keys args) as Hin.
  { rewrite Hkeys. unfold _build_arg_parser. intros Hin.
    apply elem_of_app in Hin as [Hin|Hin].
    - revert Hin. apply (bool_decide_unpack _). vm_compute. exact I.
    - apply elem_of_app in Hin as [Hin|Hin]; [by apply Hv|by apply Ho]. }
  unfold main. rewrite run_bind, run_lift.
  destruct (getattr args "verbose") as [v|e] eqn:E.
  - rewrite run_bind, run_lift. unfold getattr.
    by rewrite (dict_get_absent _ _ Hin).
  - by rewrite (getattr_raises _ _ _ E).
Qed.

Lemma main_attribute_error_witness :
  main (λ _ _, mret []) Parsed.args Table.h = (Raise AttributeError, Table.h).
Proof.
  apply (main_attribute_error (λ _ _, mret []) Parsed.args ["verbose"%string]
           ["overwrite"%string] Table.h).
  - reflexivity.
  - apply (bool_decide_unpack _). vm_compute. exact I.
  - apply (bool_decide_unpack _). vm_compute. exact I.
Defined.
